(** * CRUD-AdminBackend: a shallow embedding of the generic record service,
      the schema introspector, the table configuration store and the HTTP
      controllers, with the properties of the specification proved on it.

    Layout of the development:
    - [Js]            the JavaScript values and string/number primitives the
                      code relies on ([parseInt], [String], truthiness, ...);
    - [Sql]           the relational store behind [sequelize.query]: the
                      statements the code issues, as functions on a database
                      value (explicit state passing);
    - [M]             the monad of [async] functions: the process state (the
                      database and the metadata cache) and thrown errors;
    - [Introspection] src/utility/introspection.ts;
    - [GenericService] src/services/genericService.ts;
    - [GenericController], [TableConfigController] src/controllers/*.ts;
    - [Scenario]      the [countries] table of the seed script, for the
                      concrete runs;
    - the vocabulary of the specification, then the theorems, one block
      per property. *)

From Stdlib Require Import ZArith String Ascii Bool DecimalString Lia.
From stdpp Require Import gmap strings list.

Local Open Scope Z_scope.
Set Warnings "-register-all".

(* ===================================================================== *)
(** * JavaScript values and primitives *)
(* ===================================================================== *)

Module Js.

(** Numbers. Every number the code computes with is an integer, a NaN or an
    infinity: [Fin z] stands for the double holding the integer [z]. The
    rounding of doubles beyond 2^53 and the sign of zero are outside the
    model. *)
Inductive number : Type :=
| NaN
| PosInf
| NegInf
| Fin (z : Z).

(** JSON-like values: request bodies, query-string values, result rows.
    A string is held as the bytes of its UTF-8 encoding. *)
Inductive value : Type :=
| JUndefined
| JNull
| JBool (b : bool)
| JNum (n : number)
| JStr (s : string)
| JArr (l : list value)
| JObj (o : list (string * value)).

(** A JavaScript object used as a record: keys in insertion order, which
    is the order [Object.keys] enumerates (integer-like keys, which
    JavaScript enumerates first, are not treated specially). *)
Abbreviation object := (list (string * value)).

(** [o[k]]: the value of the first binding of [k], [undefined] if none. *)
Fixpoint obj_get (o : object) (k : string) : value :=
  match o with
  | [] => JUndefined
  | (k', v) :: o' => if String.eqb k' k then v else obj_get o' k
  end.

(** The own property [k] of [o] set to [v]: overwritten in place when the
    key exists, else appended. *)
Fixpoint define (o : object) (k : string) (v : value) : object :=
  match o with
  | [] => [(k, v)]
  | (k', v') :: o' =>
      if String.eqb k' k then (k, v) :: o' else (k', v') :: define o' k v
  end.

(** [o[k] = v] on an object created by a literal. The key [__proto__] is
    the accessor inherited from [Object.prototype]: assigning to it
    creates no own property (it replaces the prototype when [v] is an
    object, which no own key records, and does nothing otherwise). *)
Definition obj_set (o : object) (k : string) (v : value) : object :=
  if String.eqb k "__proto__" then o else define o k v.

(** [delete o[k]]. *)
Definition obj_delete (o : object) (k : string) : object :=
  List.filter (fun kv => negb (String.eqb (fst kv) k)) o.

Definition keys (o : object) : list string := List.map fst o.
Definition values (o : object) : list value := List.map snd o.

(** [Object.assign(target, source)]. *)
Definition assign (target source : object) : object :=
  fold_left (fun acc kv => obj_set acc (fst kv) (snd kv)) source target.

(** ** Numbers *)

Definition num_truthy (n : number) : bool :=
  match n with
  | NaN => false
  | Fin z => negb (z =? 0)
  | _ => true
  end.

(** [a || d] on numbers. *)
Definition num_or (a d : number) : number := if num_truthy a then a else d.

Definition num_add (a b : number) : number :=
  match a, b with
  | NaN, _ | _, NaN => NaN
  | PosInf, NegInf | NegInf, PosInf => NaN
  | PosInf, _ | _, PosInf => PosInf
  | NegInf, _ | _, NegInf => NegInf
  | Fin x, Fin y => Fin (x + y)
  end.

Definition num_neg (a : number) : number :=
  match a with
  | NaN => NaN
  | PosInf => NegInf
  | NegInf => PosInf
  | Fin x => Fin (- x)
  end.

Definition num_sub (a b : number) : number := num_add a (num_neg b).

Definition num_mul (a b : number) : number :=
  match a, b with
  | NaN, _ | _, NaN => NaN
  | Fin x, Fin y => Fin (x * y)
  | Fin x, PosInf | PosInf, Fin x =>
      if x =? 0 then NaN else if 0 <? x then PosInf else NegInf
  | Fin x, NegInf | NegInf, Fin x =>
      if x =? 0 then NaN else if 0 <? x then NegInf else PosInf
  | PosInf, PosInf | NegInf, NegInf => PosInf
  | PosInf, NegInf | NegInf, PosInf => NaN
  end.

(** [Math.floor(a / b)]; on integers the quotient rounded down is [Z.div]. *)
Definition floor_div (a b : number) : number :=
  match a, b with
  | NaN, _ | _, NaN => NaN
  | Fin x, Fin y =>
      if y =? 0 then
        (if x =? 0 then NaN else if 0 <? x then PosInf else NegInf)
      else Fin (x / y)
  | Fin _, PosInf => Fin 0
  | Fin x, NegInf => Fin 0
  | PosInf, Fin y => if 0 <=? y then PosInf else NegInf
  | NegInf, Fin y => if 0 <=? y then NegInf else PosInf
  | _, _ => NaN
  end.

(** ** Strings *)

Definition decimal (z : Z) : string := NilZero.string_of_int (Z.to_int z).

Definition num_to_string (n : number) : string :=
  match n with
  | NaN => "NaN"
  | PosInf => "Infinity"
  | NegInf => "-Infinity"
  | Fin z => decimal z
  end.

(** [Array.prototype.join]. *)
Fixpoint join (sep : string) (l : list string) : string :=
  match l with
  | [] => ""
  | [s] => s
  | s :: l' => s +:+ sep +:+ join sep l'
  end.

(** [String(v)]. *)
Fixpoint ToString (v : value) : string :=
  match v with
  | JUndefined => "undefined"
  | JNull => "null"
  | JBool true => "true"
  | JBool false => "false"
  | JNum n => num_to_string n
  | JStr s => s
  | JArr l =>
      join "," (List.map (fun x => match x with
                                   | JUndefined | JNull => ""
                                   | _ => ToString x
                                   end) l)
  | JObj _ => "[object Object]"
  end.

(** Truthiness, as tested by [if (v)], [a && b], [a || b] and [!v]. *)
Definition truthy (v : value) : bool :=
  match v with
  | JUndefined | JNull => false
  | JBool b => b
  | JNum n => num_truthy n
  | JStr s => negb (String.eqb s "")
  | JArr _ | JObj _ => true
  end.

(** [typeof v === 'object'] (which holds of [null] too). *)
Definition typeof_object (v : value) : bool :=
  match v with
  | JNull | JArr _ | JObj _ => true
  | _ => false
  end.

Definition typeof_string (v : value) : bool :=
  match v with
  | JStr _ => true
  | _ => false
  end.

(** [v === undefined] and [v === ''] *)
Definition is_undefined (v : value) : bool :=
  match v with JUndefined => true | _ => false end.

Definition is_null (v : value) : bool :=
  match v with JNull => true | _ => false end.

Definition is_empty_string (v : value) : bool :=
  match v with JStr s => String.eqb s "" | _ => false end.

(** [hay.includes(needle)]. *)
Fixpoint includes (hay needle : string) : bool :=
  String.prefix needle hay ||
  match hay with
  | EmptyString => false
  | String _ hay' => includes hay' needle
  end.

Definition code (c : ascii) : nat := nat_of_ascii c.

Definition is_lower (c : ascii) : bool := (97 <=? code c)%nat && (code c <=? 122)%nat.
Definition is_upper (c : ascii) : bool := (65 <=? code c)%nat && (code c <=? 90)%nat.
Definition is_digit (c : ascii) : bool := (48 <=? code c)%nat && (code c <=? 57)%nat.

Definition upper_char (c : ascii) : ascii :=
  if is_lower c then ascii_of_nat (code c - 32) else c.
Definition lower_char (c : ascii) : ascii :=
  if is_upper c then ascii_of_nat (code c + 32) else c.

Fixpoint map_chars (f : ascii -> ascii) (s : string) : string :=
  match s with
  | EmptyString => EmptyString
  | String c s' => String (f c) (map_chars f s')
  end.

(** [toUpperCase] and [toLowerCase] on the letters of ASCII; what they do
    to the other characters is outside the model, which leaves every byte
    of them alone. *)
Definition toUpperCase : string -> string := map_chars upper_char.
Definition toLowerCase : string -> string := map_chars lower_char.

(** Every character of [s] satisfies [f]. *)
Fixpoint all_chars (f : ascii -> bool) (s : string) : bool :=
  match s with
  | EmptyString => true
  | String c s' => f c && all_chars f s'
  end.

(** A string of ASCII characters only. *)
Definition is_ascii (s : string) : bool := all_chars (fun c => (code c <? 128)%nat) s.

(** What one byte of the UTF-8 encoding adds to [s.length], the number of
    UTF-16 code units: nothing for a continuation byte, two for the lead
    byte of a four-byte sequence (a character beyond the basic plane, a
    surrogate pair in UTF-16), one for any other byte. *)
Definition units (c : ascii) : nat :=
  if (code c <? 128)%nat then 1%nat
  else if (code c <? 192)%nat then 0%nat
  else if (code c <? 240)%nat then 1%nat
  else 2%nat.

(** [s.length] *)
Fixpoint utf16_length (s : string) : nat :=
  match s with
  | EmptyString => 0%nat
  | String c s' => (units c + utf16_length s')%nat
  end.

(** [s.split(sep)] for a one-character separator. *)
Fixpoint split_aux (sep : ascii) (s : string) (cur : string) : list string :=
  match s with
  | EmptyString => [cur]
  | String c s' =>
      if Ascii.eqb c sep then cur :: split_aux sep s' ""
      else split_aux sep s' (cur +:+ String c "")
  end.

Definition split (sep : ascii) (s : string) : list string := split_aux sep s "".

(** ** parseInt *)

(** White space skipped by [parseInt]: TAB, LF, VT, FF, CR and space. *)
Definition is_space (c : ascii) : bool :=
  (code c =? 32)%nat || ((9 <=? code c)%nat && (code c <=? 13)%nat).

Fixpoint trimStart (s : string) : string :=
  match s with
  | String c s' => if is_space c then trimStart s' else s
  | EmptyString => EmptyString
  end.

Definition digit_value (c : ascii) : option Z :=
  if is_digit c then Some (Z.of_nat (code c - 48))
  else if is_lower c then Some (Z.of_nat (code c - 87))
  else if is_upper c then Some (Z.of_nat (code c - 55))
  else None.

(** The longest prefix of radix-[R] digits, read as a number; [None] when
    that prefix is empty. *)
Fixpoint parse_digits (R : Z) (s : string) (acc : option Z) : option Z :=
  match s with
  | EmptyString => acc
  | String c s' =>
      match digit_value c with
      | Some d =>
          if d <? R
          then parse_digits R s' (Some (match acc with
                                        | Some a => a * R + d
                                        | None => d
                                        end))
          else acc
      | None => acc
      end
  end.

(** [parseInt(s)] with no radix argument: leading white space, an optional
    sign, an optional [0x]/[0X] prefix selecting radix 16, then digits. *)
Definition parseInt_string (s : string) : number :=
  let s1 := trimStart s in
  let '(negative, s2) :=
    match s1 with
    | String "-" r => (true, r)
    | String "+" r => (false, r)
    | _ => (false, s1)
    end in
  let '(R, s3) :=
    match s2 with
    | String "0" (String "x" r) => (16, r)
    | String "0" (String "X" r) => (16, r)
    | _ => (10, s2)
    end in
  match parse_digits R s3 None with
  | None => NaN
  | Some n => Fin (if negative then - n else n)
  end.

(** [parseInt(v)]: the argument is converted with [String] first. *)
Definition parseInt (v : value) : number := parseInt_string (ToString v).

(** ** Errors and completions *)

(** [new Error(message)]: the code tells errors apart by their message
    only. *)
Record Error : Type := { message : string }.

(** How an [async] call completes: with a value, or with a thrown error. *)
Inductive outcome (A : Type) : Type :=
| Return (a : A)
| Throw (e : Error).
Arguments Return {A} a.
Arguments Throw {A} e.

Definition throw_msg {A : Type} (msg : string) : outcome A :=
  Throw {| message := msg |}.

End Js.


Import Js.

(* ===================================================================== *)
(** * The relational store behind [sequelize.query] *)
(* ===================================================================== *)

(** The database engine is an external collaborator of the program. This
    module fixes the fragment of its behaviour the code depends on: each
    statement the code issues is a function on a [database] value, and a
    rejected statement completes with a thrown driver error. How the
    engine compares a cell with a literal (its casts and the collation of
    the column) is not fixed here: every table carries its comparisons,
    and the theorems hold whatever they are. Column defaults, constraints
    and triggers declared inside the engine are not modelled: an omitted
    column is stored as NULL and a well-formed write is accepted. *)
Module Sql.

Inductive sqlval : Type :=
| SNull
| SInt (n : Z)
| SText (s : string).

#[global] Instance sqlval_eq_dec : EqDecision sqlval.
Proof. solve_decision. Defined.

(** A row of [INFORMATION_SCHEMA.COLUMNS], under the aliases of the
    columns query of [getTableMetadata]. *)
Record raw_column : Type := {
  raw_name : string;
  raw_type : string;
  raw_isNullable : string;
  raw_key : string;
  raw_extra : string;
  raw_maxLength : option Z
}.

Abbreviation row := (list (string * sqlval)).

(** The comparisons of the engine on the columns of one table, for values
    that are not NULL. They depend on the declared type and the collation
    of the column, which the program never reads: [equal c x lit] is the
    result of [c = lit] on a cell [x] of column [c], [like c x pat] that of
    [c LIKE pat], and [precedes c x y] tells whether [ORDER BY c] may put
    a row holding [x] before one holding [y]. *)
Record comparisons : Type := {
  equal : string -> sqlval -> sqlval -> bool;
  like : string -> sqlval -> sqlval -> bool;
  precedes : string -> sqlval -> sqlval -> bool
}.

Record table : Type := {
  t_columns : list raw_column;
  t_rows : list row;
  t_auto_increment : Z;
  t_compare : comparisons
}.

(** A row of [table_configurations]. The JSON columns hold an array of
    column names or NULL, as the driver hands them back parsed. *)
Record config_row : Type := {
  cfg_id : Z;
  cfg_table_name : string;
  cfg_column_order : option (list string);
  cfg_unique_constraints : option (list string);
  cfg_sortable_columns : option (list string);
  cfg_searchable_columns : option (list string);
  cfg_filterable_columns : option (list string);
  cfg_updated_at : Z;
  cfg_deleted_at : option Z
}.

(** [configurations = None]: the relation [table_configurations] cannot
    be queried (it is missing or lacks a column), so that every statement
    on it is rejected. [now] is the value of [NOW()]. The configuration
    relation is kept apart from the user tables. *)
Record database : Type := {
  tables : gmap string table;
  configurations : option (list config_row);
  now : Z
}.

(** ** Values *)

(** The literal a replacement is rendered to ([undefined], which only a
    positional replacement can hold, is rendered as NULL). NaN and the
    infinities have no literal. An array or an object is not a scalar: the
    driver renders it as a list, which the statements of this program
    accept in place of a scalar only in the case of a one-element array;
    the model rejects the statement in every such case. *)
Definition bind_value (v : value) : option sqlval :=
  match v with
  | JUndefined | JNull => Some SNull
  | JBool b => Some (SInt (if b then 1 else 0))
  | JNum (Fin z) => Some (SInt z)
  | JNum _ => None
  | JStr s => Some (SText s)
  | JArr _ | JObj _ => None
  end.

(** The value the driver hands back for a cell. *)
Definition js_of_sql (v : sqlval) : value :=
  match v with
  | SNull => JNull
  | SInt n => JNum (Fin n)
  | SText s => JStr s
  end.

Definition js_of_row (r : row) : value :=
  JObj (List.map (fun kv => (fst kv, js_of_sql (snd kv))) r).

(** Three-valued comparison of a cell of column [c] of table [t] with a
    literal: [None] is SQL's UNKNOWN, the result whenever one side is
    NULL. *)
Definition sql_eq (t : table) (c : string) (a b : sqlval) : option bool :=
  match a, b with
  | SNull, _ | _, SNull => None
  | _, _ => Some (equal (t_compare t) c a b)
  end.

Definition sql_not (t : option bool) : option bool := negb <$> t.

Definition sql_or (a b : option bool) : option bool :=
  match a, b with
  | Some true, _ | _, Some true => Some true
  | Some false, Some false => Some false
  | _, _ => None
  end.

Definition sql_text (v : sqlval) : option string :=
  match v with
  | SNull => None
  | SInt n => Some (decimal n)
  | SText s => Some s
  end.

(** [LIKE] with the wildcards [%] and [_]. *)
Fixpoint like_match (p : string) : string -> bool :=
  match p with
  | EmptyString => fun s => String.eqb s ""
  | String c p' =>
      if Ascii.eqb c "%" then
        fix skip (s : string) : bool :=
          like_match p' s ||
          match s with
          | EmptyString => false
          | String _ s' => skip s'
          end
      else if Ascii.eqb c "_" then
        fun s => match s with
                 | EmptyString => false
                 | String _ s' => like_match p' s'
                 end
      else
        fun s => match s with
                 | EmptyString => false
                 | String d s' => Ascii.eqb c d && like_match p' s'
                 end
  end.

Definition sql_like (t : table) (c : string) (a pattern : sqlval) : option bool :=
  match a, pattern with
  | SNull, _ | _, SNull => None
  | _, _ => Some (like (t_compare t) c a pattern)
  end.

(** Ordering used by [ORDER BY c]: NULL comes first. *)
Definition sql_leb (t : table) (c : string) (a b : sqlval) : bool :=
  match a, b with
  | SNull, _ => true
  | _, SNull => false
  | _, _ => precedes (t_compare t) c a b
  end.

(** The comparisons of a table whose columns are compared exactly: a
    number with a number, a text with a text byte for byte, as under a
    binary collation. They stand for the engine where a cell meets a
    literal of its own type and letter case; the casts the engine applies
    when a number meets a text, and the other collations, are not in this
    instance. *)
Definition binary : comparisons :=
  {| equal := fun _ a b => bool_decide (a = b);
     like := fun _ a p =>
       match sql_text a, sql_text p with
       | Some s, Some q => like_match q s
       | _, _ => false
       end;
     precedes := fun _ a b =>
       match a, b with
       | SNull, _ => true
       | _, SNull => false
       | SInt x, SInt y => x <=? y
       | SInt _, SText _ => true
       | SText _, SInt _ => false
       | SText s, SText u => String.leb s u
       end |}.

(** ** Rows *)

Fixpoint cell (r : row) (c : string) : sqlval :=
  match r with
  | [] => SNull
  | (c', v) :: r' => if String.eqb c' c then v else cell r' c
  end.

Fixpoint set_cell (r : row) (c : string) (v : sqlval) : row :=
  match r with
  | [] => [(c, v)]
  | (c', v') :: r' =>
      if String.eqb c' c then (c, v) :: r' else (c', v') :: set_cell r' c v
  end.

Definition has_column (t : table) (c : string) : bool :=
  existsb (fun rc => String.eqb (raw_name rc) c) (t_columns t).

(** ** Completions as a monad *)

#[global] Instance outcome_ret : MRet outcome := fun A a => Return a.
#[global] Instance outcome_bind : MBind outcome :=
  fun A B f m => match m with
                 | Return a => f a
                 | Throw e => Throw e
                 end.

(** ** WHERE clauses *)

(** The comparisons the code writes, each against a named replacement. *)
Inductive atom : Type :=
| Eq (col param : string)       (* col = :param *)
| NotEq (col param : string)    (* col != :param *)
| Like (col param : string).    (* col LIKE :param *)

(** A conjunct of a WHERE clause: a comparison, or a parenthesised
    disjunction of comparisons. *)
Inductive cond : Type :=
| Atom (a : atom)
| AnyOf (l : list atom).

Definition render_atom (a : atom) : string :=
  match a with
  | Eq col param => col +:+ " = :" +:+ param
  | NotEq col param => col +:+ " != :" +:+ param
  | Like col param => col +:+ " LIKE :" +:+ param
  end.

Definition render_cond (c : cond) : string :=
  match c with
  | Atom a => render_atom a
  | AnyOf l => "(" +:+ join " OR " (List.map render_atom l) +:+ ")"
  end.

Definition atom_col (a : atom) : string :=
  match a with Eq c _ | NotEq c _ | Like c _ => c end.

Definition atom_param (a : atom) : string :=
  match a with Eq _ p | NotEq _ p | Like _ p => p end.

Definition atom_op (t : table) (a : atom) : sqlval -> sqlval -> option bool :=
  match a with
  | Eq c _ => sql_eq t c
  | NotEq c _ => fun x y => sql_not (sql_eq t c x y)
  | Like c _ => sql_like t c
  end.

Definition unknown_column (c clause : string) : Error :=
  {| message := "Unknown column '" +:+ c +:+ "' in '" +:+ clause +:+ "'" |}.

Definition no_such_table (t : string) : Error :=
  {| message := "Table '" +:+ t +:+ "' doesn't exist" |}.

Definition missing_parameter (p : string) : Error :=
  {| message := "Named parameter :" +:+ p +:+ " has no value in the given object." |}.

Definition invalid_value : Error := {| message := "Invalid value" |}.

Definition syntax_error : Error :=
  {| message := "You have an error in your SQL syntax" |}.

(** The literal bound to a named replacement, which must be defined. *)
Definition parameter (repl : gmap string value) (p : string) : outcome sqlval :=
  match repl !! p with
  | None | Some JUndefined => Throw (missing_parameter p)
  | Some v =>
      match bind_value v with
      | None => Throw invalid_value
      | Some lit => Return lit
      end
  end.

(** A comparison is resolved against the table once, before any row is
    read: an unknown column or an unusable replacement rejects the whole
    statement, whatever the rows. *)
Definition compile_atom (t : table) (repl : gmap string value) (a : atom)
  : outcome (row -> option bool) :=
  lit ← parameter repl (atom_param a);
  if has_column t (atom_col a)
  then Return (fun r => atom_op t a (cell r (atom_col a)) lit)
  else Throw (unknown_column (atom_col a) "where clause").

Fixpoint compile_any (t : table) (repl : gmap string value) (l : list atom)
  : outcome (row -> option bool) :=
  match l with
  | [] => Return (fun _ => Some false)
  | a :: l' =>
      f ← compile_atom t repl a;
      g ← compile_any t repl l';
      Return (fun r => sql_or (f r) (g r))
  end.

Definition compile_cond (t : table) (repl : gmap string value) (c : cond)
  : outcome (row -> option bool) :=
  match c with
  | Atom a => compile_atom t repl a
  | AnyOf l => compile_any t repl l
  end.

(** A row is selected when every conjunct is TRUE (not UNKNOWN). *)
Fixpoint compile_where (t : table) (repl : gmap string value) (cs : list cond)
  : outcome (row -> bool) :=
  match cs with
  | [] => Return (fun _ => true)
  | c :: cs' =>
      f ← compile_cond t repl c;
      g ← compile_where t repl cs';
      Return (fun r => bool_decide (f r = Some true) && g r)
  end.

Definition lookup_table (db : database) (name : string) : outcome table :=
  match tables db !! name with
  | Some t => Return t
  | None => Throw (no_such_table name)
  end.

(** ** ORDER BY, LIMIT and OFFSET *)

Fixpoint insert_sorted (leb : row -> row -> bool) (r : row) (l : list row)
  : list row :=
  match l with
  | [] => [r]
  | r' :: l' => if leb r r' then r :: l else r' :: insert_sorted leb r l'
  end.

Definition sort_rows (leb : row -> row -> bool) (l : list row) : list row :=
  fold_right (insert_sorted leb) [] l.

(** [ORDER BY col dir], [dir] being [ASC] or [DESC]. *)
Definition order_by (t : table) (col dir : string) (l : list row)
  : outcome (list row) :=
  if has_column t col then
    Return (sort_rows
              (fun a b => if String.eqb dir "DESC"
                          then sql_leb t col (cell b col) (cell a col)
                          else sql_leb t col (cell a col) (cell b col)) l)
  else Throw (unknown_column col "order clause").

(** The shape of a name the engine reads as one identifier: letters of
    ASCII, digits and underscores, not starting with a digit. A word the
    engine reserves has this shape too, and is not told apart here. *)
Definition is_identifier (s : string) : bool :=
  match s with
  | EmptyString => false
  | String c _ =>
      negb (is_digit c)
      && all_chars (fun c => is_lower c || is_upper c || is_digit c || Ascii.eqb c "_") s
  end.

(** The words of a text, separated by spaces. *)
Definition words (s : string) : list string :=
  List.filter (fun w => negb (String.eqb w "")) (split " " s).

(** The program pastes the sort parameter after ORDER BY as it comes.
    What the engine reads there, for the two shapes of text modelled:
    a column name; and a column name followed by a LIMIT of its own and
    by two dashes, [col LIMIT n -- ...]. The dashes, followed by a space,
    start a comment that runs to the end of the statement, which is
    written on one line: the direction and the LIMIT and OFFSET the
    program appends are then not read. Any other text is outside the
    model, which rejects it; the engine may not. *)
Inductive sort_text : Type :=
| SortColumn (col : string)
| SortLimited (col : string) (n : nat)
| SortOther.

Definition read_sort (by_ : string) : sort_text :=
  if is_identifier by_ then SortColumn by_
  else
    match words by_ with
    | col :: keyword :: n :: dashes :: _ =>
        if is_identifier col && String.eqb (toUpperCase keyword) "LIMIT"
           && negb (String.eqb n "") && all_chars is_digit n
           && String.eqb dashes "--"
        then match parse_digits 10 n None with
             | Some z => SortLimited col (Z.to_nat z)
             | None => SortOther
             end
        else SortOther
    | _ => SortOther
    end.

(** A LIMIT or OFFSET operand must be a non-negative integer literal. *)
Definition row_count (repl : gmap string value) (p : string) : outcome nat :=
  match repl !! p with
  | None => Throw (missing_parameter p)
  | Some (JNum (Fin z)) => if 0 <=? z then Return (Z.to_nat z) else Throw syntax_error
  | Some _ => Throw syntax_error
  end.

(** ** SELECT *)

(** [LIMIT :limit OFFSET :offset], when [window] is set. *)
Definition windowed (window : bool) (repl : gmap string value) (l : list row)
  : outcome (list row) :=
  if window then
    limit ← row_count repl "limit";
    offset ← row_count repl "offset";
    Return (take limit (drop offset l))
  else Return l.

(** [SELECT * FROM table WHERE cs ORDER BY by_ dir LIMIT :limit OFFSET
    :offset]: [ord] holds the text pasted after ORDER BY and the
    direction, and the last two clauses are present when [window] is set.
    Without ORDER BY the rows come in the order of the table. *)
Definition select_rows (db : database) (name : string) (cs : list cond)
    (ord : option (string * string)) (window : bool)
    (repl : gmap string value) : outcome (list row) :=
  t ← lookup_table db name;
  keep ← compile_where t repl cs;
  let found := List.filter keep (t_rows t) in
  match ord with
  | None => windowed window repl found
  | Some (by_, dir) =>
      match read_sort by_ with
      | SortColumn col =>
          sorted ← order_by t col dir found;
          windowed window repl sorted
      | SortLimited col n =>
          sorted ← order_by t col "ASC" found;
          Return (take n sorted)
      | SortOther => Throw syntax_error
      end
  end.

(** [SELECT COUNT( * ) FROM table WHERE cs]. *)
Definition count_rows (db : database) (name : string) (cs : list cond)
    (repl : gmap string value) : outcome Z :=
  t ← lookup_table db name;
  keep ← compile_where t repl cs;
  Return (Z.of_nat (length (List.filter keep (t_rows t)))).

(** ** INSERT, UPDATE, DELETE *)

Fixpoint bind_values (vs : list value) : outcome (list sqlval) :=
  match vs with
  | [] => Return []
  | v :: vs' =>
      match bind_value v with
      | None => Throw invalid_value
      | Some lit => lits ← bind_values vs'; Return (lit :: lits)
      end
  end.

Definition check_columns (t : table) (cols : list string) (clause : string)
  : outcome unit :=
  match List.find (fun c => negb (has_column t c)) cols with
  | Some c => Throw (unknown_column c clause)
  | None => Return tt
  end.

Definition is_auto_increment (rc : raw_column) : bool :=
  includes (raw_extra rc) "auto_increment".

Fixpoint supplied (cols : list string) (lits : list sqlval) (c : string)
  : option sqlval :=
  match cols, lits with
  | c' :: cols', v :: lits' =>
      if String.eqb c' c then Some v else supplied cols' lits' c
  | _, _ => None
  end.

(** The cell stored for column [rc] of a new row: the supplied literal,
    the next counter value for an AUTO_INCREMENT column left out or given
    NULL, NULL for any other column left out. *)
Definition new_cell (t : table) (cols : list string) (lits : list sqlval)
    (rc : raw_column) : sqlval :=
  match supplied cols lits (raw_name rc) with
  | Some SNull | None =>
      if is_auto_increment rc then SInt (t_auto_increment t) else SNull
  | Some v => v
  end.

Definition new_row (t : table) (cols : list string) (lits : list sqlval) : row :=
  List.map (fun rc => (raw_name rc, new_cell t cols lits rc)) (t_columns t).

(** The identifier the driver reports for an INSERT: the value stored in
    the AUTO_INCREMENT column, 0 when the table has none. *)
Definition insert_id (t : table) (r : row) : Z :=
  match List.find is_auto_increment (t_columns t) with
  | Some rc => match cell r (raw_name rc) with SInt n => n | _ => 0 end
  | None => 0
  end.

Definition with_table (db : database) (name : string) (t : table) : database :=
  {| tables := <[name := t]> (tables db);
     configurations := configurations db;
     now := now db |}.

(** [INSERT INTO table (cols) VALUES (?, ..., ?)]. *)
Definition insert_row (db : database) (name : string) (cols : list string)
    (vals : list value) : outcome (Z * database) :=
  lits ← bind_values vals;
  t ← lookup_table db name;
  _ ← check_columns t cols "field list";
  let r := new_row t cols lits in
  let id := insert_id t r in
  let t' := {| t_columns := t_columns t;
               t_rows := t_rows t ++ [r];
               t_auto_increment := Z.max (t_auto_increment t) (id + 1);
               t_compare := t_compare t |} in
  Return (id, with_table db name t').

(** [UPDATE table SET c1 = ?, ..., cn = ? WHERE pk = ?]. *)
Definition update_rows (db : database) (name : string) (cols : list string)
    (vals : list value) (pk : string) (id : value) : outcome database :=
  lits ← bind_values vals;
  idlit ← match bind_value id with
          | Some v => Return v
          | None => Throw invalid_value
          end;
  _ ← (if bool_decide (cols = []) then Throw syntax_error else Return tt);
  t ← lookup_table db name;
  _ ← check_columns t cols "field list";
  _ ← check_columns t [pk] "where clause";
  let assign_all (r : row) :=
    fold_left (fun acc kv => set_cell acc (fst kv) (snd kv)) (zip cols lits) r in
  let t' := {| t_columns := t_columns t;
               t_rows := List.map (fun r =>
                           if bool_decide (sql_eq t pk (cell r pk) idlit = Some true)
                           then assign_all r else r) (t_rows t);
               t_auto_increment := t_auto_increment t;
               t_compare := t_compare t |} in
  Return (with_table db name t').

(** [DELETE FROM table WHERE cs]. *)
Definition delete_rows (db : database) (name : string) (cs : list cond)
    (repl : gmap string value) : outcome database :=
  t ← lookup_table db name;
  keep ← compile_where t repl cs;
  let t' := {| t_columns := t_columns t;
               t_rows := List.filter (fun r => negb (keep r)) (t_rows t);
               t_auto_increment := t_auto_increment t;
               t_compare := t_compare t |} in
  Return (with_table db name t').

(** ** The catalog *)

(** [SELECT TABLE_NAME FROM INFORMATION_SCHEMA.TABLES WHERE TABLE_SCHEMA =
    :dbName AND TABLE_NAME = :tableName]. *)
Definition schema_tables_named (db : database) (tableName : string) : list string :=
  match tables db !! tableName with
  | Some _ => [tableName]
  | None => []
  end.

(** [SELECT TABLE_NAME as name FROM INFORMATION_SCHEMA.TABLES WHERE
    TABLE_SCHEMA = :dbName]. *)
Definition schema_tables (db : database) : list string :=
  fst <$> map_to_list (tables db).

(** The columns query of [getTableMetadata]. *)
Definition schema_columns (db : database) (tableName : string) : list raw_column :=
  match tables db !! tableName with
  | Some t => t_columns t
  | None => []
  end.

(** ** Statements on [table_configurations] *)

Definition config_relation (db : database) : outcome (list config_row) :=
  match configurations db with
  | Some rows => Return rows
  | None => Throw (no_such_table "table_configurations")
  end.

Definition with_configurations (db : database) (rows : list config_row) : database :=
  {| tables := tables db; configurations := Some rows; now := now db |}.

Definition named (table : string) (c : config_row) : bool :=
  String.eqb (cfg_table_name c) table.

Definition active (c : config_row) : bool :=
  match cfg_deleted_at c with None => true | Some _ => false end.

(** [SELECT ... FROM table_configurations WHERE table_name = :table AND
    deleted_at IS NULL]. *)
Definition config_select_active (db : database) (table : string)
  : outcome (list config_row) :=
  rows ← config_relation db;
  Return (List.filter (fun c => named table c && active c) rows).

(** [SELECT id FROM table_configurations WHERE table_name = :table_name]. *)
Definition config_select_named (db : database) (table : string)
  : outcome (list config_row) :=
  rows ← config_relation db;
  Return (List.filter (named table) rows).

Fixpoint insert_name (s : string) (l : list string) : list string :=
  match l with
  | [] => [s]
  | s' :: l' => if String.leb s s' then s :: l else s' :: insert_name s l'
  end.

(** [SELECT table_name FROM table_configurations WHERE deleted_at IS NULL
    ORDER BY table_name], the names being ordered byte for byte. *)
Definition config_select_names (db : database) : outcome (list string) :=
  rows ← config_relation db;
  Return (fold_right insert_name [] (cfg_table_name <$> List.filter active rows)).

(** The five JSON columns, as written by [saveConfig]. *)
Record config_fields : Type := {
  f_column_order : option (list string);
  f_unique_constraints : option (list string);
  f_sortable_columns : option (list string);
  f_searchable_columns : option (list string);
  f_filterable_columns : option (list string)
}.

(** The assignments of [UPDATE table_configurations SET column_order = ...,
    ..., updated_at = NOW()]: [deleted_at] is not assigned. *)
Definition set_fields (f : config_fields) (at_ : Z) (c : config_row) : config_row :=
  {| cfg_id := cfg_id c;
     cfg_table_name := cfg_table_name c;
     cfg_column_order := f_column_order f;
     cfg_unique_constraints := f_unique_constraints f;
     cfg_sortable_columns := f_sortable_columns f;
     cfg_searchable_columns := f_searchable_columns f;
     cfg_filterable_columns := f_filterable_columns f;
     cfg_updated_at := at_;
     cfg_deleted_at := cfg_deleted_at c |}.

(** The assignment of [UPDATE table_configurations SET deleted_at = NOW()]. *)
Definition mark_deleted (at_ : Z) (c : config_row) : config_row :=
  {| cfg_id := cfg_id c;
     cfg_table_name := cfg_table_name c;
     cfg_column_order := cfg_column_order c;
     cfg_unique_constraints := cfg_unique_constraints c;
     cfg_sortable_columns := cfg_sortable_columns c;
     cfg_searchable_columns := cfg_searchable_columns c;
     cfg_filterable_columns := cfg_filterable_columns c;
     cfg_updated_at := cfg_updated_at c;
     cfg_deleted_at := Some at_ |}.

(** [UPDATE table_configurations SET ... WHERE table_name = :table_name]. *)
Definition config_update (db : database) (table : string) (f : config_fields)
  : outcome database :=
  rows ← config_relation db;
  Return (with_configurations db
    (List.map (fun c => if named table c then set_fields f (now db) c else c) rows)).

(** [INSERT INTO table_configurations (table_name, column_order, ...)
    VALUES (...)]: the new row is not deleted. *)
Definition config_insert (db : database) (table : string) (f : config_fields)
  : outcome database :=
  rows ← config_relation db;
  Return (with_configurations db
    (rows ++ [{| cfg_id := 1 + fold_right Z.max 0 (cfg_id <$> rows);
                 cfg_table_name := table;
                 cfg_column_order := f_column_order f;
                 cfg_unique_constraints := f_unique_constraints f;
                 cfg_sortable_columns := f_sortable_columns f;
                 cfg_searchable_columns := f_searchable_columns f;
                 cfg_filterable_columns := f_filterable_columns f;
                 cfg_updated_at := now db;
                 cfg_deleted_at := None |}])).

(** [UPDATE table_configurations SET deleted_at = NOW() WHERE table_name =
    :table]. *)
Definition config_soft_delete (db : database) (table : string) : outcome database :=
  rows ← config_relation db;
  Return (with_configurations db
    (List.map (fun c => if named table c then mark_deleted (now db) c else c) rows)).

End Sql.

(* ===================================================================== *)
(** * The process state and the monad of [async] functions *)
(* ===================================================================== *)

(** One column of a Table Metadata (the objects built by [columnsRaw.map]). *)
Record ui_hint : Type := { ui_widget : string; ui_label : string }.

Record column : Type := {
  col_name : string;
  col_type : string;
  col_nullable : bool;
  col_maxLength : option Z;
  col_isPrimaryKey : bool;
  col_isAutoIncrement : bool;
  col_ui : ui_hint
}.

Record metadata : Type := {
  md_table : string;
  md_label : string;
  md_primaryKey : string;
  md_columns : list column;
  md_relations : list string
}.

(** What a request handler can read and write: the database, and the
    module-level [metadataCache] of introspection.ts, keyed by table name
    (keys inherited from [Object.prototype] are outside the model). *)
Record state : Type := {
  db : Sql.database;
  metadataCache : gmap string metadata
}.

(** An [async] function: it reads and writes the state and completes with
    a value or a thrown error. Requests are run one after the other. *)
Record M (A : Type) : Type := Run { run : state -> outcome A * state }.
Arguments Run {A} _.
Arguments run {A} _ _.

#[global] Instance M_ret : MRet M := fun A a => Run (fun st => (Return a, st)).
#[global] Instance M_bind : MBind M :=
  fun A B f m => Run (fun st =>
    match run m st with
    | (Return a, st') => run (f a) st'
    | (Throw e, st') => (Throw e, st')
    end).

Definition throw {A : Type} (e : Error) : M A := Run (fun st => (Throw e, st)).

(** [throw new Error(msg)]. *)
Definition throw_new {A : Type} (msg : string) : M A := throw {| message := msg |}.

(** [try { body } catch (error) { handler }]. *)
Definition try_catch {A : Type} (body : M A) (handler : Error -> M A) : M A :=
  Run (fun st =>
    match run body st with
    | (Return a, st') => (Return a, st')
    | (Throw e, st') => run (handler e) st'
    end).

(** [for (const x of l) { body }]. *)
Fixpoint for_of {A : Type} (l : list A) (body : A -> M unit) : M unit :=
  match l with
  | [] => mret tt
  | x :: l' => _ ← body x; for_of l' body
  end.

(** A statement that only reads the database. *)
Definition query {A : Type} (q : Sql.database -> outcome A) : M A :=
  Run (fun st => (q (db st), st)).

(** A statement that writes: the database is replaced when it succeeds. *)
Definition execute {A : Type} (q : Sql.database -> outcome (A * Sql.database)) : M A :=
  Run (fun st =>
    match q (db st) with
    | Return (a, db') => (Return a, {| db := db'; metadataCache := metadataCache st |})
    | Throw e => (Throw e, st)
    end).

(* ===================================================================== *)
(** * src/utility/introspection.ts *)
(* ===================================================================== *)

Module Introspection.

Definition clearMetadataCache : M unit :=
  Run (fun st => (Return tt, {| db := db st; metadataCache := ∅ |})).

Definition mapTypeToWidget (dataType : string) : string :=
  let type := toLowerCase dataType in
  if includes type "tinyint" || includes type "boolean" then "switch"
  else if includes type "int" || includes type "decimal"
          || includes type "float" || includes type "double" then "number"
  else if includes type "text" || includes type "json" then "textarea"
  else if includes type "date" || includes type "timestamp"
          || includes type "time" then "date"
  else "text".

(** [word.charAt(0).toUpperCase() + word.slice(1)]. *)
Definition capitalize (word : string) : string :=
  match word with
  | EmptyString => EmptyString
  | String c rest => String (upper_char c) rest
  end.

Definition formatLabel (name : string) : string :=
  join " " (List.map capitalize (split "_" name)).

Definition checkTableExists (tableName : string) : M bool :=
  result ← query (fun d => Return (Sql.schema_tables_named d tableName));
  mret (0 <? length result)%nat.

(** The primary key: the name of the first column whose key is ['PRI'],
    with ['id'] as the fallback. *)
Definition detectPrimaryKey (columnsRaw : list Sql.raw_column) : string :=
  match List.find (fun col => String.eqb (Sql.raw_key col) "PRI") columnsRaw with
  | Some pkColumn => Sql.raw_name pkColumn
  | None => "id"
  end.

Definition mapColumn (col : Sql.raw_column) : column :=
  {| col_name := Sql.raw_name col;
     col_type := Sql.raw_type col;
     col_nullable := String.eqb (Sql.raw_isNullable col) "YES";
     col_maxLength := Sql.raw_maxLength col;
     col_isPrimaryKey := String.eqb (Sql.raw_key col) "PRI";
     col_isAutoIncrement := includes (Sql.raw_extra col) "auto_increment";
     col_ui := {| ui_widget := mapTypeToWidget (Sql.raw_type col);
                  ui_label := formatLabel (Sql.raw_name col) |} |}.

Definition buildMetadata (tableName : string) (columnsRaw : list Sql.raw_column)
  : metadata :=
  {| md_table := tableName;
     md_label := formatLabel tableName;
     md_primaryKey := detectPrimaryKey columnsRaw;
     md_columns := List.map mapColumn columnsRaw;
     md_relations := [] |}.

Definition cached (tableName : string) : M (option metadata) :=
  Run (fun st => (Return (metadataCache st !! tableName), st)).

Definition store (tableName : string) (md : metadata) : M unit :=
  Run (fun st => (Return tt,
                  {| db := db st;
                     metadataCache := <[tableName := md]> (metadataCache st) |})).

Definition getTableMetadata (tableName : string) : M metadata :=
  hit ← cached tableName;
  match hit with
  | Some md => mret md
  | None =>
      exists_ ← checkTableExists tableName;
      if negb exists_
      then throw_new ("Table '" +:+ tableName +:+ "' does not exist")
      else
        columnsRaw ← query (fun d => Return (Sql.schema_columns d tableName));
        let md := buildMetadata tableName columnsRaw in
        _ ← store tableName md;
        mret md
  end.

Definition getAllTables : M (list string) :=
  query (fun d => Return (Sql.schema_tables d)).

End Introspection.

(* ===================================================================== *)
(** * src/services/genericService.ts *)
(* ===================================================================== *)

Module GenericService.

Import Introspection.

(** The object returned by [list]. *)
Record list_result : Type := { data : list value; total : Z }.

Definition type_error {A : Type} (msg : string) : outcome A := throw_msg msg.

(** [`search_${idx}`] *)
Definition paramName (idx : nat) : string := "search_" +:+ decimal (Z.of_nat idx).

(** [columns.map((col, idx) => `${col} LIKE :${paramName}`)], from index
    [idx] on. *)
Fixpoint searchClauses (columns : list value) (idx : nat) : list Sql.atom :=
  match columns with
  | [] => []
  | col :: rest => Sql.Like (ToString col) (paramName idx) :: searchClauses rest (S idx)
  end.

(** The assignments [replacements[paramName] = `%${query}%`] made by the
    same callback. *)
Fixpoint searchReplacements (columns : list value) (idx : nat) (pattern : value)
    (replacements : gmap string value) : gmap string value :=
  match columns with
  | [] => replacements
  | _ :: rest =>
      searchReplacements rest (S idx) pattern (<[paramName idx := pattern]> replacements)
  end.

(** [columns.length > 0], for the values [columns] can be: an array or a
    string has a length. Whether an object that is no array has a
    positive [length] depends on its members and is outside the model,
    which takes it to have none; the theorems on the search filter speak
    of the other values. *)
Definition has_positive_length (columns : value) : bool :=
  match columns with
  | JArr l => (0 <? length l)%nat
  | JStr s => (0 <? String.length s)%nat
  | _ => false
  end.

(** The body of [Object.keys(filters).forEach((key) => ...)] for one key:
    what it appends to [whereClauses] and assigns in [replacements]. *)
Definition whereStep (filters : object)
    (acc : list Sql.cond * gmap string value) (key : string)
  : outcome (list Sql.cond * gmap string value) :=
  let '(whereClauses, replacements) := acc in
  let v := obj_get filters key in
  if negb (is_undefined v) && negb (is_empty_string v) then
    if String.eqb key "_search" && typeof_object v then
      match v with
      | JNull => type_error "Cannot destructure property 'columns' of 'filters[key]' as it is null."
      | JObj o =>
          let columns := obj_get o "columns" in
          let query := obj_get o "query" in
          if truthy columns && has_positive_length columns && truthy query then
            match columns with
            | JArr l =>
                Return (whereClauses ++ [Sql.AnyOf (searchClauses l 0)],
                        searchReplacements l 0
                          (JStr ("%" +:+ ToString query +:+ "%")) replacements)
            | _ => type_error "columns.map is not a function"
            end
          else Return acc
      | _ => Return acc
      end
    else
      Return (whereClauses ++ [Sql.Atom (Sql.Eq key ("filter_" +:+ key))],
              <["filter_" +:+ key := v]> replacements)
  else Return acc.

Fixpoint whereLoop (filters : object) (ks : list string)
    (acc : list Sql.cond * gmap string value)
  : outcome (list Sql.cond * gmap string value) :=
  match ks with
  | [] => Return acc
  | key :: ks' => acc' ← whereStep filters acc key; whereLoop filters ks' acc'
  end.

(** [whereClauses] and [replacements] after the loop over the filters. *)
Definition buildWhere (filters : object) (limit offset : number)
  : outcome (list Sql.cond * gmap string value) :=
  whereLoop filters (keys filters)
    ([], <["limit" := JNum limit]> (<["offset" := JNum offset]> ∅)).

(** [whereClauses.length > 0 ? `WHERE ${whereClauses.join(' AND ')}` : ''] *)
Definition whereSQL (whereClauses : list Sql.cond) : string :=
  match whereClauses with
  | [] => ""
  | _ => "WHERE " +:+ join " AND " (List.map Sql.render_cond whereClauses)
  end.

(** The ORDER BY clause: present when [sortBy && sortOrder] holds; the
    direction is DESC only for a [sortOrder] that upper-cases to DESC.
    Only a string has [toUpperCase]. *)
Definition orderBy (sortBy sortOrder : value) : outcome (option (string * string)) :=
  if truthy sortBy && truthy sortOrder then
    match sortOrder with
    | JStr s =>
        Return (Some (ToString sortBy,
                      if String.eqb (toUpperCase s) "DESC" then "DESC" else "ASC"))
    | _ => type_error "sortOrder.toUpperCase is not a function"
    end
  else Return None.

Definition orderBySQL (ord : option (string * string)) : string :=
  match ord with
  | Some (by_, order_) => "ORDER BY " +:+ by_ +:+ " " +:+ order_
  | None => ""
  end.

(** The text of the two statements of [list]. *)
Definition listSQL (table : string) (whereClauses : list Sql.cond)
    (ord : option (string * string)) : string :=
  "SELECT * FROM " +:+ table +:+ " " +:+ whereSQL whereClauses +:+ " "
  +:+ orderBySQL ord +:+ " LIMIT :limit OFFSET :offset".

Definition countSQL (table : string) (whereClauses : list Sql.cond) : string :=
  "SELECT COUNT(*) as total FROM " +:+ table +:+ " " +:+ whereSQL whereClauses.

Definition lift {A : Type} (o : outcome A) : M A := Run (fun st => (o, st)).

Definition requireTable (table : string) : M unit :=
  exists_ ← checkTableExists table;
  if negb exists_ then throw_new "Invalid table" else mret tt.

(** [(page - 1) * limit] *)
Definition pageOffset (page limit : number) : number :=
  num_mul (num_sub page (Fin 1)) limit.

Definition list_ (table : string) (page limit : number) (filters : object)
    (sortBy sortOrder : value) : M list_result :=
  _ ← requireTable table;
  let offset := pageOffset page limit in
  '(whereClauses, replacements) ← lift (buildWhere filters limit offset);
  ord ← lift (orderBy sortBy sortOrder);
  rows ← query (fun d => Sql.select_rows d table whereClauses ord true replacements);
  count ← query (fun d => Sql.count_rows d table whereClauses replacements);
  mret {| data := List.map Sql.js_of_row rows; total := count |}.

Definition get (table : string) (id : value) : M value :=
  _ ← requireTable table;
  metadata ← getTableMetadata table;
  let pk := md_primaryKey metadata in
  result ← query (fun d => Sql.select_rows d table [Sql.Atom (Sql.Eq pk "id")]
                             None false {["id" := id]});
  mret (match result with
        | r :: _ => Sql.js_of_row r
        | [] => JUndefined
        end).

(** The body of the validation loop of [create] for one column. *)
Definition validateColumn (data : object) (col : column) : M unit :=
  let v := obj_get data (col_name col) in
  _ ← (if negb (col_nullable col) && negb (col_isAutoIncrement col) && is_undefined v
       then throw_new ("Column '" +:+ col_name col +:+ "' is required")
       else mret tt);
  match col_maxLength col with
  | Some maxLength =>
      if negb (maxLength =? 0) && truthy v
         && (maxLength <? Z.of_nat (utf16_length (ToString v)))
      then throw_new ("Column '" +:+ col_name col +:+ "' exceeds max length of "
                      +:+ decimal maxLength)
      else mret tt
  | None => mret tt
  end.

(** [`Record with ${column}: '${data[column]}' already exists`] *)
Definition alreadyExists (column : string) (v : value) : string :=
  "Record with " +:+ column +:+ ": '" +:+ ToString v +:+ "' already exists".

(** The body of the loop over [uniqueColumns]: [others] is empty in
    [create]; in [update] it holds the conjunct [pk != :id] and its
    replacement. *)
Definition checkUnique (table : string) (data : object)
    (others : list Sql.cond) (replacements : gmap string value)
    (column : string) : M unit :=
  let v := obj_get data column in
  if negb (is_undefined v) && negb (is_null v) then
    count ← query (fun d => Sql.count_rows d table
                              (Sql.Atom (Sql.Eq column "value") :: others)
                              (<["value" := v]> replacements));
    if 0 <? count then throw_new (alreadyExists column v) else mret tt
  else mret tt.

(** The [try { ... } catch (error) { ... }] block shared by [create] and
    [update]: the configuration is looked up, each configured column
    present in [data] is counted, and any error whose message does not
    contain 'already exists' is dropped. *)
Definition uniqueConstraints (table : string) (data : object)
    (others : list Sql.cond) (replacements : gmap string value) : M unit :=
  try_catch
    (rows ← query (fun d => Sql.config_select_active d table);
     match rows with
     | config :: _ =>
         match Sql.cfg_unique_constraints config with
         | Some uniqueColumns =>
             for_of uniqueColumns (checkUnique table data others replacements)
         | None => mret tt
         end
     | [] => mret tt
     end)
    (fun error =>
       if includes (message error) "already exists" then throw error else mret tt).

Definition create (table : string) (data : object) : M value :=
  _ ← requireTable table;
  metadata ← getTableMetadata table;
  _ ← for_of (md_columns metadata) (validateColumn data);
  _ ← uniqueConstraints table data [] ∅;
  result ← execute (fun d => Sql.insert_row d table (keys data) (values data));
  mret (JNum (Fin result)).

Definition update (table : string) (id : value) (data : object) : M value :=
  _ ← requireTable table;
  metadata ← getTableMetadata table;
  let pk := md_primaryKey metadata in
  _ ← uniqueConstraints table data [Sql.Atom (Sql.NotEq pk "id")] {["id" := id]};
  _ ← execute (fun d => d' ← Sql.update_rows d table (keys data) (values data) pk id;
                        Return (tt, d'));
  get table id.

Definition delete_ (table : string) (id : value) : M unit :=
  _ ← requireTable table;
  metadata ← getTableMetadata table;
  let pk := md_primaryKey metadata in
  execute (fun d => d' ← Sql.delete_rows d table [Sql.Atom (Sql.Eq pk "id")]
                           {["id" := id]};
                    Return (tt, d')).

End GenericService.

(* ===================================================================== *)
(** * The HTTP surface *)
(* ===================================================================== *)

(** What a handler sends: [res.status(status).json(body)], the status
    being 200 when the handler does not set it. *)
Record response : Type := { status : Z; body : value }.

Definition json (b : object) : response := {| status := 200; body := JObj b |}.
Definition status_json (code : Z) (b : object) : response :=
  {| status := code; body := JObj b |}.

(** [{ success: false, message: error.message }] *)
Definition failure (code : Z) (error : Error) : response :=
  status_json code [("success", JBool false); ("message", JStr (message error))].

(** [try { handler } catch (error) { res.status(code).json(...) }] *)
Definition handle (code : Z) (handler : M response) : M response :=
  try_catch handler (fun error => mret (failure code error)).

Definition names_value (l : list string) : value := JArr (JStr <$> l).

Definition optional_names (o : option (list string)) : value :=
  match o with
  | Some l => names_value l
  | None => JNull
  end.

Definition optional_number (o : option Z) : value :=
  match o with
  | Some n => JNum (Fin n)
  | None => JNull
  end.

(* ===================================================================== *)
(** * src/controllers/genericController.ts *)
(* ===================================================================== *)

Module GenericController.

Record request : Type := {
  params_table : string;
  params_id : string;
  query_ : object;
  body_ : object
}.

Definition column_value (c : column) : value :=
  JObj [("name", JStr (col_name c));
        ("type", JStr (col_type c));
        ("nullable", JBool (col_nullable c));
        ("maxLength", optional_number (col_maxLength c));
        ("isPrimaryKey", JBool (col_isPrimaryKey c));
        ("isAutoIncrement", JBool (col_isAutoIncrement c));
        ("ui", JObj [("widget", JStr (ui_widget (col_ui c)));
                     ("label", JStr (ui_label (col_ui c)))])].

Definition metadata_object (md : metadata) : object :=
  [("table", JStr (md_table md));
   ("label", JStr (md_label md));
   ("primaryKey", JStr (md_primaryKey md));
   ("columns", JArr (column_value <$> md_columns md));
   ("relations", names_value (md_relations md))].

Definition getTables (req : request) : M response :=
  handle 500
    (tables ← Introspection.getAllTables;
     mret (json [("success", JBool true); ("data", names_value tables)])).

Definition getTableMetadata (req : request) : M response :=
  handle 400
    (metadata ← Introspection.getTableMetadata (params_table req);
     mret (json (("success", JBool true) :: metadata_object metadata))).

Definition refreshMetadata (req : request) : M response :=
  handle 500
    (_ ← Introspection.clearMetadataCache;
     mret (json [("success", JBool true);
                 ("message", JStr "Metadata cache cleared")])).

(** ** [list]: pagination *)

(** The [page] and [limit] handed to the service, from the three
    supported formats of the query string. *)
Definition pagination (q : object) : number * number :=
  if truthy (obj_get q "current") && truthy (obj_get q "pageSize") then
    (num_or (parseInt (obj_get q "current")) (Fin 1),
     num_or (parseInt (obj_get q "pageSize")) (Fin 30))
  else if negb (is_undefined (obj_get q "_start"))
          && negb (is_undefined (obj_get q "_end")) then
    let start := num_or (parseInt (obj_get q "_start")) (Fin 0) in
    let end_ := num_or (parseInt (obj_get q "_end")) (Fin 30) in
    let limit := num_sub end_ start in
    let page := num_add (floor_div start limit) (Fin 1) in
    (page, limit)
  else
    (num_or (parseInt (obj_get q "page")) (Fin 1),
     num_or (parseInt (obj_get q "per_page")) (Fin 30)).

(** ** [list]: filters *)

Fixpoint strip_prefix (p s : string) : option string :=
  match p, s with
  | EmptyString, _ => Some s
  | String a p', String b s' => if Ascii.eqb a b then strip_prefix p' s' else None
  | String _ _, EmptyString => None
  end.

(** The longest prefix of characters satisfying [f], and the rest. *)
Fixpoint span (f : ascii -> bool) (s : string) : string * string :=
  match s with
  | EmptyString => (EmptyString, EmptyString)
  | String c s' =>
      if f c then let '(a, b) := span f s' in (String c a, b)
      else (EmptyString, s)
  end.

(** [\w] *)
Definition is_word (c : ascii) : bool :=
  is_lower c || is_upper c || is_digit c || Ascii.eqb c "_".

(** [key.match(/^filters\[(\d+)\]\[(\w+)\]$/)]: the two groups. *)
Definition arrayMatch (key : string) : option (string * string) :=
  rest ← strip_prefix "filters[" key;
  let '(index, rest1) := span is_digit rest in
  if String.eqb index "" then None else
  rest2 ← strip_prefix "][" rest1;
  let '(prop, rest3) := span is_word rest2 in
  if String.eqb prop "" then None else
  if String.eqb rest3 "]" then Some (index, prop) else None.

Definition is_line_terminator (c : ascii) : bool :=
  (code c =? 10)%nat || (code c =? 13)%nat.

(** A line terminator of JavaScript starts the string: LF, CR, or one of
    the separators U+2028 and U+2029, which are the bytes E2 80 A8 and
    E2 80 A9 in UTF-8. *)
Definition starts_line_terminator (s : string) : bool :=
  match s with
  | EmptyString => false
  | String c rest =>
      is_line_terminator c
      || ((code c =? 226)%nat
          && match rest with
             | String d (String e _) =>
                 (code d =? 128)%nat && ((code e =? 168)%nat || (code e =? 169)%nat)
             | _ => false
             end)
  end.

(** [s] without its last character, when that character is a closing
    bracket and no line terminator comes before it. *)
Fixpoint bracketed (s : string) : option string :=
  match s with
  | EmptyString => None
  | String c EmptyString => if Ascii.eqb c "]" then Some EmptyString else None
  | String c s' =>
      if starts_line_terminator (String c s') then None
      else inner ← bracketed s'; Some (String c inner)
  end.

(** [key.match] on the pattern [^filter\[ANY\]$], ANY being any run of
    characters other than line terminators: the group. *)
Definition legacyMatch (key : string) : option string :=
  rest ← strip_prefix "filter[" key;
  bracketed rest.

(** The state of the two variables the parsing loops assign. *)
Record parsed : Type := { filters : object; searchQuery : value }.

(** The callback of the first loop (the [filters[i][field]] format). *)
Definition arrayStep (q : object) (acc : parsed) (key : string) : parsed :=
  match arrayMatch key with
  | Some (index, prop) =>
      if String.eqb prop "field" then
        let field := obj_get q key in
        let valueKey := "filters[" +:+ index +:+ "][value]" in
        if match field with JStr f => String.eqb f "_search" | _ => false end
           && truthy (obj_get q valueKey)
        then {| filters := filters acc; searchQuery := obj_get q valueKey |}
        else if truthy (obj_get q valueKey)
        then {| filters := obj_set (filters acc) (ToString field) (obj_get q valueKey);
                searchQuery := searchQuery acc |}
        else acc
      else acc
  | None => acc
  end.

(** The callback of the second loop (the [filter[field]=value] format). *)
Definition legacyStep (q : object) (acc : parsed) (key : string) : parsed :=
  match legacyMatch key with
  | Some field =>
      {| filters := obj_set (filters acc) field (obj_get q key);
         searchQuery := searchQuery acc |}
  | None => acc
  end.

(** The own enumerable properties [Object.assign] copies from [v]. *)
Definition entries (v : value) : object :=
  match v with
  | JObj o => o
  | JArr l => imap (fun i x => (decimal (Z.of_nat i), x)) l
  | _ => []
  end.

(** [filters] and [searchQuery] before the configuration is consulted. *)
Definition parseFilters (q : object) : parsed :=
  let p1 := fold_left (arrayStep q) (keys q) {| filters := []; searchQuery := JNull |} in
  let p2 := fold_left (legacyStep q) (keys q) p1 in
  let p3 :=
    if truthy (obj_get q "filter") && typeof_object (obj_get q "filter")
    then {| filters := assign (filters p2) (entries (obj_get q "filter"));
            searchQuery := searchQuery p2 |}
    else p2 in
  if truthy (obj_get q "_search") && typeof_string (obj_get q "_search")
  then {| filters := filters p3; searchQuery := obj_get q "_search" |}
  else p3.

(** [if (searchQuery) { try { ... } catch (error) { } }]: the searchable
    columns of the table's configuration that is not deleted become the
    [_search] filter. *)
Definition loadSearch (table : string) (p : parsed) : M object :=
  if truthy (searchQuery p) then
    try_catch
      (rows ← query (fun d => Sql.config_select_active d table);
       match rows with
       | config :: _ =>
           match Sql.cfg_searchable_columns config with
           | Some searchableColumns =>
               if (0 <? length searchableColumns)%nat then
                 mret (obj_set (filters p) "_search"
                         (JObj [("columns", names_value searchableColumns);
                                ("query", searchQuery p)]))
               else mret (filters p)
           | None => mret (filters p)
           end
       | [] => mret (filters p)
       end)
      (fun _ => mret (filters p))
  else mret (filters p).

Definition list_ (req : request) : M response :=
  handle 400
    (let table := params_table req in
     let '(page, limit) := pagination (query_ req) in
     filters ← loadSearch table (parseFilters (query_ req));
     let sortBy := obj_get (query_ req) "sortBy" in
     let sortOrder := obj_get (query_ req) "sortOrder" in
     result ← GenericService.list_ table page limit filters sortBy sortOrder;
     mret (json [("success", JBool true);
                 ("data", JArr (GenericService.data result));
                 ("total", JNum (Fin (GenericService.total result)))])).

Definition get (req : request) : M response :=
  handle 400
    (result ← GenericService.get (params_table req) (JStr (params_id req));
     if negb (truthy result)
     then mret (status_json 404 [("success", JBool false); ("message", JStr "Not found")])
     else mret (json [("success", JBool true); ("data", result)])).

Definition create (req : request) : M response :=
  handle 400
    (result ← GenericService.create (params_table req) (body_ req);
     mret (status_json 201 [("success", JBool true); ("data", result)])).

Definition update (req : request) : M response :=
  handle 400
    (result ← GenericService.update (params_table req) (JStr (params_id req)) (body_ req);
     mret (json [("success", JBool true); ("data", result)])).

Definition delete_ (req : request) : M response :=
  handle 400
    (_ ← GenericService.delete_ (params_table req) (JStr (params_id req));
     mret (json [("success", JBool true); ("message", JStr "Deleted successfully")])).

End GenericController.

(* ===================================================================== *)
(** * src/controllers/tableConfigController.ts *)
(* ===================================================================== *)

Module TableConfigController.

(** One of the five array-valued fields of a body: left out, or supplied
    as [null] or as an array of column names. *)
Inductive field : Type :=
| Omitted
| Supplied (names : option (list string)).

(** The body of [saveConfig]: [table_name] is a string when present. *)
Record save_body : Type := {
  table_name : option string;
  column_order : field;
  unique_constraints : field;
  sortable_columns : field;
  searchable_columns : field;
  filterable_columns : field
}.

(** The replacement [JSON.stringify(field)] for the parameter [name], as
    the JSON column stores it. For a field left out it is [undefined],
    and a named replacement must be defined: the statement is then
    rejected before it is sent. *)
Definition replacement (name : string) (f : field) : outcome (option (list string)) :=
  match f with
  | Omitted => Throw (Sql.missing_parameter name)
  | Supplied names => Return names
  end.

(** The five replacements, in the order in which the statements name
    them. *)
Definition replacements (b : save_body) : outcome Sql.config_fields :=
  a ← replacement "column_order" (column_order b);
  u ← replacement "unique_constraints" (unique_constraints b);
  s ← replacement "sortable_columns" (sortable_columns b);
  q ← replacement "searchable_columns" (searchable_columns b);
  f ← replacement "filterable_columns" (filterable_columns b);
  Return {| Sql.f_column_order := a;
            Sql.f_unique_constraints := u;
            Sql.f_sortable_columns := s;
            Sql.f_searchable_columns := q;
            Sql.f_filterable_columns := f |}.

(** The [result] object of [getConfig]. *)
Definition config_value (c : Sql.config_row) : value :=
  JObj [("id", JNum (Fin (Sql.cfg_id c)));
        ("table_name", JStr (Sql.cfg_table_name c));
        ("column_order", optional_names (Sql.cfg_column_order c));
        ("unique_constraints", optional_names (Sql.cfg_unique_constraints c));
        ("sortable_columns", optional_names (Sql.cfg_sortable_columns c));
        ("searchable_columns", optional_names (Sql.cfg_searchable_columns c));
        ("filterable_columns", optional_names (Sql.cfg_filterable_columns c));
        ("updated_at", JNum (Fin (Sql.cfg_updated_at c)));
        ("deleted_at", optional_number (Sql.cfg_deleted_at c))].

Definition listConfiguredTables : M response :=
  handle 500
    (tableNames ← query Sql.config_select_names;
     mret (json [("success", JBool true); ("data", names_value tableNames)])).

Definition getConfig (table : string) : M response :=
  handle 500
    (rows ← query (fun d => Sql.config_select_active d table);
     match rows with
     | [] => mret (json [("success", JBool true); ("data", JNull)])
     | config :: _ =>
         mret (json [("success", JBool true); ("data", config_value config)])
     end).

Definition saveConfig (b : save_body) : M response :=
  handle 500
    (match table_name b with
     | None | Some EmptyString =>
         mret (status_json 400 [("success", JBool false);
                                ("message", JStr "table_name is required")])
     | Some name =>
         existing ← query (fun d => Sql.config_select_named d name);
         _ ← match existing with
             | _ :: _ =>
                 execute (fun d => fields ← replacements b;
                                   d' ← Sql.config_update d name fields;
                                   Return (tt, d'))
             | [] =>
                 execute (fun d => fields ← replacements b;
                                   d' ← Sql.config_insert d name fields;
                                   Return (tt, d'))
             end;
         mret (json [("success", JBool true);
                     ("message", JStr "Configuration saved successfully")])
     end).

Definition deleteConfig (table : string) : M response :=
  handle 500
    (_ ← execute (fun d => d' ← Sql.config_soft_delete d table; Return (tt, d'));
     mret (json [("success", JBool true);
                 ("message", JStr "Configuration deleted successfully")])).

End TableConfigController.

(* ===================================================================== *)
(** * A concrete database: the [countries] table of the seed script *)
(* ===================================================================== *)

Module Scenario.

Import Sql.

Definition countries_columns : list raw_column :=
  [ {| raw_name := "id"; raw_type := "int"; raw_isNullable := "NO";
       raw_key := "PRI"; raw_extra := "auto_increment"; raw_maxLength := None |};
    {| raw_name := "name"; raw_type := "varchar"; raw_isNullable := "NO";
       raw_key := ""; raw_extra := ""; raw_maxLength := Some 100 |};
    {| raw_name := "code"; raw_type := "varchar"; raw_isNullable := "NO";
       raw_key := ""; raw_extra := ""; raw_maxLength := Some 3 |};
    {| raw_name := "created_at"; raw_type := "timestamp"; raw_isNullable := "YES";
       raw_key := ""; raw_extra := "DEFAULT_GENERATED"; raw_maxLength := None |} ].

Definition country (id : Z) (name code : string) : row :=
  [("id", SInt id); ("name", SText name); ("code", SText code);
   ("created_at", SNull)].

Definition countries : table :=
  {| t_columns := countries_columns;
     t_rows := [country 1 "United States" "USA"; country 2 "India" "IND";
                country 3 "Germany" "DEU"];
     t_auto_increment := 4;
     t_compare := binary |}.

(** The same table with a second row holding the code USA, as it can be
    when rows were stored before the configuration declared [code]
    unique. *)
Definition countries_twice : table :=
  {| t_columns := countries_columns;
     t_rows := [country 1 "United States" "USA"; country 2 "India" "IND";
                country 3 "USA (duplicate)" "USA"];
     t_auto_increment := 4;
     t_compare := binary |}.

Definition countries_config : config_row :=
  {| cfg_id := 1;
     cfg_table_name := "countries";
     cfg_column_order := Some ["name"; "code"];
     cfg_unique_constraints := Some ["code"];
     cfg_sortable_columns := Some ["name"];
     cfg_searchable_columns := Some ["name"; "code"];
     cfg_filterable_columns := None;
     cfg_updated_at := 0;
     cfg_deleted_at := None |}.

Definition database_of (t : table) (configs : option (list config_row)) : database :=
  {| tables := {["countries" := t]}; configurations := configs; now := 1000 |}.

(** A fresh process on the seeded database, with [code] configured unique. *)
Definition fresh : state :=
  {| db := database_of countries (Some [countries_config]); metadataCache := ∅ |}.

Definition fresh_twice : state :=
  {| db := database_of countries_twice (Some [countries_config]); metadataCache := ∅ |}.

(** The seeded database with no configuration row at all. *)
Definition plain : state :=
  {| db := database_of countries (Some []); metadataCache := ∅ |}.

(** The same database when [table_configurations] cannot be queried. *)
Definition unconfigured : state :=
  {| db := database_of countries None; metadataCache := ∅ |}.

(** A process that described [countries] before the table was dropped. *)
Definition stale : state :=
  {| db := {| tables := ∅; configurations := Some []; now := 1000 |};
     metadataCache := {["countries" := Introspection.buildMetadata "countries" countries_columns]} |}.

(** A search over [name], next to a [code] filter left empty. *)
Definition search_nd : value :=
  JObj [("columns", JArr [JStr "name"]); ("query", JStr "nd")].

Definition empty_code_and_search : object :=
  [("code", JStr ""); ("_search", search_nd)].

Definition code_and_search : object :=
  [("code", JStr "IND"); ("_search", search_nd)].

(** A request creating a country with a field that is not a column. *)
Definition bogus_request : GenericController.request :=
  {| GenericController.params_table := "countries";
     GenericController.params_id := "";
     GenericController.query_ := [];
     GenericController.body_ :=
       [("name", JStr "Atlantis"); ("code", JStr "ATL"); ("bogus", JNum (Fin 1))] |}.

(** A configuration saved for [countries]. *)
Definition save_countries : TableConfigController.save_body :=
  {| TableConfigController.table_name := Some "countries";
     TableConfigController.column_order := TableConfigController.Supplied (Some ["code"; "name"]);
     TableConfigController.unique_constraints := TableConfigController.Supplied (Some ["code"]);
     TableConfigController.sortable_columns := TableConfigController.Supplied None;
     TableConfigController.searchable_columns := TableConfigController.Supplied (Some ["name"]);
     TableConfigController.filterable_columns := TableConfigController.Supplied None |}.

(** The same body with [searchable_columns] left out. *)
Definition save_countries_partly : TableConfigController.save_body :=
  {| TableConfigController.table_name := Some "countries";
     TableConfigController.column_order := TableConfigController.Supplied (Some ["code"; "name"]);
     TableConfigController.unique_constraints := TableConfigController.Supplied (Some ["code"]);
     TableConfigController.sortable_columns := TableConfigController.Supplied None;
     TableConfigController.searchable_columns := TableConfigController.Omitted;
     TableConfigController.filterable_columns := TableConfigController.Supplied None |}.

End Scenario.

(* ===================================================================== *)
(** * Vocabulary of the specification *)
(* ===================================================================== *)

Import Sql Introspection.

(** The cache agrees with the catalog: every cached entry is the metadata
    of a table of the database, as [getTableMetadata] builds it. This
    holds of a fresh process and is preserved by every operation of the
    program, none of which alters a table's columns. *)
Definition cache_coherent (st : state) : Prop :=
  forall name md,
    metadataCache st !! name = Some md ->
    exists t, tables (db st) !! name = Some t
              /\ md = buildMetadata name (t_columns t).

(** The metadata of [name] is read from the catalog: the cache agrees with
    the catalog, or holds nothing for [name]. *)
Definition reads_catalog (st : state) (name : string) : Prop :=
  cache_coherent st \/ metadataCache st !! name = None.

(** The names of the members every object inherits from
    [Object.prototype]. [metadataCache] is an object created by a
    literal: read under one of these names it yields the inherited
    member, which is truthy, whether or not a table of that name was
    described. The cache of the model holds the entries stored by the
    program and nothing else, so what is proved of a read of the cache is
    proved for the other names. *)
Definition prototype_members : list string :=
  ["constructor"; "__defineGetter__"; "__defineSetter__"; "hasOwnProperty";
   "__lookupGetter__"; "__lookupSetter__"; "isPrototypeOf"; "propertyIsEnumerable";
   "toString"; "valueOf"; "__proto__"; "toLocaleString"].

Definition inherited (name : string) : bool :=
  existsb (String.eqb name) prototype_members.

(** The catalog flags column [c] as (part of) the primary key. *)
Definition flagged_primary (c : raw_column) : Prop := raw_key c = "PRI".

(** ** Pagination *)

(** The three formats of the pagination parameters, in the order of
    precedence of the controller. *)
Inductive dialect : Type :=
| Refine      (* current + pageSize *)
| StartEnd    (* _start + _end *)
| Legacy.     (* page + per_page *)

Definition dialect_of (q : object) : dialect :=
  if truthy (obj_get q "current") && truthy (obj_get q "pageSize") then Refine
  else if negb (is_undefined (obj_get q "_start"))
          && negb (is_undefined (obj_get q "_end")) then StartEnd
  else Legacy.

(** The query values the page and the limit are read from. *)
Definition page_param (q : object) : value :=
  match dialect_of q with
  | Refine => obj_get q "current"
  | StartEnd => obj_get q "_start"
  | Legacy => obj_get q "page"
  end.

Definition limit_param (q : object) : value :=
  match dialect_of q with
  | Refine => obj_get q "pageSize"
  | StartEnd => obj_get q "_end"
  | Legacy => obj_get q "per_page"
  end.

(** [n] is a number and [n >= 1]. *)
Definition at_least_one (n : number) : Prop := exists z, n = Fin z /\ 1 <= z.

(** [n] is not a negative number: it is NaN (nothing numeric was read) or
    a number that is zero or more. *)
Definition not_negative (n : number) : Prop :=
  match n with
  | NaN => True
  | Fin z => 0 <= z
  | _ => False
  end.

(** [n] is NaN or zero, the two results of [parseInt] that [||] replaces. *)
Definition falls_back (n : number) : Prop := n = NaN \/ n = Fin 0.

(** ** Filters *)

(** A filter value that counts: neither [undefined] nor the empty string. *)
Definition present (v : value) : bool :=
  negb (is_undefined v) && negb (is_empty_string v).

(** The searchable columns and the query of a [_search] filter that
    searches: an object whose [columns] is a non-empty array and whose
    [query] is truthy. *)
Definition search_of (v : value) : option (list value * value) :=
  match v with
  | JObj o =>
      match obj_get o "columns" with
      | JArr (col :: cols) =>
          if truthy (obj_get o "query") then Some (col :: cols, obj_get o "query")
          else None
      | _ => None
      end
  | _ => None
  end.

(** [`%${query}%`] *)
Definition search_pattern (query : value) : string := "%" +:+ ToString query +:+ "%".

(** The conjunct one filter stands for in the WHERE clause, if any: the
    reserved key [_search] holding an object stands for a disjunction of
    LIKE comparisons over its columns; any other filter that counts stands
    for an equality bound to the replacement [filter_<key>]. *)
Definition conjunct (key : string) (v : value) : option cond :=
  if present v then
    if String.eqb key "_search" && typeof_object v then
      match search_of v with
      | Some (cols, _) => Some (AnyOf (GenericService.searchClauses cols 0))
      | None => None
      end
    else Some (Atom (Eq key ("filter_" +:+ key)))
  else None.

(** The same, read on a row: whether the row satisfies the filter. *)
Definition filter_holds (t : table) (r : row) (key : string) (v : value) : bool :=
  if present v then
    if String.eqb key "_search" && typeof_object v then
      match search_of v with
      | Some (cols, q) =>
          existsb (fun col =>
                     bool_decide (sql_like t (ToString col) (cell r (ToString col))
                                           (SText (search_pattern q)) = Some true))
                  cols
      | None => true
      end
    else
      match bind_value v with
      | Some lit => bool_decide (sql_eq t key (cell r key) lit = Some true)
      | None => false
      end
  else true.

(** A row of table [t] matches the filters when it satisfies each of
    them, as the engine compares on that table. *)
Definition row_matches (t : table) (filters : object) (r : row) : bool :=
  forallb (fun k => filter_holds t r k (obj_get filters k)) (keys filters).

(** The comparisons of a conjunct. *)
Definition atoms (c : cond) : list atom :=
  match c with
  | Atom a => [a]
  | AnyOf l => l
  end.

(** Every replacement a filter loop can have assigned holds the value the
    filters dictate for its name. *)
Definition consistent (f : object) (repl : gmap string value) : Prop :=
  forall p v,
    repl !! p = Some v ->
    (forall k, p = "filter_" +:+ k -> v = obj_get f k /\ present v = true)
    /\ (String.prefix "search_" p = true ->
        exists cols q, search_of (obj_get f "_search") = Some (cols, q)
                       /\ v = JStr (search_pattern q)).

(** The conjunct of the key [k] when every filter counts and the
    [_search] filter searches the columns [cols], and its SQL text. *)
Definition clause_of (cols : list value) (k : string) : cond :=
  if String.eqb k "_search" then AnyOf (GenericService.searchClauses cols 0)
  else Atom (Eq k ("filter_" +:+ k)).

Definition clause_text (cols : list value) (k : string) : string :=
  if String.eqb k "_search" then
    "(" +:+ join " OR "
              (imap (fun i col => ToString col +:+ " LIKE :search_"
                                  +:+ decimal (Z.of_nat i)) cols)
    +:+ ")"
  else k +:+ " = :filter_" +:+ k.

(** ** Names pasted into the statements *)

(** The program pastes the table name, the keys of the filters, the
    columns of the search filter and the sort parameter into the text of
    its statements as they come. [plain_names] holds of a call whose table
    name and filter names are identifiers, each read by the engine as one
    name: the table, the key of every filter that counts, and the columns
    of the [_search] filter, which is either no object or one whose
    [columns] is not an object other than an array. *)
Definition plain_names (table : string) (filters : object) : Prop :=
  is_identifier table = true
  /\ (forall k, In k (keys filters) ->
                present (obj_get filters k) = true -> is_identifier k = true)
  /\ (forall o, obj_get filters "_search" = JObj o ->
                match obj_get o "columns" with
                | JArr cols =>
                    forall col, In col cols -> is_identifier (ToString col) = true
                | JObj _ => False
                | _ => True
                end).

(** The sort parameter, when there is an ORDER BY clause, is an
    identifier. *)
Definition plain_sort (sortBy sortOrder : value) : Prop :=
  truthy sortBy && truthy sortOrder = true -> is_identifier (ToString sortBy) = true.

(** ** Validation and uniqueness *)

(** A column that must be supplied and is not: it is not nullable, not
    auto-increment, and [data] has no value for it. *)
Definition missing_required (data : object) (col : column) : Prop :=
  col_nullable col = false
  /\ col_isAutoIncrement col = false
  /\ obj_get data (col_name col) = JUndefined.

(** A column whose value is too long: its maximum length and the value
    supplied are both truthy, and [String(value)] has more UTF-16 code
    units than the maximum. *)
Definition too_long (data : object) (col : column) : Prop :=
  exists maxLength,
    col_maxLength col = Some maxLength
    /\ maxLength <> 0
    /\ truthy (obj_get data (col_name col)) = true
    /\ maxLength < Z.of_nat (utf16_length (ToString (obj_get data (col_name col)))).

(** The two validation errors of [create]. *)
Definition required_error (col : column) : Error :=
  {| message := "Column '" +:+ col_name col +:+ "' is required" |}.

Definition too_long_error (col : column) (maxLength : Z) : Error :=
  {| message := "Column '" +:+ col_name col +:+ "' exceeds max length of "
                +:+ decimal maxLength |}.

Definition validation_error (columns : list column) (e : Error) : Prop :=
  exists col, In col columns
              /\ (e = required_error col
                  \/ exists maxLength, col_maxLength col = Some maxLength
                                       /\ e = too_long_error col maxLength).

(** The conflict error, and the test the [catch] blocks use for it. *)
Definition conflict_error (column : string) (v : value) : Error :=
  {| message := GenericService.alreadyExists column v |}.

Definition is_conflict (e : Error) : bool := includes (message e) "already exists".

(** The columns configured unique for a table: those of the first
    configuration row of the table that is not deleted; none when there is
    no such row, when its [unique_constraints] is NULL, or when the
    configuration relation cannot be queried. *)
Definition unique_columns (d : database) (table : string) : list string :=
  match configurations d with
  | Some rows =>
      match List.filter (fun c => named table c && active c) rows with
      | config :: _ =>
          match cfg_unique_constraints config with
          | Some l => l
          | None => []
          end
      | [] => []
      end
  | None => []
  end.

(** [data] supplies a value for the column: neither [undefined] nor [null]. *)
Definition supplied_value (v : value) : bool := negb (is_undefined v) && negb (is_null v).

(** Row [r] of table [t] holds the value [v] in column [c]: the engine
    finds [c = v] true of it. *)
Definition holds_value (t : table) (c : string) (v : value) (r : row) : bool :=
  match bind_value v with
  | Some lit => bool_decide (sql_eq t c (cell r c) lit = Some true)
  | None => false
  end.

(** The engine finds the primary key [pk] of row [r] different from [id]:
    [pk != id] is true of it (it is unknown of a row whose key is NULL). *)
Definition differs (t : table) (pk : string) (id : value) (r : row) : bool :=
  match bind_value id with
  | Some lit => bool_decide (sql_not (sql_eq t pk (cell r pk) lit) = Some true)
  | None => false
  end.

(** The rows of the table other than the rows identified by [id]. *)
Definition other_rows (t : table) (pk : string) (id : value) : list row :=
  List.filter (differs t pk id) (t_rows t).

(** Column [c] conflicts for a record on the rows [rows]: the record
    supplies a value for it, and one of the rows holds that value. *)
Definition conflicts (t : table) (data : object) (rows : list row) (c : string) : Prop :=
  supplied_value (obj_get data c) = true
  /\ Exists (fun r => holds_value t c (obj_get data c) r = true) rows.

(** The statements of a write can be run on table [t]: every key of [data]
    is a column of the table and every value has a literal. *)
Definition writable (t : table) (data : object) : Prop :=
  (forall k, In k (keys data) -> has_column t k = true)
  /\ (forall v, In v (values data) -> is_Some (bind_value v)).

(** ** The invariant of the cache *)

(** Two databases with the same tables and the same columns. *)
Definition same_schema (d d' : database) : Prop :=
  forall name, t_columns <$> (tables d !! name) = t_columns <$> (tables d' !! name).

(** An operation that keeps the cache coherent. *)
Definition preserves_coherence {A : Type} (m : M A) : Prop :=
  forall st, cache_coherent st -> cache_coherent (snd (run m st)).

(** ** Requests the engine accepts *)

(** The conjunct of a filter can be run on table [t]: its columns are
    columns of the table and its value has a literal. *)
Definition filter_runs (t : table) (key : string) (v : value) : Prop :=
  match conjunct key v with
  | Some (Atom _) => has_column t key = true /\ is_Some (bind_value v)
  | Some (AnyOf l) => forall a, In a l -> has_column t (atom_col a) = true
  | None => True
  end.

(** The sort parameters ask for no ordering, or for an ordering by a
    column of the table, named by an identifier. *)
Definition sort_runs (t : table) (sortBy sortOrder : value) : Prop :=
  truthy sortBy && truthy sortOrder = false
  \/ (typeof_string sortOrder = true
      /\ is_identifier (ToString sortBy) = true
      /\ has_column t (ToString sortBy) = true).

(* ===================================================================== *)
(** * Vocabulary of the further properties *)
(* ===================================================================== *)

(** ** Labels and widgets *)

(** The label of a name read character by character: an underscore
    becomes a space, and a character that starts the name or follows an
    underscore is upper-cased. *)
Fixpoint label_from (start : bool) (s : string) : string :=
  match s with
  | EmptyString => EmptyString
  | String c s' =>
      if Ascii.eqb c "_" then String " " (label_from true s')
      else String (if start then upper_char c else c) (label_from false s')
  end.

(** The widgets a column can be given. *)
Definition widgets : list string := ["switch"; "number"; "textarea"; "date"; "text"].

(** ** What an operation does to the database *)

(** Every run of [m] takes the database to one related to it by [R]. *)
Definition keeps {A : Type} (R : database -> database -> Prop) (m : M A) : Prop :=
  forall st, R (db st) (db (snd (run m st))).

(** An operation that leaves the database as it is. *)
Definition read_only {A : Type} (m : M A) : Prop := keeps (fun d d' => d' = d) m.

(** ** Rows addressed by their primary key *)

(** The primary key the service uses for a table. *)
Definition primary_key (t : table) : string := detectPrimaryKey (t_columns t).

(** The state once the table [name] has been described from the catalog. *)
Definition described (st : state) (name : string) (t : table) : state :=
  {| db := db st;
     metadataCache := <[name := buildMetadata name (t_columns t)]> (metadataCache st) |}.

(** Table [t] with other rows. *)
Definition with_rows (t : table) (rows : list row) : table :=
  {| t_columns := t_columns t;
     t_rows := rows;
     t_auto_increment := t_auto_increment t;
     t_compare := t_compare t |}.

(** The literals of the values of a record. *)
Definition literals (data : object) : list sqlval := omap bind_value (values data).

(** A row after the assignments [SET key = value] of a record, made in the
    order of its keys. *)
Definition assigned (data : object) (r : row) : row :=
  fold_left (fun acc kv => set_cell acc (fst kv) (snd kv))
            (zip (keys data) (literals data)) r.

(** The answer of the handlers to an error, with the status 400. *)
Definition rejected (msg : string) : response := failure 400 {| message := msg |}.

(** The searchable columns configured for a table: those of the first
    configuration row of the table that is not deleted; none when there is
    no such row, when its [searchable_columns] is NULL, or when the
    configuration relation cannot be queried. *)
Definition searchable_columns_of (d : database) (table : string) : list string :=
  match configurations d with
  | Some rows =>
      match List.filter (fun c => named table c && active c) rows with
      | config :: _ =>
          match cfg_searchable_columns config with
          | Some l => l
          | None => []
          end
      | [] => []
      end
  | None => []
  end.

(** The filters handed to the service: the parsed filters, with the
    [_search] filter set when there is a search query and the table has
    searchable columns configured. *)
Definition search_filters (d : database) (table : string)
    (p : GenericController.parsed) : object :=
  if truthy (GenericController.searchQuery p) then
    match searchable_columns_of d table with
    | [] => GenericController.filters p
    | cols =>
        obj_set (GenericController.filters p) "_search"
          (JObj [("columns", names_value cols);
                 ("query", GenericController.searchQuery p)])
    end
  else GenericController.filters p.

(** The answer of the list handler for a result of the service. *)
Definition listed (result : GenericService.list_result) : response :=
  json [("success", JBool true);
        ("data", JArr (GenericService.data result));
        ("total", JNum (Fin (GenericService.total result)))].

(** A request, from its route parameters, query string and body. *)
Definition request_for (table id : string) (q b : object) : GenericController.request :=
  {| GenericController.params_table := table;
     GenericController.params_id := id;
     GenericController.query_ := q;
     GenericController.body_ := b |}.

(** A table without a primary key and without a column named [id]: the
    pairs of a many-to-many relation. *)
Definition enrolments_table : table :=
  {| t_columns :=
       [ {| raw_name := "student_id"; raw_type := "int"; raw_isNullable := "NO";
            raw_key := "MUL"; raw_extra := ""; raw_maxLength := None |};
         {| raw_name := "course_id"; raw_type := "int"; raw_isNullable := "NO";
            raw_key := "MUL"; raw_extra := ""; raw_maxLength := None |} ];
     t_rows := [[("student_id", SInt 1); ("course_id", SInt 7)]];
     t_auto_increment := 1;
     t_compare := binary |}.

Definition enrolments : state :=
  {| db := {| tables := {["enrolments" := enrolments_table]};
              configurations := Some [];
              now := 1000 |};
     metadataCache := ∅ |}.

(** ** Query strings *)

(** A string without line terminator. *)
Fixpoint one_line (s : string) : bool :=
  match s with
  | EmptyString => true
  | String c s' =>
      negb (GenericController.starts_line_terminator (String c s')) && one_line s'
  end.

(** The key of a filter in the format [filter[field]=value]. *)
Definition legacy_key (field : string) : string := "filter[" +:+ field +:+ "]".

(** The keys of the [index]-th filter in the format
    [filters[index][prop]=...]. *)
Definition array_key (index prop : string) : string :=
  "filters[" +:+ index +:+ "][" +:+ prop +:+ "]".

(** Two query strings that differ at most in their [_search] parameter. *)
Definition same_but_search (q q' : object) : Prop :=
  (forall k, k <> "_search" -> obj_get q k = obj_get q' k)
  /\ List.filter (fun k => negb (String.eqb k "_search")) (keys q)
     = List.filter (fun k => negb (String.eqb k "_search")) (keys q').

(** Each element of [l] is related to the next one. *)
Fixpoint ordered {A : Type} (R : A -> A -> bool) (l : list A) : bool :=
  match l with
  | a :: l' => match l' with
               | b :: _ => R a b && ordered R l'
               | [] => true
               end
  | [] => true
  end.

(** The ordering of the engine on column [c] of table [t] is total: of
    two values it puts one before the other, or either way. *)
Definition total_order (t : table) (c : string) : Prop :=
  forall a b, precedes (t_compare t) c a b = false -> precedes (t_compare t) c b a = true.

(** The comparison of two rows on column [col], in direction [dir]. *)
Definition row_leb (t : table) (col dir : string) (a b : row) : bool :=
  if String.eqb dir "DESC" then sql_leb t col (cell b col) (cell a col)
  else sql_leb t col (cell a col) (cell b col).

(** ** The configurations *)

(** The row [saveConfig] inserts for a table that has none. *)
Definition inserted_config (d : database) (rows : list config_row) (table : string)
    (f : config_fields) : config_row :=
  {| cfg_id := 1 + fold_right Z.max 0 (cfg_id <$> rows);
     cfg_table_name := table;
     cfg_column_order := f_column_order f;
     cfg_unique_constraints := f_unique_constraints f;
     cfg_sortable_columns := f_sortable_columns f;
     cfg_searchable_columns := f_searchable_columns f;
     cfg_filterable_columns := f_filterable_columns f;
     cfg_updated_at := now d;
     cfg_deleted_at := None |}.

(** The answer of [getConfig] for the rows it selects. *)
Definition config_answer (selected : list config_row) : response :=
  match selected with
  | [] => json [("success", JBool true); ("data", JNull)]
  | config :: _ =>
      json [("success", JBool true); ("data", TableConfigController.config_value config)]
  end.

(** The answers of the configuration handlers that succeed. *)
Definition saved : response :=
  json [("success", JBool true); ("message", JStr "Configuration saved successfully")].

Definition deleted : response :=
  json [("success", JBool true); ("message", JStr "Configuration deleted successfully")].

(** The configuration relation holds at most one row for each table name. *)
Definition one_row_per_table (d : database) : Prop :=
  forall rows, configurations d = Some rows -> NoDup (List.map cfg_table_name rows).

(** The five JSON columns of a configuration row. *)
Definition row_fields (c : config_row) : config_fields :=
  {| f_column_order := cfg_column_order c;
     f_unique_constraints := cfg_unique_constraints c;
     f_sortable_columns := cfg_sortable_columns c;
     f_searchable_columns := cfg_searchable_columns c;
     f_filterable_columns := cfg_filterable_columns c |}.

(** A body that supplies the five fields, with the values [f]. *)
Definition supplies (b : TableConfigController.save_body) (f : config_fields) : Prop :=
  TableConfigController.replacements b = Return f.

(* ===================================================================== *)
(** * Basic facts about the monad and the store *)
(* ===================================================================== *)

Lemma run_bind {A B : Type} (m : M A) (f : A -> M B) (st : state) :
  run (m ≫= f) st =
  match run m st with
  | (Return a, st') => run (f a) st'
  | (Throw e, st') => (Throw e, st')
  end.
Proof. reflexivity. Qed.

Lemma run_ret {A : Type} (a : A) (st : state) : run (mret a) st = (Return a, st).
Proof. reflexivity. Qed.

Lemma checkTableExists_spec (name : string) (st : state) :
  run (checkTableExists name) st =
  (Return (bool_decide (is_Some (tables (db st) !! name))), st).
Proof.
  unfold checkTableExists. rewrite run_bind. cbn.
  unfold schema_tables_named.
  destruct (tables (db st) !! name) eqn:E; reflexivity.
Qed.

Lemma getTableMetadata_hit (name : string) (st : state) (md : metadata) :
  metadataCache st !! name = Some md ->
  run (getTableMetadata name) st = (Return md, st).
Proof.
  intros H. unfold getTableMetadata. rewrite run_bind. cbn. rewrite H. reflexivity.
Qed.

Lemma getTableMetadata_miss_absent (name : string) (st : state) :
  metadataCache st !! name = None ->
  tables (db st) !! name = None ->
  run (getTableMetadata name) st =
  (Throw {| message := "Table '" +:+ name +:+ "' does not exist" |}, st).
Proof.
  intros Hc Ht. unfold getTableMetadata. rewrite run_bind. cbn -[checkTableExists].
  rewrite Hc. rewrite run_bind, checkTableExists_spec.
  rewrite bool_decide_eq_false_2; [reflexivity|].
  rewrite Ht. intros [x Hx]. discriminate.
Qed.

Lemma getTableMetadata_miss_present (name : string) (st : state) (t : table) :
  metadataCache st !! name = None ->
  tables (db st) !! name = Some t ->
  run (getTableMetadata name) st =
  (Return (buildMetadata name (t_columns t)),
   {| db := db st;
      metadataCache := <[name := buildMetadata name (t_columns t)]> (metadataCache st) |}).
Proof.
  intros Hc Ht. unfold getTableMetadata. rewrite run_bind. cbn -[checkTableExists].
  rewrite Hc. rewrite run_bind, checkTableExists_spec.
  rewrite bool_decide_eq_true_2 by (rewrite Ht; eauto).
  cbn. unfold schema_columns. rewrite Ht. reflexivity.
Qed.

(* ===================================================================== *)
(** * The schema introspector: cache and primary key *)
(* ===================================================================== *)

Lemma cache_coherent_fresh (d : database) :
  cache_coherent {| db := d; metadataCache := ∅ |}.
Proof. intros name md H. cbn in H. rewrite lookup_empty in H. discriminate. Qed.

Lemma cache_coherent_clear (st : state) :
  cache_coherent (snd (run clearMetadataCache st)).
Proof. apply cache_coherent_fresh. Qed.

(** [getTableMetadata] keeps the cache coherent. *)
Lemma cache_coherent_getTableMetadata (st : state) (name : string) :
  cache_coherent st -> cache_coherent (snd (run (getTableMetadata name) st)).
Proof.
  intros Hco.
  destruct (metadataCache st !! name) as [md|] eqn:Hc.
  - rewrite (getTableMetadata_hit _ _ _ Hc). exact Hco.
  - destruct (tables (db st) !! name) as [t|] eqn:Ht.
    + rewrite (getTableMetadata_miss_present _ _ _ Hc Ht). cbn.
      intros name' md' H. cbn in H.
      destruct (decide (name = name')) as [<-|Hne].
      * rewrite lookup_insert_eq in H. injection H as <-. eauto.
      * rewrite lookup_insert_ne in H by exact Hne. apply Hco, H.
    + rewrite (getTableMetadata_miss_absent _ _ Hc Ht). exact Hco.
Qed.

(** When the metadata is read from the catalog, a table that exists is
    described by the metadata built from its current columns. *)
Lemma getTableMetadata_coherent (st : state) (name : string) (t : table) :
  reads_catalog st name ->
  tables (db st) !! name = Some t ->
  exists st',
    run (getTableMetadata name) st = (Return (buildMetadata name (t_columns t)), st')
    /\ db st' = db st.
Proof.
  intros Hco Ht.
  destruct (metadataCache st !! name) as [md|] eqn:Hc.
  - destruct Hco as [Hco|Hmiss]; [|congruence].
    destruct (Hco _ _ Hc) as (t' & Ht' & ->).
    rewrite Ht in Ht'. injection Ht' as <-.
    exists st. split; [apply getTableMetadata_hit, Hc | reflexivity].
  - eexists. split; [apply getTableMetadata_miss_present; eassumption | reflexivity].
Qed.

Lemma detectPrimaryKey_first (before after : list raw_column) (c : raw_column) :
  flagged_primary c ->
  Forall (fun c' => ~ flagged_primary c') before ->
  detectPrimaryKey (before ++ c :: after) = raw_name c.
Proof.
  intros Hc Hb. unfold detectPrimaryKey.
  induction Hb as [|c' before Hc' _ IH]; cbn.
  - unfold flagged_primary in Hc. rewrite Hc. reflexivity.
  - destruct (String.eqb_spec (raw_key c') "PRI") as [E|_]; [contradiction|exact IH].
Qed.

Lemma detectPrimaryKey_none (columns : list raw_column) :
  Forall (fun c => ~ flagged_primary c) columns ->
  detectPrimaryKey columns = "id".
Proof.
  intros H. unfold detectPrimaryKey.
  induction H as [|c columns Hc _ IH]; cbn; [reflexivity|].
  destruct (String.eqb_spec (raw_key c) "PRI") as [E|_]; [contradiction|exact IH].
Qed.

(** C8. For every table of the catalog, whenever its metadata is read
    from the catalog (the cache agrees with the catalog, as it does in
    every state the program reaches by itself, or holds nothing for the
    table), the primary key of the returned metadata is the name of the
    first column the catalog flags as primary key, and is the literal "id"
    when no column is flagged. *)
Theorem describeTable_primary_key (st : state) (tableName : string) (t : table) :
  reads_catalog st tableName ->
  tables (db st) !! tableName = Some t ->
  exists md st',
    run (getTableMetadata tableName) st = (Return md, st')
    /\ (cache_coherent st -> cache_coherent st')
    /\ (forall before c after,
          t_columns t = before ++ c :: after ->
          flagged_primary c ->
          Forall (fun c' => ~ flagged_primary c') before ->
          md_primaryKey md = raw_name c)
    /\ (Forall (fun c => ~ flagged_primary c) (t_columns t) ->
        md_primaryKey md = "id").
Proof.
  intros Hco Ht.
  destruct (getTableMetadata_coherent st tableName t Hco Ht) as (st' & Hrun & Hdb).
  exists (buildMetadata tableName (t_columns t)), st'.
  split; [exact Hrun|]. split.
  - intros Hcoh. pose proof (cache_coherent_getTableMetadata st tableName Hcoh) as H.
    rewrite Hrun in H. exact H.
  - split.
    + intros before c after Hcols Hc Hb. cbn. rewrite Hcols.
      apply detectPrimaryKey_first; assumption.
    + intros Hnone. cbn. apply detectPrimaryKey_none, Hnone.
Qed.

(** The seeded [countries] table: its first flagged column is [id]. *)
Lemma describeTable_primary_key_witness :
  reads_catalog Scenario.fresh "countries"
  /\ tables (db Scenario.fresh) !! "countries" = Some Scenario.countries
  /\ exists md st',
       run (getTableMetadata "countries") Scenario.fresh = (Return md, st')
       /\ md_primaryKey md = "id".
Proof.
  split; [left; apply cache_coherent_fresh|].
  split; [reflexivity|].
  destruct (describeTable_primary_key Scenario.fresh "countries" Scenario.countries
              (or_introl (cache_coherent_fresh _)) eq_refl)
    as (md & st' & Hrun & _ & Hfirst & _).
  exists md, st'. split; [exact Hrun|].
  apply (Hfirst [] (List.hd (Build_raw_column "" "" "" "" "" None) Scenario.countries_columns)
                (List.tl Scenario.countries_columns)).
  - reflexivity.
  - reflexivity.
  - constructor.
Defined.

(** C3, as the code has it, for a table name that is not the name of a
    member of [Object.prototype]: a cached entry is returned without
    consulting the catalog; only on a cache miss does [getTableMetadata]
    fail for a table that does not exist, and otherwise build, cache and
    return the metadata. A stored entry is returned by every later call,
    whatever the catalog then holds, until [clearMetadataCache] empties
    the cache: the call after that reads the catalog again, and fails for
    a table that is gone. *)
Theorem describeTable_cache_first (st : state) (tableName : string) :
  inherited tableName = false ->
  (forall md,
      metadataCache st !! tableName = Some md ->
      run (getTableMetadata tableName) st = (Return md, st))
  /\ (metadataCache st !! tableName = None ->
      tables (db st) !! tableName = None ->
      run (getTableMetadata tableName) st =
      (Throw {| message := "Table '" +:+ tableName +:+ "' does not exist" |}, st))
  /\ (forall t,
        metadataCache st !! tableName = None ->
        tables (db st) !! tableName = Some t ->
        exists st',
          run (getTableMetadata tableName) st
          = (Return (buildMetadata tableName (t_columns t)), st')
          /\ db st' = db st
          /\ metadataCache st'
             = <[tableName := buildMetadata tableName (t_columns t)]> (metadataCache st)
          /\ forall d,
               run (getTableMetadata tableName)
                   {| db := d; metadataCache := metadataCache st' |}
               = (Return (buildMetadata tableName (t_columns t)),
                  {| db := d; metadataCache := metadataCache st' |}))
  /\ (tables (db st) !! tableName = None ->
      run (getTableMetadata tableName) (snd (run clearMetadataCache st))
      = (Throw {| message := "Table '" +:+ tableName +:+ "' does not exist" |},
         snd (run clearMetadataCache st)))
  /\ (forall t,
        tables (db st) !! tableName = Some t ->
        fst (run (getTableMetadata tableName) (snd (run clearMetadataCache st)))
        = Return (buildMetadata tableName (t_columns t))).
Proof.
  intros _.
  split; [intros md H; apply getTableMetadata_hit, H|].
  split; [apply getTableMetadata_miss_absent|].
  split; [|split].
  - intros t Hc Ht. eexists. split; [apply getTableMetadata_miss_present; eassumption|].
    split; [reflexivity|]. split; [reflexivity|].
    intros d. apply getTableMetadata_hit. cbn. apply lookup_insert_eq.
  - intros Ht. apply getTableMetadata_miss_absent; [apply lookup_empty|exact Ht].
  - intros t Ht.
    rewrite (getTableMetadata_miss_present _ (snd (run clearMetadataCache st)) t);
      [reflexivity|apply lookup_empty|exact Ht].
Qed.

(** A cached name is described although its table is gone; a name that is
    neither cached nor a table is rejected; and once the cache is cleared
    the table that is gone is rejected too. *)
Lemma describeTable_cache_first_witness :
  inherited "countries" = false
  /\ run (getTableMetadata "countries") Scenario.stale
     = (Return (buildMetadata "countries" Scenario.countries_columns), Scenario.stale)
  /\ run (getTableMetadata "cities") Scenario.fresh
     = (Throw {| message := "Table 'cities' does not exist" |}, Scenario.fresh)
  /\ fst (run (getTableMetadata "countries") (snd (run clearMetadataCache Scenario.stale)))
     = Throw {| message := "Table 'countries' does not exist" |}.
Proof.
  split; [reflexivity|]. split; [|split].
  - apply (proj1 (describeTable_cache_first Scenario.stale "countries" eq_refl)). reflexivity.
  - apply (proj1 (proj2 (describeTable_cache_first Scenario.fresh "cities" eq_refl)));
      reflexivity.
  - rewrite (proj1 (proj2 (proj2 (proj2
               (describeTable_cache_first Scenario.stale "countries" eq_refl))))
               eq_refl).
    reflexivity.
Defined.

(** C3 fails as stated: the table [countries] is gone from the catalog, and
    a process that cached its metadata before still describes it. *)
Lemma describeTable_stale_counterexample :
  tables (db Scenario.stale) !! "countries" = None
  /\ run (getTableMetadata "countries") Scenario.stale
     = (Return (buildMetadata "countries" Scenario.countries_columns), Scenario.stale).
Proof. split; reflexivity. Qed.

(* ===================================================================== *)
(** * The table configuration store: soft delete and upsert *)
(* ===================================================================== *)



Lemma deleteConfig_run (st : state) (rows : list config_row) (t : string) :
  configurations (db st) = Some rows ->
  run (TableConfigController.deleteConfig t) st =
  (Return (json [("success", JBool true);
                 ("message", JStr "Configuration deleted successfully")]),
   {| db := with_configurations (db st)
              (List.map (fun c => if named t c then mark_deleted (now (db st)) c else c) rows);
      metadataCache := metadataCache st |}).
Proof.
  intros H. unfold TableConfigController.deleteConfig, handle, try_catch.
  cbn. unfold config_soft_delete, config_relation. rewrite H. reflexivity.
Qed.

Lemma saveConfig_update_run (st : state) (rows : list config_row) (t : string)
    (b : TableConfigController.save_body) (f : config_fields) :
  configurations (db st) = Some rows ->
  TableConfigController.table_name b = Some t ->
  t <> "" ->
  List.filter (named t) rows <> [] ->
  supplies b f ->
  run (TableConfigController.saveConfig b) st =
  (Return (json [("success", JBool true);
                 ("message", JStr "Configuration saved successfully")]),
   {| db := with_configurations (db st)
              (List.map (fun c => if named t c then set_fields f (now (db st)) c else c)
                        rows);
      metadataCache := metadataCache st |}).
Proof.
  intros H Hb Ht Hex Hf. unfold TableConfigController.saveConfig, handle, try_catch.
  rewrite Hb. destruct t as [|ch t']; [contradiction|].
  cbn. unfold config_select_named, config_relation. rewrite H. cbn.
  destruct (List.filter (named (String ch t')) rows) as [|c l] eqn:E; [contradiction|].
  cbn. rewrite Hf. cbn. unfold config_update, config_relation. rewrite H. reflexivity.
Qed.

(** A body either supplies the five fields or leaves one out, and then
    the replacements are rejected. *)
Lemma replacements_cases (b : TableConfigController.save_body) :
  (exists f, supplies b f) \/ exists e, TableConfigController.replacements b = Throw e.
Proof.
  unfold supplies. destruct (TableConfigController.replacements b) as [f|e]; eauto.
Qed.

(** With a field left out, [saveConfig] for a table name answers 500 and
    writes nothing, whether or not the table has a row. *)
Lemma saveConfig_omitted_run (st : state) (rows : list config_row) (t : string)
    (b : TableConfigController.save_body) (e : Error) :
  configurations (db st) = Some rows ->
  TableConfigController.table_name b = Some t ->
  t <> "" ->
  TableConfigController.replacements b = Throw e ->
  run (TableConfigController.saveConfig b) st = (Return (failure 500 e), st).
Proof.
  intros H Hb Ht He. unfold TableConfigController.saveConfig, handle, try_catch.
  rewrite Hb. destruct t as [|ch t']; [contradiction|].
  cbn. unfold config_select_named, config_relation. rewrite H. cbn.
  destruct (List.filter (named (String ch t')) rows) as [|c l]; cbn; rewrite He; reflexivity.
Qed.





(* ===================================================================== *)
(** * Pagination *)
(* ===================================================================== *)

Lemma parse_digits_some (R : Z) (s : string) (a : Z) :
  exists n, parse_digits R s (Some a) = Some n.
Proof.
  revert a. induction s as [|c s IH]; intros a; cbn; [eauto|].
  destruct (digit_value c) as [d|]; [|eauto].
  destruct (d <? R); eauto.
Qed.

(** [parseInt] yields NaN or an integer, never an infinity. *)
Lemma parseInt_cases (v : value) : parseInt v = NaN \/ exists z, parseInt v = Fin z.
Proof.
  unfold parseInt, parseInt_string.
  destruct (match trimStart (ToString v) with
            | String "-" r => (true, r)
            | String "+" r => (false, r)
            | _ => (false, trimStart (ToString v))
            end) as [negative s2].
  destruct (match s2 with
            | String "0" (String "x" r) => (16, r)
            | String "0" (String "X" r) => (16, r)
            | _ => (10, s2)
            end) as [R s3].
  destruct (parse_digits R s3 None); eauto.
Qed.

Lemma num_or_falls_back (n d : number) : falls_back n -> num_or n d = d.
Proof. intros [-> | ->]; reflexivity. Qed.

Lemma num_or_positive (z : Z) (d : number) : 0 < z -> num_or (Fin z) d = Fin z.
Proof.
  intros H. unfold num_or. cbn.
  destruct (Z.eqb_spec z 0); [lia|reflexivity].
Qed.

Lemma num_or_at_least_one (n : number) (d : Z) :
  1 <= d -> not_negative n -> at_least_one (num_or n (Fin d)).
Proof.
  intros Hd Hn. destruct n as [| | |z]; cbn in Hn; try contradiction.
  - exists d. split; [reflexivity|exact Hd].
  - unfold num_or. cbn. destruct (Z.eqb_spec z 0); cbn.
    + exists d. split; [reflexivity|exact Hd].
    + exists z. split; [reflexivity|lia].
Qed.

Lemma pagination_refine (q : object) :
  dialect_of q = Refine ->
  GenericController.pagination q =
  (num_or (parseInt (obj_get q "current")) (Fin 1),
   num_or (parseInt (obj_get q "pageSize")) (Fin 30)).
Proof.
  unfold dialect_of, GenericController.pagination.
  destruct (truthy (obj_get q "current") && truthy (obj_get q "pageSize")); [reflexivity|].
  destruct (negb (is_undefined (obj_get q "_start"))
            && negb (is_undefined (obj_get q "_end"))); discriminate.
Qed.

Lemma pagination_legacy (q : object) :
  dialect_of q = Legacy ->
  GenericController.pagination q =
  (num_or (parseInt (obj_get q "page")) (Fin 1),
   num_or (parseInt (obj_get q "per_page")) (Fin 30)).
Proof.
  unfold dialect_of, GenericController.pagination.
  destruct (truthy (obj_get q "current") && truthy (obj_get q "pageSize")); [discriminate|].
  destruct (negb (is_undefined (obj_get q "_start"))
            && negb (is_undefined (obj_get q "_end"))); [discriminate|reflexivity].
Qed.

Lemma pagination_start_end (q : object) :
  dialect_of q = StartEnd ->
  GenericController.pagination q =
  (let start := num_or (parseInt (obj_get q "_start")) (Fin 0) in
   let end_ := num_or (parseInt (obj_get q "_end")) (Fin 30) in
   (num_add (floor_div start (num_sub end_ start)) (Fin 1), num_sub end_ start)).
Proof.
  unfold dialect_of, GenericController.pagination.
  destruct (truthy (obj_get q "current") && truthy (obj_get q "pageSize")); [discriminate|].
  destruct (negb (is_undefined (obj_get q "_start"))
            && negb (is_undefined (obj_get q "_end"))); [reflexivity|discriminate].
Qed.

(** ** The replacements [limit] and [offset] survive the filter loop *)

Lemma prefix_append (a b : string) : String.prefix a (a +:+ b) = true.
Proof.
  induction a as [|c a IH]; simpl; [destruct b; reflexivity|].
  destruct (ascii_dec c c) as [_|N]; [exact IH|contradiction].
Qed.

Lemma not_prefixed (a b p : string) : String.prefix a p = false -> a +:+ b <> p.
Proof. intros H <-. rewrite prefix_append in H. discriminate. Qed.

Lemma searchReplacements_other (columns : list value) (idx : nat) (pattern : value)
    (repl : gmap string value) (p : string) :
  String.prefix "search_" p = false ->
  GenericService.searchReplacements columns idx pattern repl !! p = repl !! p.
Proof.
  intros Hp. revert idx repl.
  induction columns as [|col columns IH]; intros idx repl; cbn; [reflexivity|].
  rewrite IH. apply lookup_insert_ne. unfold GenericService.paramName.
  apply not_prefixed, Hp.
Qed.

Lemma whereStep_other (filters : object) (acc acc' : list cond * gmap string value)
    (key p : string) :
  GenericService.whereStep filters acc key = Return acc' ->
  String.prefix "filter_" p = false ->
  String.prefix "search_" p = false ->
  snd acc' !! p = snd acc !! p.
Proof.
  intros Hstep Hf Hs. destruct acc as [cs repl]. unfold GenericService.whereStep in Hstep.
  destruct (negb (is_undefined (obj_get filters key))
            && negb (is_empty_string (obj_get filters key)));
    [|injection Hstep as <-; reflexivity].
  destruct (String.eqb key "_search" && typeof_object (obj_get filters key)).
  - destruct (obj_get filters key) as [| | | | | |o];
      try (injection Hstep as <-; reflexivity); try discriminate.
    destruct (truthy (obj_get o "columns")
              && GenericService.has_positive_length (obj_get o "columns")
              && truthy (obj_get o "query"));
      [|injection Hstep as <-; reflexivity].
    destruct (obj_get o "columns"); try discriminate.
    injection Hstep as <-. cbn. apply searchReplacements_other, Hs.
  - injection Hstep as <-. cbn. apply lookup_insert_ne, not_prefixed, Hf.
Qed.

Lemma whereLoop_other (filters : object) (ks : list string)
    (acc acc' : list cond * gmap string value) (p : string) :
  GenericService.whereLoop filters ks acc = Return acc' ->
  String.prefix "filter_" p = false ->
  String.prefix "search_" p = false ->
  snd acc' !! p = snd acc !! p.
Proof.
  intros Hloop Hf Hs. revert acc Hloop.
  induction ks as [|key ks IH]; intros acc Hloop; cbn in Hloop.
  - injection Hloop as <-. reflexivity.
  - destruct (GenericService.whereStep filters acc key) as [acc1|e] eqn:E; [|discriminate].
    cbn in Hloop. rewrite (IH _ Hloop). eapply whereStep_other; eassumption.
Qed.

(** The statement of [list] is run with [limit] bound to the limit and
    [offset] bound to [(page - 1) * limit]. *)
Lemma buildWhere_window (filters : object) (limit offset : number)
    (cs : list cond) (repl : gmap string value) :
  GenericService.buildWhere filters limit offset = Return (cs, repl) ->
  repl !! "limit" = Some (JNum limit) /\ repl !! "offset" = Some (JNum offset).
Proof.
  intros H. unfold GenericService.buildWhere in H.
  split.
  - apply (whereLoop_other _ _ _ _ "limit" H eq_refl eq_refl).
  - apply (whereLoop_other _ _ _ _ "offset" H eq_refl eq_refl).
Qed.

Lemma pageOffset_fin (p l : Z) :
  GenericService.pageOffset (Fin p) (Fin l) = Fin ((p - 1) * l).
Proof. reflexivity. Qed.

(** C2, as the code has it. In the [current]/[pageSize] and the
    [page]/[per_page] formats a value that is not numeric or is zero falls
    back to the default (page 1, limit 30), a positive value is kept, and
    hence page and limit are at least 1 whenever the values read are not
    negative. In the [_start]/[_end] format the limit is [end - start] and
    the page [floor(start / limit) + 1], both at least 1 when
    [0 <= start < end]. In every format the statement is run with
    [offset = (page - 1) * limit]. *)
Theorem pagination_defaults_and_bounds (q : object) (page limit : number) :
  GenericController.pagination q = (page, limit) ->
  (dialect_of q <> StartEnd ->
     (falls_back (parseInt (page_param q)) -> page = Fin 1)
     /\ (falls_back (parseInt (limit_param q)) -> limit = Fin 30)
     /\ (forall z, parseInt (page_param q) = Fin z -> 0 < z -> page = Fin z)
     /\ (forall z, parseInt (limit_param q) = Fin z -> 0 < z -> limit = Fin z)
     /\ (not_negative (parseInt (page_param q)) -> at_least_one page)
     /\ (not_negative (parseInt (limit_param q)) -> at_least_one limit))
  /\ (dialect_of q = StartEnd ->
      forall start end_,
        num_or (parseInt (page_param q)) (Fin 0) = Fin start ->
        num_or (parseInt (limit_param q)) (Fin 30) = Fin end_ ->
        0 <= start < end_ ->
        limit = Fin (end_ - start)
        /\ page = Fin (start / (end_ - start) + 1)
        /\ at_least_one page
        /\ at_least_one limit)
  /\ (forall filters cs repl,
        GenericService.buildWhere filters limit (GenericService.pageOffset page limit)
        = Return (cs, repl) ->
        repl !! "limit" = Some (JNum limit)
        /\ repl !! "offset" = Some (JNum (GenericService.pageOffset page limit))
        /\ forall p l, page = Fin p -> limit = Fin l ->
                       repl !! "offset" = Some (JNum (Fin ((p - 1) * l)))).
Proof.
  intros Hpag. split; [|split].
  - intros Hd.
    assert (Hpl : page = num_or (parseInt (page_param q)) (Fin 1)
                  /\ limit = num_or (parseInt (limit_param q)) (Fin 30)).
    { unfold page_param, limit_param.
      destruct (dialect_of q) eqn:E; [|contradiction|].
      - rewrite (pagination_refine q E) in Hpag. injection Hpag as <- <-. split; reflexivity.
      - rewrite (pagination_legacy q E) in Hpag. injection Hpag as <- <-. split; reflexivity. }
    destruct Hpl as [-> ->].
    split; [apply num_or_falls_back|].
    split; [apply num_or_falls_back|].
    split; [intros z -> Hz; apply num_or_positive, Hz|].
    split; [intros z -> Hz; apply num_or_positive, Hz|].
    split; apply num_or_at_least_one; lia.
  - intros Hd start end_ Hs He Hrange.
    rewrite (pagination_start_end q Hd) in Hpag. cbn zeta in Hpag.
    unfold page_param, limit_param in Hs, He. rewrite Hd in Hs, He.
    rewrite Hs, He in Hpag. injection Hpag as <- <-.
    replace (end_ + - start) with (end_ - start) by lia.
    destruct (Z.eqb_spec (end_ - start) 0) as [E0|_]; [lia|]. cbn.
    split; [reflexivity|]. split; [reflexivity|].
    split.
    + eexists. split; [reflexivity|].
      assert (0 <= start / (end_ - start)) by (apply Z.div_pos; lia). lia.
    + eexists. split; [reflexivity|lia].
  - intros filters cs repl Hb.
    destruct (buildWhere_window _ _ _ _ _ Hb) as [Hl Ho].
    split; [exact Hl|]. split; [exact Ho|].
    intros p l -> ->. rewrite Ho, pageOffset_fin. reflexivity.
Qed.

(** [page=2&per_page=abc]: the page is kept, the limit falls back to 30. *)
Lemma pagination_defaults_and_bounds_witness :
  GenericController.pagination [("page", JStr "2"); ("per_page", JStr "abc")]
  = (Fin 2, Fin 30)
  /\ at_least_one (Fin 2) /\ at_least_one (Fin 30).
Proof.
  split; [reflexivity|].
  destruct (pagination_defaults_and_bounds
              [("page", JStr "2"); ("per_page", JStr "abc")] (Fin 2) (Fin 30) eq_refl)
    as (Hplain & _ & _).
  destruct (Hplain ltac:(discriminate)) as (_ & _ & _ & _ & Hp & Hl).
  split; [apply Hp | apply Hl]; vm_compute; [discriminate | exact I].
Defined.

(** C2 fails as stated: a negative page is handed to the service as it is,
    and in the [_start]/[_end] format equal bounds give a limit of 0 and
    an infinite page, reversed bounds a negative limit and page. *)
Lemma pagination_counterexample :
  GenericController.pagination [("page", JStr "-2"); ("per_page", JStr "10")]
  = (Fin (-2), Fin 10)
  /\ GenericController.pagination [("_start", JStr "30"); ("_end", JStr "30")]
     = (PosInf, Fin 0)
  /\ GenericController.pagination [("_start", JStr "10"); ("_end", JStr "5")]
     = (Fin (-1), Fin (-5)).
Proof. repeat split; reflexivity. Qed.

(* ===================================================================== *)
(** * The WHERE clause of [list] *)
(* ===================================================================== *)

Lemma obj_get_delete_ne (o : object) (k k' : string) :
  k' <> k -> obj_get (obj_delete o k) k' = obj_get o k'.
Proof.
  intros Hne. unfold obj_delete. induction o as [|[k0 v] o IH]; [reflexivity|].
  cbn. destruct (String.eqb_spec k0 k) as [->|Hk0]; cbn.
  - destruct (String.eqb_spec k k') as [E|_]; [congruence|exact IH].
  - rewrite IH. reflexivity.
Qed.

Lemma keys_delete (o : object) (k : string) :
  keys (obj_delete o k) = List.filter (fun k' => negb (String.eqb k' k)) (keys o).
Proof.
  unfold obj_delete, keys. induction o as [|[k0 v] o IH]; [reflexivity|].
  cbn. destruct (String.eqb k0 k); cbn; [exact IH|]. f_equal. exact IH.
Qed.

(** The loop body reads [filters] at the current key only. *)
Lemma whereStep_ext (f1 f2 : object) (acc : list cond * gmap string value) (key : string) :
  obj_get f1 key = obj_get f2 key ->
  GenericService.whereStep f1 acc key = GenericService.whereStep f2 acc key.
Proof. intros H. unfold GenericService.whereStep. rewrite H. reflexivity. Qed.

(** A key whose value is [undefined] or the empty string is passed over. *)
Lemma whereStep_skip (f : object) (acc : list cond * gmap string value) (key : string) :
  obj_get f key = JUndefined \/ obj_get f key = JStr "" ->
  GenericService.whereStep f acc key = Return acc.
Proof.
  intros H. unfold GenericService.whereStep. destruct acc as [cs repl].
  destruct H as [-> | ->]; reflexivity.
Qed.

Lemma whereLoop_delete (f : object) (k : string) (ks : list string)
    (acc : list cond * gmap string value) :
  obj_get f k = JUndefined \/ obj_get f k = JStr "" ->
  GenericService.whereLoop (obj_delete f k)
    (List.filter (fun k' => negb (String.eqb k' k)) ks) acc
  = GenericService.whereLoop f ks acc.
Proof.
  intros Hk. revert acc. induction ks as [|key ks IH]; intros acc; [reflexivity|].
  cbn. destruct (String.eqb_spec key k) as [->|Hne]; cbn.
  - rewrite (whereStep_skip f acc k Hk). cbn. apply IH.
  - rewrite (whereStep_ext (obj_delete f k) f acc key (obj_get_delete_ne f k key Hne)).
    destruct (GenericService.whereStep f acc key); cbn; [apply IH|reflexivity].
Qed.

Lemma buildWhere_delete (f : object) (k : string) (limit offset : number) :
  obj_get f k = JUndefined \/ obj_get f k = JStr "" ->
  GenericService.buildWhere (obj_delete f k) limit offset
  = GenericService.buildWhere f limit offset.
Proof.
  intros Hk. unfold GenericService.buildWhere. rewrite keys_delete.
  apply whereLoop_delete, Hk.
Qed.

(** C10. A filter whose value is [undefined] or the empty string changes
    nothing: [list] with that key is [list] with the key removed, in every
    state, in what it returns or throws and in the state it leaves. The
    key contributes no WHERE predicate. *)
Theorem empty_filter_is_no_filter (table : string) (page limit : number)
    (filters : object) (k : string) (sortBy sortOrder : value) (st : state) :
  obj_get filters k = JUndefined \/ obj_get filters k = JStr "" ->
  run (GenericService.list_ table page limit filters sortBy sortOrder) st
  = run (GenericService.list_ table page limit (obj_delete filters k) sortBy sortOrder) st
  /\ GenericService.buildWhere filters limit (GenericService.pageOffset page limit)
     = GenericService.buildWhere (obj_delete filters k) limit
         (GenericService.pageOffset page limit).
Proof.
  intros Hk. unfold GenericService.list_.
  rewrite (buildWhere_delete filters k limit _ Hk). split; reflexivity.
Qed.

(** Listing the countries named India, with and without an empty [code]
    filter. *)
Lemma empty_filter_is_no_filter_witness :
  run (GenericService.list_ "countries" (Fin 1) (Fin 30)
         [("code", JStr ""); ("name", JStr "India")] JUndefined JUndefined) Scenario.fresh
  = run (GenericService.list_ "countries" (Fin 1) (Fin 30)
           [("name", JStr "India")] JUndefined JUndefined) Scenario.fresh.
Proof.
  apply (empty_filter_is_no_filter "countries" (Fin 1) (Fin 30)
           [("code", JStr ""); ("name", JStr "India")] "code" JUndefined JUndefined
           Scenario.fresh).
  right. reflexivity.
Defined.

(** What one turn of the loop does when it does not throw. *)
Lemma whereStep_Return (f : object) (cs cs' : list cond)
    (repl repl' : gmap string value) (key : string) :
  GenericService.whereStep f (cs, repl) key = Return (cs', repl') ->
  cs' = cs ++ option_list (conjunct key (obj_get f key))
  /\ repl' = match conjunct key (obj_get f key) with
             | Some (Atom _) => <["filter_" +:+ key := obj_get f key]> repl
             | Some (AnyOf _) =>
                 match search_of (obj_get f key) with
                 | Some (cols, q) =>
                     GenericService.searchReplacements cols 0
                       (JStr (search_pattern q)) repl
                 | None => repl
                 end
             | None => repl
             end.
Proof.
  unfold GenericService.whereStep, conjunct, present.
  destruct (negb (is_undefined (obj_get f key))
            && negb (is_empty_string (obj_get f key)));
    [|intros [= <- <-]; rewrite app_nil_r; split; reflexivity].
  destruct (String.eqb key "_search" && typeof_object (obj_get f key));
    [|intros [= <- <-]; split; reflexivity].
  destruct (obj_get f key) as [| |b|n|s|l|o];
    try (intros [= <- <-]; rewrite app_nil_r; split; reflexivity);
    try discriminate.
  destruct (truthy (obj_get o "columns")
            && GenericService.has_positive_length (obj_get o "columns")
            && truthy (obj_get o "query")) eqn:Hc.
  - destruct (obj_get o "columns") as [| |b|n|s|l|o'] eqn:Hcols;
      cbn in Hc; rewrite ?andb_false_r in Hc; try discriminate;
      try (intros; discriminate).
    destruct l as [|col cols]; [discriminate|]. cbn in Hc.
    intros [= <- <-]. cbn [search_of]. rewrite Hcols, Hc. split; reflexivity.
  - assert (Hs : search_of (JObj o) = None).
    { cbn. destruct (obj_get o "columns") as [| |b|n|s|l|o']; try reflexivity.
      destruct l as [|col cols]; [reflexivity|].
      cbn in Hc. rewrite Hc. reflexivity. }
    rewrite Hs. intros [= <- <-]. rewrite app_nil_r. split; reflexivity.
Qed.

Lemma whereLoop_cons (f : object) (key : string) (ks : list string)
    (acc : list cond * gmap string value) :
  GenericService.whereLoop f (key :: ks) acc =
  match GenericService.whereStep f acc key with
  | Return acc' => GenericService.whereLoop f ks acc'
  | Throw e => Throw e
  end.
Proof. reflexivity. Qed.

Lemma whereLoop_clauses (f : object) (ks : list string) (cs cs' : list cond)
    (repl repl' : gmap string value) :
  GenericService.whereLoop f ks (cs, repl) = Return (cs', repl') ->
  cs' = cs ++ omap (fun k => conjunct k (obj_get f k)) ks.
Proof.
  revert cs repl. induction ks as [|key ks IH]; intros cs repl H.
  - injection H as <- <-. cbn. rewrite app_nil_r. reflexivity.
  - rewrite whereLoop_cons in H.
    destruct (GenericService.whereStep f (cs, repl) key) as [[cs1 repl1]|e] eqn:E;
      [|discriminate].
    apply IH in H. apply whereStep_Return in E. destruct E as [-> _].
    rewrite H, <- app_assoc. f_equal. cbn.
    destruct (conjunct key (obj_get f key)); reflexivity.
Qed.

(** ** The replacements the loop leaves *)

Lemma append_inj (a b c : string) : a +:+ b = a +:+ c -> b = c.
Proof. induction a as [|ch a IH]; simpl; [auto|]. intros [= H]. auto. Qed.

Lemma paramName_prefix (idx : nat) :
  String.prefix "search_" (GenericService.paramName idx) = true.
Proof. apply prefix_append. Qed.

Lemma filter_name_prefix (k : string) : String.prefix "search_" ("filter_" +:+ k) = false.
Proof. reflexivity. Qed.

Lemma consistent_insert_filter (f : object) (key : string) (repl : gmap string value) :
  consistent f repl ->
  present (obj_get f key) = true ->
  consistent f (<["filter_" +:+ key := obj_get f key]> repl).
Proof.
  intros Hco Hp p v Hl.
  destruct (decide ("filter_" +:+ key = p)) as [<-|Hne].
  - rewrite lookup_insert_eq in Hl. injection Hl as <-. split.
    + intros k Hk. apply append_inj in Hk. subst k. split; [reflexivity|exact Hp].
    + rewrite filter_name_prefix. discriminate.
  - rewrite lookup_insert_ne in Hl by exact Hne. apply Hco, Hl.
Qed.

Lemma consistent_search (f : object) (cols0 cols : list value) (q : value) (idx : nat)
    (repl : gmap string value) :
  search_of (obj_get f "_search") = Some (cols0, q) ->
  consistent f repl ->
  consistent f (GenericService.searchReplacements cols idx (JStr (search_pattern q)) repl).
Proof.
  intros Hs. revert idx repl.
  induction cols as [|col cols IH]; intros idx repl Hco; cbn; [exact Hco|].
  apply IH. intros p v Hl.
  destruct (decide (GenericService.paramName idx = p)) as [<-|Hne].
  - rewrite lookup_insert_eq in Hl. injection Hl as <-. split.
    + intros k Hk. pose proof (paramName_prefix idx) as Hp.
      rewrite Hk, filter_name_prefix in Hp. discriminate.
    + intros _. eauto.
  - rewrite lookup_insert_ne in Hl by exact Hne. apply Hco, Hl.
Qed.

Lemma searchReplacements_mono (cols : list value) (idx : nat) (pat : value)
    (repl : gmap string value) (p : string) :
  is_Some (repl !! p) ->
  is_Some (GenericService.searchReplacements cols idx pat repl !! p).
Proof.
  revert idx repl. induction cols as [|col cols IH]; intros idx repl H; cbn; [exact H|].
  apply IH. destruct (decide (GenericService.paramName idx = p)) as [<-|Hne].
  - rewrite lookup_insert_eq. eauto.
  - rewrite lookup_insert_ne by exact Hne. exact H.
Qed.

Lemma searchReplacements_bound (cols : list value) (idx : nat) (pat : value)
    (repl : gmap string value) (a : atom) :
  In a (GenericService.searchClauses cols idx) ->
  is_Some (GenericService.searchReplacements cols idx pat repl !! atom_param a).
Proof.
  revert idx repl. induction cols as [|col cols IH]; intros idx repl H; cbn in *;
    [contradiction|].
  destruct H as [<-|H]; [|apply IH, H].
  cbn. apply searchReplacements_mono. rewrite lookup_insert_eq. eauto.
Qed.

(** A conjunct is contributed only by a filter that counts; a disjunction
    only by the reserved key. *)
Lemma conjunct_atom (key : string) (v : value) (a : atom) :
  conjunct key v = Some (Atom a) ->
  a = Eq key ("filter_" +:+ key) /\ present v = true.
Proof.
  unfold conjunct. destruct (present v); [|discriminate].
  destruct (String.eqb key "_search" && typeof_object v).
  - destruct (search_of v) as [[cols q]|]; discriminate.
  - intros [= <-]. split; reflexivity.
Qed.

Lemma conjunct_any (key : string) (v : value) (l : list atom) :
  conjunct key v = Some (AnyOf l) ->
  key = "_search"
  /\ exists cols q, search_of v = Some (cols, q)
                    /\ l = GenericService.searchClauses cols 0.
Proof.
  unfold conjunct. destruct (present v); [|discriminate].
  destruct (String.eqb_spec key "_search") as [->|_]; cbn; [|discriminate].
  destruct (typeof_object v); [|discriminate].
  destruct (search_of v) as [[cols q]|]; [|discriminate].
  intros [= <-]. split; [reflexivity|]. eauto.
Qed.

Lemma whereStep_bindings (f : object) (cs cs' : list cond)
    (repl repl' : gmap string value) (key : string) :
  GenericService.whereStep f (cs, repl) key = Return (cs', repl') ->
  consistent f repl ->
  consistent f repl'
  /\ (forall p, is_Some (repl !! p) -> is_Some (repl' !! p))
  /\ (forall c a, conjunct key (obj_get f key) = Some c -> In a (atoms c) ->
                  is_Some (repl' !! atom_param a)).
Proof.
  intros Hstep Hco. apply whereStep_Return in Hstep. destruct Hstep as [_ ->].
  destruct (conjunct key (obj_get f key)) as [[a|l]|] eqn:Hc.
  - apply conjunct_atom in Hc. destruct Hc as [-> Hp].
    split; [apply consistent_insert_filter; assumption|]. split.
    + intros p H. destruct (decide ("filter_" +:+ key = p)) as [<-|Hne].
      * rewrite lookup_insert_eq. eauto.
      * rewrite lookup_insert_ne by exact Hne. exact H.
    + intros c a [= <-] [<-|[]]. cbn. rewrite lookup_insert_eq. eauto.
  - apply conjunct_any in Hc. destruct Hc as (-> & cols & q & Hs & ->).
    rewrite Hs. split; [eapply consistent_search; eassumption|]. split.
    + intros p H. apply searchReplacements_mono, H.
    + intros c a [= <-] Hin. apply searchReplacements_bound, Hin.
  - split; [exact Hco|]. split; [auto|]. intros c a [=].
Qed.

Lemma whereLoop_bindings (f : object) (ks : list string) (cs cs' : list cond)
    (repl repl' : gmap string value) :
  GenericService.whereLoop f ks (cs, repl) = Return (cs', repl') ->
  consistent f repl ->
  consistent f repl'
  /\ (forall p, is_Some (repl !! p) -> is_Some (repl' !! p))
  /\ (forall k c a, In k ks -> conjunct k (obj_get f k) = Some c -> In a (atoms c) ->
                    is_Some (repl' !! atom_param a)).
Proof.
  revert cs repl. induction ks as [|key ks IH]; intros cs repl H Hco.
  - injection H as <- <-. split; [exact Hco|]. split; [auto|]. intros k c a [].
  - rewrite whereLoop_cons in H.
    destruct (GenericService.whereStep f (cs, repl) key) as [[cs1 repl1]|e] eqn:E;
      [|discriminate].
    destruct (whereStep_bindings _ _ _ _ _ _ E Hco) as (Hco1 & Hmono1 & Hb1).
    destruct (IH _ _ H Hco1) as (Hco' & Hmono & Hb).
    split; [exact Hco'|]. split; [auto|].
    intros k c a [<-|Hin] Hc Ha.
    + apply Hmono. eapply Hb1; eassumption.
    + eapply Hb; eassumption.
Qed.

Lemma consistent_initial (f : object) (limit offset : number) :
  consistent f (<["limit" := JNum limit]> (<["offset" := JNum offset]> ∅)).
Proof.
  intros p v H.
  destruct (decide ("limit" = p)) as [<-|Hl].
  - split; [intros k; discriminate|discriminate].
  - rewrite lookup_insert_ne in H by exact Hl.
    destruct (decide ("offset" = p)) as [<-|Ho].
    + split; [intros k; discriminate|discriminate].
    + rewrite lookup_insert_ne in H by exact Ho. rewrite lookup_empty in H. discriminate.
Qed.

(** ** What the compiled WHERE clause selects *)

Lemma sql_or_true (a b : option bool) :
  bool_decide (sql_or a b = Some true)
  = bool_decide (a = Some true) || bool_decide (b = Some true).
Proof. destruct a as [[|]|], b as [[|]|]; reflexivity. Qed.

Lemma parameter_present (repl : gmap string value) (p : string) (v : value) :
  repl !! p = Some v ->
  is_undefined v = false ->
  parameter repl p = match bind_value v with
                     | Some lit => Return lit
                     | None => Throw invalid_value
                     end.
Proof. intros H Hv. unfold parameter. rewrite H. destruct v; try reflexivity. discriminate. Qed.

Lemma compile_any_search (t : table) (repl : gmap string value) (cols : list value)
    (idx : nat) (pat : string) (g : row -> option bool) :
  (forall a, In a (GenericService.searchClauses cols idx) ->
             repl !! atom_param a = Some (JStr pat)) ->
  compile_any t repl (GenericService.searchClauses cols idx) = Return g ->
  forall r,
    bool_decide (g r = Some true)
    = existsb (fun col => bool_decide (sql_like t (ToString col) (cell r (ToString col)) (SText pat)
                                       = Some true)) cols.
Proof.
  revert idx g. induction cols as [|col cols IH]; intros idx g Hb H r.
  - injection H as <-. reflexivity.
  - cbn [GenericService.searchClauses compile_any] in H.
    unfold compile_atom in H. cbn [atom_param atom_col atom_op] in H.
    rewrite (parameter_present repl _ (JStr pat)) in H;
      [|apply (Hb (Like (ToString col) (GenericService.paramName idx)));
        left; reflexivity|reflexivity].
    cbn in H. destruct (has_column t (ToString col)); [|discriminate].
    cbn in H.
    destruct (compile_any t repl (GenericService.searchClauses cols (S idx)))
      as [g'|e] eqn:E; [|discriminate].
    cbn in H. injection H as <-.
    rewrite sql_or_true. cbn [existsb]. f_equal.
    apply (IH (S idx) g'); [|exact E].
    intros a Ha. apply Hb. right. exact Ha.
Qed.

Lemma conjunct_none_holds (t : table) (r : row) (key : string) (v : value) :
  conjunct key v = None -> filter_holds t r key v = true.
Proof.
  unfold conjunct, filter_holds. destruct (present v); [|reflexivity].
  destruct (String.eqb key "_search" && typeof_object v); [|discriminate].
  destruct (search_of v) as [[cols q]|]; [discriminate|reflexivity].
Qed.

Lemma conjunct_atom_holds (t : table) (r : row) (key : string) (v : value) (a : atom) :
  conjunct key v = Some (Atom a) ->
  filter_holds t r key v = match bind_value v with
                         | Some lit => bool_decide (sql_eq t key (cell r key) lit = Some true)
                         | None => false
                         end.
Proof.
  unfold conjunct, filter_holds. destruct (present v); [|discriminate].
  destruct (String.eqb key "_search" && typeof_object v); [|reflexivity].
  destruct (search_of v) as [[cols q]|]; discriminate.
Qed.

Lemma conjunct_any_holds (t : table) (r : row) (key : string) (v : value) (l : list atom)
    (cols : list value) (q : value) :
  conjunct key v = Some (AnyOf l) ->
  search_of v = Some (cols, q) ->
  filter_holds t r key v
  = existsb (fun col => bool_decide (sql_like t (ToString col) (cell r (ToString col))
                                              (SText (search_pattern q)) = Some true))
            cols.
Proof.
  unfold conjunct, filter_holds. intros H Hs. destruct (present v); [|discriminate].
  destruct (String.eqb key "_search" && typeof_object v); [|discriminate].
  rewrite Hs. reflexivity.
Qed.

Lemma compile_conjunct (t : table) (repl : gmap string value) (f : object)
    (k : string) (c : cond) (g : row -> option bool) :
  consistent f repl ->
  (forall a, In a (atoms c) -> is_Some (repl !! atom_param a)) ->
  conjunct k (obj_get f k) = Some c ->
  compile_cond t repl c = Return g ->
  forall r, bool_decide (g r = Some true) = filter_holds t r k (obj_get f k).
Proof.
  intros Hco Hb Hc Hg r. destruct c as [a|l].
  - rewrite (conjunct_atom_holds t r _ _ _ Hc).
    apply conjunct_atom in Hc. destruct Hc as [-> Hp].
    destruct (Hb _ (or_introl eq_refl)) as [v Hv]. cbn in Hv.
    destruct (proj1 (Hco _ _ Hv) k eq_refl) as [-> _].
    cbn in Hg. unfold compile_atom in Hg. cbn [atom_param atom_col atom_op] in Hg.
    rewrite (parameter_present repl _ _ Hv) in Hg.
    2:{ unfold present in Hp. destruct (is_undefined (obj_get f k)); [discriminate|reflexivity]. }
    destruct (bind_value (obj_get f k)) as [lit|]; [|discriminate].
    cbn in Hg. destruct (has_column t k); [|discriminate].
    injection Hg as <-. reflexivity.
  - pose proof Hc as Hc'. apply conjunct_any in Hc'.
    destruct Hc' as (-> & cols & q & Hs & ->).
    rewrite (conjunct_any_holds t r _ _ _ cols q Hc Hs).
    apply (compile_any_search t repl cols 0 (search_pattern q) g); [|exact Hg].
    intros a Ha. destruct (Hb a Ha) as [v Hv].
    destruct (proj2 (Hco _ _ Hv)) as (cols' & q' & Hs' & ->).
    + clear - Ha. revert Ha. generalize 0%nat.
      induction cols as [|col cols IH]; intros idx [].
      * subst a. apply paramName_prefix.
      * eapply IH; eassumption.
    + rewrite Hs in Hs'. injection Hs' as <- <-. exact Hv.
Qed.

Lemma compile_where_matches (t : table) (repl : gmap string value) (f : object)
    (ks : list string) (keep : row -> bool) :
  consistent f repl ->
  (forall k c a, In k ks -> conjunct k (obj_get f k) = Some c -> In a (atoms c) ->
                 is_Some (repl !! atom_param a)) ->
  compile_where t repl (omap (fun k => conjunct k (obj_get f k)) ks) = Return keep ->
  forall r, keep r = forallb (fun k => filter_holds t r k (obj_get f k)) ks.
Proof.
  intros Hco. revert keep. induction ks as [|k ks IH]; intros keep Hb H r.
  - injection H as <-. reflexivity.
  - cbn [omap list_omap] in H. cbn [forallb].
    destruct (conjunct k (obj_get f k)) as [c|] eqn:Hc.
    + cbn [compile_where] in H.
      destruct (compile_cond t repl c) as [g|e] eqn:Eg; [|discriminate].
      cbn in H.
      destruct (compile_where t repl (omap (fun k => conjunct k (obj_get f k)) ks))
        as [keep'|e] eqn:Ek; [|discriminate].
      cbn in H. injection H as <-.
      rewrite (compile_conjunct t repl f k c g Hco); [| |exact Hc|exact Eg].
      * f_equal. apply IH; [|reflexivity].
        intros k' c' a Hin. apply Hb. right. exact Hin.
      * intros a Ha. apply (Hb k c a); [left; reflexivity|exact Hc|exact Ha].
    + rewrite (conjunct_none_holds t r _ _ Hc). cbn.
      apply IH; [|exact H].
      intros k' c' a Hin. apply Hb. right. exact Hin.
Qed.

Lemma requireTable_run (table : string) (st : state) :
  run (GenericService.requireTable table) st =
  (match tables (db st) !! table with
   | Some _ => Return tt
   | None => Throw {| message := "Invalid table" |}
   end, st).
Proof.
  unfold GenericService.requireTable. rewrite run_bind, checkTableExists_spec.
  destruct (tables (db st) !! table); reflexivity.
Qed.

Lemma buildWhere_spec (f : object) (limit offset : number) (cs : list cond)
    (repl : gmap string value) :
  GenericService.buildWhere f limit offset = Return (cs, repl) ->
  cs = omap (fun k => conjunct k (obj_get f k)) (keys f)
  /\ consistent f repl
  /\ (forall k c a, In k (keys f) -> conjunct k (obj_get f k) = Some c ->
                    In a (atoms c) -> is_Some (repl !! atom_param a)).
Proof.
  intros H. unfold GenericService.buildWhere in H.
  split; [apply (whereLoop_clauses _ _ _ _ _ _ H)|].
  destruct (whereLoop_bindings _ _ _ _ _ _ H (consistent_initial f limit offset))
    as (Hco & _ & Hb).
  split; assumption.
Qed.

(* ===================================================================== *)
(** * [list]: the window and the total *)
(* ===================================================================== *)

Lemma row_count_Return (repl : gmap string value) (p : string) (n : nat) :
  row_count repl p = Return n ->
  exists z, repl !! p = Some (JNum (Fin z)) /\ 0 <= z /\ n = Z.to_nat z.
Proof.
  unfold row_count. destruct (repl !! p) as [[| |b|[| | |z]|s|l|o]|]; try discriminate.
  destruct (Z.leb_spec 0 z); [|discriminate].
  intros [= <-]. eauto.
Qed.

Lemma insert_sorted_length (leb : row -> row -> bool) (r : row) (l : list row) :
  length (insert_sorted leb r l) = S (length l).
Proof.
  induction l as [|r' l IH]; cbn; [reflexivity|].
  destruct (leb r r'); cbn; [reflexivity|]. rewrite IH. reflexivity.
Qed.

Lemma insert_sorted_In (leb : row -> row -> bool) (r x : row) (l : list row) :
  In x (insert_sorted leb r l) -> x = r \/ In x l.
Proof.
  induction l as [|r' l IH]; cbn; [intuition|].
  destruct (leb r r'); cbn; [intuition|].
  intros [<-|H]; [intuition|]. apply IH in H. intuition.
Qed.

Lemma sort_rows_length (leb : row -> row -> bool) (l : list row) :
  length (sort_rows leb l) = length l.
Proof.
  induction l as [|r l IH]; cbn; [reflexivity|].
  rewrite insert_sorted_length. f_equal. exact IH.
Qed.

Lemma sort_rows_In (leb : row -> row -> bool) (x : row) (l : list row) :
  In x (sort_rows leb l) -> In x l.
Proof.
  induction l as [|r l IH]; cbn; [auto|].
  intros H. apply insert_sorted_In in H. destruct H as [->|H]; auto.
Qed.

Lemma order_by_Return (t : table) (col dir : string) (l sorted : list row) :
  order_by t col dir l = Return sorted ->
  length sorted = length l /\ forall x, In x sorted -> In x l.
Proof.
  unfold order_by. destruct (has_column t col); [|discriminate].
  intros [= <-]. split; [apply sort_rows_length|intros x; apply sort_rows_In].
Qed.

Lemma windowed_Return (repl : gmap string value) (l rows : list row) :
  windowed true repl l = Return rows ->
  exists limit offset,
    row_count repl "limit" = Return limit
    /\ row_count repl "offset" = Return offset
    /\ rows = take limit (drop offset l).
Proof.
  unfold windowed.
  destruct (row_count repl "limit") as [limit|e] eqn:El; [|discriminate]. cbn.
  destruct (row_count repl "offset") as [offset|e] eqn:Eo; [|discriminate]. cbn.
  intros [= <-]. exists limit, offset. repeat split.
Qed.

(** A text that is one identifier is read as a column. *)
Lemma read_sort_identifier (by_ : string) :
  is_identifier by_ = true -> read_sort by_ = SortColumn by_.
Proof. intros H. unfold read_sort. rewrite H. reflexivity. Qed.

(** What a SELECT with a window that returns has read: the rows kept by
    the WHERE clause, in some order, and then either the window of the
    statement or, when the sort text brings a LIMIT of its own and hides
    the rest, the first rows up to that limit. *)
Lemma select_rows_window (d : database) (name : string) (cs : list cond)
    (ord : option (string * string)) (repl : gmap string value)
    (t : table) (rows : list row) :
  tables d !! name = Some t ->
  select_rows d name cs ord true repl = Return rows ->
  exists keep sorted,
    compile_where t repl cs = Return keep
    /\ length sorted = length (List.filter keep (t_rows t))
    /\ (forall x, In x sorted -> In x (List.filter keep (t_rows t)))
    /\ ((exists limit offset,
           row_count repl "limit" = Return limit
           /\ row_count repl "offset" = Return offset
           /\ rows = take limit (drop offset sorted))
        \/ (exists by_ dir col n,
              ord = Some (by_, dir)
              /\ read_sort by_ = SortLimited col n
              /\ rows = take n sorted)).
Proof.
  intros Ht. unfold select_rows, lookup_table. rewrite Ht. cbn.
  destruct (compile_where t repl cs) as [keep|e]; [|discriminate]. cbn.
  destruct ord as [[by_ dir]|].
  - destruct (read_sort by_) as [col|col n|] eqn:Er; [| |discriminate].
    + destruct (order_by t col dir (List.filter keep (t_rows t))) as [sorted|e] eqn:Es;
        [|discriminate].
      cbn. intros H. apply windowed_Return in H.
      destruct (order_by_Return _ _ _ _ _ Es) as [Hlen Hin].
      exists keep, sorted. repeat split; auto.
    + destruct (order_by t col "ASC" (List.filter keep (t_rows t))) as [sorted|e] eqn:Es;
        [|discriminate].
      cbn. intros [= <-].
      destruct (order_by_Return _ _ _ _ _ Es) as [Hlen Hin].
      exists keep, sorted. split; [reflexivity|]. split; [exact Hlen|].
      split; [exact Hin|]. right. exists by_, dir, col, n.
      split; [reflexivity|]. split; [exact Er|reflexivity].
  - intros H. apply windowed_Return in H.
    exists keep, (List.filter keep (t_rows t)). repeat split; auto.
Qed.

Lemma count_rows_Return (d : database) (name : string) (cs : list cond)
    (repl : gmap string value) (t : table) (n : Z) :
  tables d !! name = Some t ->
  count_rows d name cs repl = Return n ->
  exists keep,
    compile_where t repl cs = Return keep
    /\ n = Z.of_nat (length (List.filter keep (t_rows t))).
Proof.
  intros Ht. unfold count_rows, lookup_table. rewrite Ht. cbn.
  destruct (compile_where t repl cs) as [keep|e]; [|discriminate]. cbn.
  intros [= <-]. exists keep. split; reflexivity.
Qed.

Lemma orderBy_Some (sortBy sortOrder : value) (by_ dir : string) :
  GenericService.orderBy sortBy sortOrder = Return (Some (by_, dir)) ->
  truthy sortBy && truthy sortOrder = true /\ by_ = ToString sortBy.
Proof.
  unfold GenericService.orderBy.
  destruct (truthy sortBy && truthy sortOrder); [|discriminate].
  destruct sortOrder; try discriminate. intros [= <- _]. split; reflexivity.
Qed.

(** What a call of [list] that returns has done. *)
Lemma list_run (table : string) (page limit : number) (f : object)
    (sortBy sortOrder : value) (st st' : state) (r : GenericService.list_result) :
  run (GenericService.list_ table page limit f sortBy sortOrder) st = (Return r, st') ->
  st' = st
  /\ exists t sorted,
       tables (db st) !! table = Some t
       /\ length sorted = length (List.filter (row_matches t f) (t_rows t))
       /\ (forall x, In x sorted -> In x (List.filter (row_matches t f) (t_rows t)))
       /\ GenericService.total r
          = Z.of_nat (length (List.filter (row_matches t f) (t_rows t)))
       /\ ((exists n offset,
              limit = Fin n /\ 0 <= n
              /\ GenericService.data r
                 = List.map js_of_row (take (Z.to_nat n) (drop offset sorted)))
           \/ (exists col n,
                 truthy sortBy && truthy sortOrder = true
                 /\ read_sort (ToString sortBy) = SortLimited col n
                 /\ GenericService.data r = List.map js_of_row (take n sorted))).
Proof.
  unfold GenericService.list_. rewrite run_bind, requireTable_run.
  destruct (tables (db st) !! table) as [t|] eqn:Ht; [|discriminate].
  rewrite run_bind. cbn [GenericService.lift run].
  destruct (GenericService.buildWhere f limit (GenericService.pageOffset page limit))
    as [[cs repl]|e] eqn:Eb; [|discriminate].
  rewrite run_bind. cbn [GenericService.lift run].
  destruct (GenericService.orderBy sortBy sortOrder) as [ord|e] eqn:Eo; [|discriminate].
  rewrite run_bind. cbn [query run].
  destruct (select_rows (db st) table cs ord true repl) as [rows|e] eqn:Es; [|discriminate].
  rewrite run_bind. cbn [query run].
  destruct (count_rows (db st) table cs repl) as [n|e] eqn:Ec; [|discriminate].
  cbn. intros [= <- <-]. split; [reflexivity|].
  destruct (select_rows_window _ _ _ _ _ _ _ Ht Es)
    as (keep & sorted & Hk & Hlen & Hin & Hrows).
  destruct (count_rows_Return _ _ _ _ _ _ Ht Ec) as (keep' & Hk' & ->).
  rewrite Hk in Hk'. injection Hk' as <-.
  destruct (buildWhere_spec _ _ _ _ _ Eb) as (-> & Hco & Hb).
  pose proof (compile_where_matches t repl f (keys f) keep Hco Hb Hk) as Hkeep.
  assert (Hfilter : List.filter keep (t_rows t) = List.filter (row_matches t f) (t_rows t))
    by (apply List.filter_ext; exact Hkeep).
  rewrite Hfilter in *.
  exists t, sorted. cbn. split; [reflexivity|]. split; [exact Hlen|].
  split; [exact Hin|]. split; [reflexivity|].
  destruct Hrows as [(l & o & Hl & Ho & ->)|(by_ & dir & col & k & -> & Hr & ->)].
  - left. destruct (row_count_Return _ _ _ Hl) as (z & Hz & Hz0 & ->).
    destruct (buildWhere_window _ _ _ _ _ Eb) as [Hlim _].
    rewrite Hlim in Hz. injection Hz as ->. exists z, o. repeat split; auto.
  - right. apply orderBy_Some in Eo. destruct Eo as [Ho ->].
    exists col, k. repeat split; auto.
Qed.

(** C7, as the code has it. When the names the call pastes into its
    statements are plain identifiers and [sortBy], if it is used, is one
    too: whenever [list] returns, the data holds at most [limit] rows,
    each of them a row of the table that matches the filters, and the
    total is the number of rows of the table that match the filters, which
    no choice of page, limit or sort parameters changes. *)
Theorem list_window_and_total (table : string) (page limit : number)
    (filters : object) (sortBy sortOrder : value) (st st' : state)
    (r : GenericService.list_result) :
  plain_names table filters ->
  plain_sort sortBy sortOrder ->
  run (GenericService.list_ table page limit filters sortBy sortOrder) st
  = (Return r, st') ->
  exists t n,
    tables (db st) !! table = Some t
    /\ limit = Fin n
    /\ Z.of_nat (length (GenericService.data r)) <= n
    /\ Z.of_nat (length (GenericService.data r)) <= GenericService.total r
    /\ Forall (fun v => exists x, In x (t_rows t)
                                  /\ row_matches t filters x = true
                                  /\ v = js_of_row x)
              (GenericService.data r)
    /\ GenericService.total r
       = Z.of_nat (length (List.filter (row_matches t filters) (t_rows t)))
    /\ forall page' limit' sortBy' sortOrder' st'' r',
         run (GenericService.list_ table page' limit' filters sortBy' sortOrder') st
         = (Return r', st'') ->
         GenericService.total r' = GenericService.total r.
Proof.
  intros _ Hsort H. destruct (list_run _ _ _ _ _ _ _ _ _ H)
    as (_ & t & sorted & Ht & Hlen & Hin & Htotal & Hdata).
  destruct Hdata as [(n & offset & -> & Hn & Hdata)|(col & k & Ho & Hr & _)].
  2:{ rewrite (read_sort_identifier _ (Hsort Ho)) in Hr. discriminate. }
  exists t, n. split; [exact Ht|]. split; [reflexivity|].
  assert (Hlen_data : length (GenericService.data r)
                      = length (take (Z.to_nat n) (drop offset sorted)))
    by (rewrite Hdata; apply length_map).
  split.
  { rewrite Hlen_data, length_take. lia. }
  split.
  { rewrite Hlen_data, length_take, length_drop, Htotal, <- Hlen. lia. }
  split.
  { rewrite Hdata. apply Forall_forall. intros v Hv.
    apply list_elem_of_In, List.in_map_iff in Hv. destruct Hv as (x & <- & Hx).
    apply list_elem_of_In, elem_of_take in Hx. destruct Hx as (i & Hx & _).
    rewrite lookup_drop in Hx. apply list_elem_of_lookup_2, list_elem_of_In, Hin in Hx.
    apply List.filter_In in Hx. destruct Hx as [Hx Hm]. eauto. }
  split; [exact Htotal|].
  intros page' limit' sortBy' sortOrder' st'' r' H'.
  destruct (list_run _ _ _ _ _ _ _ _ _ H')
    as (_ & t' & _ & Ht' & _ & _ & Htotal' & _).
  rewrite Ht in Ht'. injection Ht' as <-. rewrite Htotal', Htotal. reflexivity.
Qed.

(** The first page of two of the three seeded countries, sorted by name. *)
Lemma list_window_and_total_witness :
  plain_names "countries" [("code", JStr "")]
  /\ plain_sort (JStr "name") (JStr "asc")
  /\ exists r,
       run (GenericService.list_ "countries" (Fin 1) (Fin 2) [("code", JStr "")]
              (JStr "name") (JStr "asc")) Scenario.fresh
       = (Return r, Scenario.fresh)
       /\ Z.of_nat (length (GenericService.data r)) <= 2
       /\ GenericService.total r = 3.
Proof.
  assert (Hn : plain_names "countries" [("code", JStr "")]).
  { split; [reflexivity|]. split.
    - intros k [<-|[]] _. reflexivity.
    - intros o H. discriminate. }
  assert (Hs : plain_sort (JStr "name") (JStr "asc")) by (intros _; reflexivity).
  split; [exact Hn|]. split; [exact Hs|].
  eexists. split; [vm_compute; reflexivity|].
  match goal with
  | |- Z.of_nat (length (GenericService.data ?r)) <= _ /\ _ =>
      assert (H : run (GenericService.list_ "countries" (Fin 1) (Fin 2) [("code", JStr "")]
                         (JStr "name") (JStr "asc")) Scenario.fresh
                  = (Return r, Scenario.fresh)) by (vm_compute; reflexivity)
  end.
  destruct (list_window_and_total _ _ _ _ _ _ _ _ _ Hn Hs H)
    as (t & n & Ht & Hlim & Hlen & _ & _ & Htotal & _).
  injection Hlim as <-. split; [exact Hlen|].
  rewrite Htotal. vm_compute in Ht. injection Ht as <-. reflexivity.
Defined.

(** C7 fails as stated. The sort parameter is pasted into the statement
    as it comes: with [sortBy] holding [id LIMIT 100 -- ] the engine reads
    a LIMIT of 100 and takes the rest of the line, the LIMIT and OFFSET of
    the program included, for a comment. The call for pages of two rows
    returns the three rows of the table. *)
Lemma list_window_counterexample :
  exists r,
    run (GenericService.list_ "countries" (Fin 1) (Fin 2) []
           (JStr "id LIMIT 100 -- ") (JStr "asc")) Scenario.fresh
    = (Return r, Scenario.fresh)
    /\ length (GenericService.data r) = 3%nat
    /\ GenericService.total r = 3
    /\ ~ (Z.of_nat (length (GenericService.data r)) <= 2).
Proof.
  eexists. split; [vm_compute; reflexivity|].
  split; [reflexivity|]. split; [reflexivity|]. cbn. lia.
Qed.

(* ===================================================================== *)
(** * [list]: the search clause *)
(* ===================================================================== *)

(** The loop throws only on the reserved key, when its value is not a
    search object. *)
Lemma whereStep_no_throw (f : object) (acc : list cond * gmap string value)
    (key : string) :
  key <> "_search" \/ is_Some (search_of (obj_get f key)) ->
  exists acc', GenericService.whereStep f acc key = Return acc'.
Proof.
  intros H. destruct acc as [cs repl]. unfold GenericService.whereStep.
  destruct (negb (is_undefined (obj_get f key))
            && negb (is_empty_string (obj_get f key))); [|eauto].
  destruct (String.eqb_spec key "_search") as [->|Hne]; cbn [andb]; [|eauto].
  destruct H as [H|[[cols q] H]]; [contradiction|].
  destruct (obj_get f "_search") as [| |b|n|s|l|o]; cbn; eauto; try discriminate.
  cbn in H. destruct (obj_get o "columns") as [| |b|n|s|l|o']; try discriminate.
  destruct l as [|col l]; [discriminate|].
  destruct (truthy (obj_get o "query")); cbn; eauto.
Qed.

Lemma whereLoop_no_throw (f : object) (ks : list string)
    (acc : list cond * gmap string value) :
  (forall k, In k ks -> k <> "_search" \/ is_Some (search_of (obj_get f k))) ->
  exists acc', GenericService.whereLoop f ks acc = Return acc'.
Proof.
  revert acc. induction ks as [|key ks IH]; intros acc H; [cbn; eauto|].
  rewrite whereLoop_cons.
  destruct (whereStep_no_throw f acc key (H key (or_introl eq_refl))) as [acc1 ->].
  apply IH. intros k Hk. apply H. right. exact Hk.
Qed.

Lemma omap_all_Some {A B : Type} (f : A -> option B) (g : A -> B) (l : list A) :
  (forall x, In x l -> f x = Some (g x)) -> omap f l = List.map g l.
Proof.
  induction l as [|x l IH]; intros H; [reflexivity|].
  cbn. rewrite (H x (or_introl eq_refl)). f_equal. apply IH.
  intros y Hy. apply H. right. exact Hy.
Qed.

Lemma obj_set_define (o : object) (k : string) (v : value) :
  k <> "__proto__" -> obj_set o k v = define o k v.
Proof.
  intros H. unfold obj_set. destruct (String.eqb_spec k "__proto__"); [contradiction|reflexivity].
Qed.

Lemma obj_get_set (o : object) (k : string) (v : value) :
  k <> "__proto__" -> obj_get (obj_set o k v) k = v.
Proof.
  intros Hk. rewrite (obj_set_define _ _ _ Hk).
  induction o as [|[k' v'] o IH]; cbn.
  - rewrite String.eqb_refl. reflexivity.
  - destruct (String.eqb_spec k' k) as [->|Hne]; cbn.
    + rewrite String.eqb_refl. reflexivity.
    + destruct (String.eqb_spec k' k); [contradiction|exact IH].
Qed.

(** The text of the LIKE comparisons, column by column. *)
Lemma searchClauses_text (cols : list value) (idx : nat) :
  List.map render_atom (GenericService.searchClauses cols idx)
  = imap (fun i col => ToString col +:+ " LIKE :search_"
                       +:+ decimal (Z.of_nat (idx + i))) cols.
Proof.
  revert idx. induction cols as [|col cols IH]; intros idx; [reflexivity|].
  cbn [GenericService.searchClauses List.map imap]. f_equal.
  - cbn. rewrite Nat.add_0_r. reflexivity.
  - rewrite IH. apply imap_ext. intros i x _. cbn. rewrite Nat.add_succ_r. reflexivity.
Qed.

Lemma whereSQL_nonempty (c : cond) (cs : list cond) :
  GenericService.whereSQL (c :: cs)
  = "WHERE " +:+ join " AND " (List.map render_cond (c :: cs)).
Proof. reflexivity. Qed.

Lemma searchClauses_lookup (cols : list value) (idx i : nat) (col : value) :
  cols !! i = Some col ->
  In (Like (ToString col) (GenericService.paramName (idx + i)))
     (GenericService.searchClauses cols idx).
Proof.
  revert idx i. induction cols as [|c cols IH]; intros idx i H; [discriminate|].
  destruct i as [|i]; cbn in *.
  - injection H as ->. left. rewrite Nat.add_0_r. reflexivity.
  - right. rewrite Nat.add_succ_r. apply (IH (S idx) i H).
Qed.

Lemma clause_text_render (cols : list value) (k : string) :
  render_cond (clause_of cols k) = clause_text cols k.
Proof.
  unfold clause_of, clause_text. destruct (String.eqb k "_search"); [|reflexivity].
  cbn [render_cond]. rewrite searchClauses_text. reflexivity.
Qed.

Lemma loadSearch_run (table : string) (p : GenericController.parsed) (st : state)
    (rows rest : list config_row) (c : config_row) (col : string) (cols : list string) :
  truthy (GenericController.searchQuery p) = true ->
  configurations (db st) = Some rows ->
  List.filter (fun c => named table c && active c) rows = c :: rest ->
  cfg_searchable_columns c = Some (col :: cols) ->
  run (GenericController.loadSearch table p) st
  = (Return (obj_set (GenericController.filters p) "_search"
               (JObj [("columns", names_value (col :: cols));
                      ("query", GenericController.searchQuery p)])), st).
Proof.
  intros Hq Hrows Hc Hs. unfold GenericController.loadSearch. rewrite Hq.
  unfold try_catch. cbn. unfold config_select_active, config_relation.
  rewrite Hrows. cbn. rewrite Hc. cbn. rewrite Hs. reflexivity.
Qed.

(** C6, as the code has it. When the [_search] filter holds a non-empty
    array of columns and a truthy query, and every other filter has a
    value that is neither [undefined] nor the empty string, the WHERE
    clause is the conjunction, in key order, of one equality [key =
    :filter_key] per ordinary key, bound to the filter's value, and of one
    parenthesised disjunction of [column LIKE :search_i], one per column,
    each bound to the query between two percent signs. The controller
    builds that [_search] filter from the searchable columns of the
    table's configuration row that is not deleted. *)
Theorem search_where_clause :
  (forall (f : object) (cols : list value) (q : value) (limit offset : number),
      search_of (obj_get f "_search") = Some (cols, q) ->
      In "_search" (keys f) ->
      (forall k, In k (keys f) -> k <> "_search" -> present (obj_get f k) = true) ->
      exists repl,
        GenericService.buildWhere f limit offset
        = Return (List.map (clause_of cols) (keys f), repl)
        /\ GenericService.whereSQL (List.map (clause_of cols) (keys f))
           = "WHERE " +:+ join " AND " (List.map (clause_text cols) (keys f))
        /\ (forall k, In k (keys f) -> k <> "_search" ->
                      repl !! ("filter_" +:+ k) = Some (obj_get f k))
        /\ (forall i col, cols !! i = Some col ->
                          repl !! GenericService.paramName i
                          = Some (JStr (search_pattern q))))
  /\ (forall (table : string) (p : GenericController.parsed) (st : state)
             (rows rest : list config_row) (c : config_row)
             (col : string) (cols : list string),
        truthy (GenericController.searchQuery p) = true ->
        configurations (db st) = Some rows ->
        List.filter (fun c => named table c && active c) rows = c :: rest ->
        cfg_searchable_columns c = Some (col :: cols) ->
        exists f,
          run (GenericController.loadSearch table p) st = (Return f, st)
          /\ In "_search" (keys f)
          /\ search_of (obj_get f "_search")
             = Some (JStr <$> (col :: cols), GenericController.searchQuery p)).
Proof.
  split.
  - intros f cols q limit offset Hs Hin Hord.
    assert (Hconj : forall k, In k (keys f) ->
                              conjunct k (obj_get f k) = Some (clause_of cols k)).
    { intros k Hk. unfold conjunct, clause_of.
      destruct (String.eqb_spec k "_search") as [->|Hne].
      - rewrite Hs. destruct (obj_get f "_search"); try discriminate. reflexivity.
      - rewrite (Hord k Hk Hne). reflexivity. }
    destruct (whereLoop_no_throw f (keys f)
                ([], <["limit" := JNum limit]> (<["offset" := JNum offset]> ∅)))
      as [[cs repl] Hloop].
    { intros k Hk. destruct (String.eqb_spec k "_search") as [->|Hne]; [|auto].
      right. rewrite Hs. eauto. }
    destruct (buildWhere_spec f limit offset cs repl Hloop) as (-> & Hco & Hb).
    rewrite (omap_all_Some _ _ _ Hconj) in Hloop.
    exists repl. split; [exact Hloop|]. split.
    { destruct (keys f) as [|k ks] eqn:Ek; [contradiction|].
      change (List.map (clause_of cols) (k :: ks))
        with (clause_of cols k :: List.map (clause_of cols) ks) at 1.
      rewrite whereSQL_nonempty.
      change (clause_of cols k :: List.map (clause_of cols) ks)
        with (List.map (clause_of cols) (k :: ks)).
      rewrite List.map_map.
      rewrite (List.map_ext _ _ (clause_text_render cols)). reflexivity. }
    split.
    { intros k Hk Hne.
      destruct (Hb k _ (Eq k ("filter_" +:+ k)) Hk (Hconj k Hk)) as [v Hv].
      { unfold clause_of. destruct (String.eqb_spec k "_search"); [contradiction|].
        left. reflexivity. }
      cbn in Hv. rewrite Hv. f_equal.
      apply (proj1 (Hco _ _ Hv) k eq_refl). }
    { intros i col Hcol.
      destruct (Hb "_search" _ (Like (ToString col) (GenericService.paramName i))
                   Hin (Hconj _ Hin)) as [v Hv].
      { unfold clause_of. cbn. apply (searchClauses_lookup cols 0 i col Hcol). }
      cbn in Hv. rewrite Hv.
      destruct (proj2 (Hco _ _ Hv) (paramName_prefix i)) as (cols' & q' & Hs' & ->).
      rewrite Hs in Hs'. injection Hs' as <- <-. reflexivity. }
  - intros table p st rows rest c col cols Hq Hrows Hc Hsc.
    eexists. split; [eapply loadSearch_run; eassumption|]. split.
    + clear. induction (GenericController.filters p) as [|[k v] o IH]; cbn; [auto|].
      destruct (String.eqb k "_search"); cbn; auto.
    + rewrite obj_get_set by discriminate. cbn. rewrite Hq. reflexivity.
Qed.

(** A [code] filter next to a search over [name]. *)
Lemma search_where_clause_witness :
  search_of (obj_get Scenario.code_and_search "_search") = Some ([JStr "name"], JStr "nd")
  /\ exists repl,
       GenericService.buildWhere Scenario.code_and_search (Fin 30) (Fin 0)
       = Return ([Atom (Eq "code" "filter_code"); AnyOf [Like "name" "search_0"]], repl)
       /\ GenericService.whereSQL
            [Atom (Eq "code" "filter_code"); AnyOf [Like "name" "search_0"]]
          = "WHERE code = :filter_code AND (name LIKE :search_0)"
       /\ repl !! "filter_code" = Some (JStr "IND")
       /\ repl !! "search_0" = Some (JStr "%nd%").
Proof.
  split; [reflexivity|].
  destruct (proj1 search_where_clause Scenario.code_and_search [JStr "name"] (JStr "nd")
              (Fin 30) (Fin 0) eq_refl)
    as (repl & Hb & Hsql & Hf & Hsearch).
  - right. left. reflexivity.
  - intros k [<-|[<-|[]]] Hne; [reflexivity|contradiction].
  - exists repl. split; [exact Hb|]. split; [reflexivity|]. split.
    + apply (Hf "code"); [left; reflexivity|discriminate].
    + apply (Hsearch 0%nat (JStr "name")). reflexivity.
Defined.

(** C6 fails as stated: the ordinary key [code], whose value is the empty
    string, has no predicate in the WHERE clause. *)
Lemma search_where_clause_counterexample :
  In "code" (keys Scenario.empty_code_and_search)
  /\ exists repl,
       GenericService.buildWhere Scenario.empty_code_and_search (Fin 30) (Fin 0)
       = Return ([AnyOf [Like "name" "search_0"]], repl)
       /\ GenericService.whereSQL [AnyOf [Like "name" "search_0"]]
          = "WHERE (name LIKE :search_0)"
       /\ repl !! "filter_code" = None.
Proof.
  split; [left; reflexivity|].
  eexists. split; [reflexivity|]. split; reflexivity.
Qed.

(* ===================================================================== *)
(** * [create]: validation *)
(* ===================================================================== *)

Lemma run_for_of_cons {A : Type} (x : A) (l : list A) (body : A -> M unit) (st : state) :
  run (for_of (x :: l) body) st =
  match run (body x) st with
  | (Return _, st') => run (for_of l body) st'
  | (Throw e, st') => (Throw e, st')
  end.
Proof. reflexivity. Qed.

Lemma validateColumn_cases (data : object) (col : column) (st : state) :
  (~ missing_required data col /\ ~ too_long data col
   /\ run (GenericService.validateColumn data col) st = (Return tt, st))
  \/ (missing_required data col
      /\ run (GenericService.validateColumn data col) st = (Throw (required_error col), st))
  \/ (exists maxLength,
        col_maxLength col = Some maxLength
        /\ too_long data col
        /\ run (GenericService.validateColumn data col) st
           = (Throw (too_long_error col maxLength), st)).
Proof.
  unfold GenericService.validateColumn, missing_required, too_long.
  rewrite run_bind.
  destruct (col_nullable col) eqn:Hn; cbn [negb andb].
  2: destruct (col_isAutoIncrement col) eqn:Ha; cbn [negb andb].
  3: destruct (is_undefined (obj_get data (col_name col))) eqn:Hu.
  3: { right. left. split; [|reflexivity].
       destruct (obj_get data (col_name col)); try discriminate. auto. }
  all: cbn [run mret M_ret throw_new throw].
  all: destruct (col_maxLength col) as [maxLength|] eqn:Hmax;
    [|left; split; [intros (? & ? & ?); try discriminate;
                    match goal with
                    | H : obj_get _ _ = JUndefined |- _ => rewrite H in *; discriminate
                    end
                   |split; [intros (m & ? & _); discriminate|reflexivity]]].
  all: destruct (negb (maxLength =? 0) && truthy (obj_get data (col_name col))
                 && (maxLength <? Z.of_nat (utf16_length
                                              (ToString (obj_get data (col_name col))))))
         eqn:Hc.
  all: try (right; right; exists maxLength; split; [reflexivity|];
            apply andb_prop in Hc; destruct Hc as [Hc Hlt];
            apply andb_prop in Hc; destruct Hc as [Hz Ht];
            split; [exists maxLength; repeat split;
                    [apply negb_true_iff, Z.eqb_neq in Hz; exact Hz
                    |exact Ht|apply Z.ltb_lt, Hlt]
                   |reflexivity]).
  all: left; split;
    [intros (? & ? & ?); try discriminate;
     match goal with
     | H : obj_get _ _ = JUndefined |- _ => rewrite H in *; discriminate
     end
    |split; [|reflexivity]].
  all: intros (m & [= <-] & Hz & Ht & Hlt);
    apply Z.eqb_neq in Hz; apply Z.ltb_lt in Hlt;
    rewrite Hz, Ht, Hlt in Hc; discriminate.
Qed.

(** The validation loop stops at the first column in error, and leaves the
    state as it is. *)
Lemma validate_outcome (data : object) (columns : list column) (st : state) :
  (Forall (fun col => ~ missing_required data col /\ ~ too_long data col) columns
   /\ run (for_of columns (GenericService.validateColumn data)) st = (Return tt, st))
  \/ (Exists (fun col => missing_required data col \/ too_long data col) columns
      /\ exists e, validation_error columns e
                   /\ run (for_of columns (GenericService.validateColumn data)) st
                      = (Throw e, st)).
Proof.
  induction columns as [|col columns IH].
  - left. split; [constructor|reflexivity].
  - rewrite run_for_of_cons.
    destruct (validateColumn_cases data col st)
      as [(Hm & Hl & ->)|[(Hm & ->)|(maxLength & Hmax & Hl & ->)]].
    + destruct IH as [(Hall & ->)|(Hex & e & (c & Hc & He) & ->)].
      * left. split; [constructor; auto|reflexivity].
      * right. split; [apply Exists_cons_tl, Hex|].
        exists e. split; [|reflexivity]. exists c. split; [right; exact Hc|exact He].
    + right. split; [apply Exists_cons_hd; auto|].
      eexists. split; [|reflexivity]. exists col. split; [left; reflexivity|auto].
    + right. split; [apply Exists_cons_hd; auto|].
      eexists. split; [|reflexivity]. exists col. split; [left; reflexivity|].
      right. eauto.
Qed.

Lemma validate_passes (data : object) (columns : list column) (st : state) :
  Forall (fun col => ~ missing_required data col /\ ~ too_long data col) columns ->
  run (for_of columns (GenericService.validateColumn data)) st = (Return tt, st).
Proof.
  intros Hall. destruct (validate_outcome data columns st) as [(_ & H)|(Hex & _)];
    [exact H|].
  exfalso. apply Exists_exists in Hex. destruct Hex as (col & Hin & Hbad).
  rewrite Forall_forall in Hall. destruct (Hall col Hin) as [Hm Hl].
  destruct Hbad; contradiction.
Qed.

(** On a table that exists, [getTableMetadata] returns, leaves the
    database as it is, and leaves the returned metadata in the cache. *)
Lemma getTableMetadata_present (st : state) (name : string) (t : table) :
  tables (db st) !! name = Some t ->
  exists md st',
    run (getTableMetadata name) st = (Return md, st')
    /\ db st' = db st
    /\ metadataCache st' !! name = Some md
    /\ (reads_catalog st name -> md = buildMetadata name (t_columns t)).
Proof.
  intros Ht. destruct (metadataCache st !! name) as [md|] eqn:Hc.
  - exists md, st. split; [apply getTableMetadata_hit, Hc|].
    split; [reflexivity|]. split; [exact Hc|].
    intros [Hco|Hmiss]; [|congruence].
    destruct (Hco _ _ Hc) as (t' & Ht' & ->). rewrite Ht in Ht'. injection Ht' as <-.
    reflexivity.
  - eexists _, _. split; [apply getTableMetadata_miss_present; eassumption|].
    split; [reflexivity|]. split; [apply lookup_insert_eq|].
    intros _. reflexivity.
Qed.

(** [create] on a table that exists, step by step. *)
Lemma create_run (st : state) (table : string) (t : Sql.table) (data : object) :
  tables (db st) !! table = Some t ->
  exists md st1,
    run (getTableMetadata table) st = (Return md, st1)
    /\ db st1 = db st
    /\ (reads_catalog st table -> md = buildMetadata table (t_columns t))
    /\ run (GenericService.create table data) st =
       match run (for_of (md_columns md) (GenericService.validateColumn data)) st1 with
       | (Throw e, s) => (Throw e, s)
       | (Return _, s) =>
           match run (GenericService.uniqueConstraints table data [] ∅) s with
           | (Throw e, s') => (Throw e, s')
           | (Return _, s') =>
               match run (execute (fun d => insert_row d table (keys data) (values data))) s' with
               | (Throw e, s'') => (Throw e, s'')
               | (Return id, s'') => (Return (JNum (Fin id)), s'')
               end
           end
       end.
Proof.
  intros Ht. destruct (getTableMetadata_present st table t Ht)
    as (md & st1 & Hmd & Hdb & _ & Hco).
  exists md, st1. split; [exact Hmd|]. split; [exact Hdb|].
  split; [exact Hco|].
  unfold GenericService.create. rewrite run_bind, requireTable_run, Ht.
  rewrite run_bind, Hmd. rewrite run_bind.
  destruct (run (for_of (md_columns md) (GenericService.validateColumn data)) st1)
    as [[[]|e] s]; [|reflexivity].
  rewrite run_bind.
  destruct (run (GenericService.uniqueConstraints table data [] ∅) s)
    as [[[]|e] s']; [|reflexivity].
  rewrite run_bind.
  destruct (run (execute (fun d => insert_row d table (keys data) (values data))) s')
    as [[id|e] s'']; reflexivity.
Qed.


(** The length that counts is that of the JavaScript string: three
    letters outside ASCII, six bytes in UTF-8, are three code units. *)
Example utf16_length_letters :
  let s := String "195" (String "132" (String "195" (String "150"
             (String "195" (String "156" EmptyString))))) in
  utf16_length s = 3%nat /\ String.length s = 6%nat.
Proof. split; reflexivity. Qed.




(* ===================================================================== *)
(** * [create] and [update]: the uniqueness check *)
(* ===================================================================== *)

Lemma includes_append (a b needle : string) :
  includes b needle = true -> includes (a +:+ b) needle = true.
Proof.
  intros H. induction a as [|c a IH]; simpl; [exact H|].
  rewrite IH. apply orb_true_r.
Qed.

Lemma conflict_error_is_conflict (column : string) (v : value) :
  is_conflict (conflict_error column v) = true.
Proof.
  unfold is_conflict, conflict_error, GenericService.alreadyExists. cbn [message].
  do 4 apply includes_append. reflexivity.
Qed.

(** The body of the loop over the unique columns. *)
Lemma checkUnique_run (table : string) (data : object) (others : list cond)
    (repl : gmap string value) (column : string) (st : state) :
  run (GenericService.checkUnique table data others repl column) st =
  (if supplied_value (obj_get data column) then
     match count_rows (db st) table (Atom (Eq column "value") :: others)
                      (<["value" := obj_get data column]> repl) with
     | Return n =>
         if 0 <? n then Throw (conflict_error column (obj_get data column))
         else Return tt
     | Throw e => Throw e
     end
   else Return tt, st).
Proof.
  unfold GenericService.checkUnique, supplied_value.
  destruct (negb (is_undefined (obj_get data column))
            && negb (is_null (obj_get data column))); [|reflexivity].
  rewrite run_bind. cbn [query run].
  destruct (count_rows (db st) table (Atom (Eq column "value") :: others)
                       (<["value" := obj_get data column]> repl)) as [n|e];
    [|reflexivity].
  destruct (0 <? n); reflexivity.
Qed.

(** The loop reads the database and does not change the state. *)
Lemma unique_loop_state (table : string) (data : object) (others : list cond)
    (repl : gmap string value) (columns : list string) (st : state) :
  snd (run (for_of columns (GenericService.checkUnique table data others repl)) st) = st.
Proof.
  induction columns as [|c columns IH]; [reflexivity|].
  rewrite run_for_of_cons, checkUnique_run.
  destruct (supplied_value (obj_get data c)); [|exact IH].
  destruct (count_rows (db st) table (Atom (Eq c "value") :: others)
                       (<["value" := obj_get data c]> repl)) as [n|e]; [|reflexivity].
  destruct (0 <? n); [reflexivity|exact IH].
Qed.

(** The [try]/[catch] block is the loop over the configured unique
    columns, with every error that is not a conflict dropped. *)
Lemma uniqueConstraints_run (table : string) (data : object) (others : list cond)
    (repl : gmap string value) (st : state) :
  run (GenericService.uniqueConstraints table data others repl) st =
  (match fst (run (for_of (unique_columns (db st) table)
                          (GenericService.checkUnique table data others repl)) st) with
   | Return _ => Return tt
   | Throw e => if is_conflict e then Throw e else Return tt
   end, st).
Proof.
  unfold GenericService.uniqueConstraints, try_catch, unique_columns. cbn [run].
  rewrite run_bind. cbn [query run]. unfold config_select_active, config_relation.
  destruct (configurations (db st)) as [rows|]; [|reflexivity].
  cbn [mbind outcome_bind].
  set (loop := fun columns =>
         run (for_of columns (GenericService.checkUnique table data others repl)) st).
  assert (Hloop : forall columns,
             match loop columns with
             | (Return a, st') => (Return a, st')
             | (Throw e, st') =>
                 run (if includes (message e) "already exists"
                      then throw e else mret tt) st'
             end
             = (match fst (loop columns) with
                | Return _ => Return tt
                | Throw e => if is_conflict e then Throw e else Return tt
                end, st)).
  { intros columns. pose proof (unique_loop_state table data others repl columns st) as Hst.
    fold (loop columns) in Hst. destruct (loop columns) as [[[]|e] st']; cbn in *; subst st'.
    - reflexivity.
    - unfold is_conflict. destruct (includes (message e) "already exists"); reflexivity. }
  destruct (List.filter (fun c => named table c && active c) rows) as [|config rest].
  - reflexivity.
  - destruct (cfg_unique_constraints config) as [columns|]; [|reflexivity].
    apply Hloop.
Qed.

(** Whatever happens inside, the block completes normally or throws an
    error whose message contains 'already exists'. *)
Lemma uniqueConstraints_outcome (table : string) (data : object) (others : list cond)
    (repl : gmap string value) (st : state) :
  run (GenericService.uniqueConstraints table data others repl) st = (Return tt, st)
  \/ exists e, is_conflict e = true
               /\ run (GenericService.uniqueConstraints table data others repl) st
                  = (Throw e, st).
Proof.
  rewrite uniqueConstraints_run.
  destruct (fst (run (for_of (unique_columns (db st) table)
                             (GenericService.checkUnique table data others repl)) st))
    as [[]|e]; [left; reflexivity|].
  destruct (is_conflict e) eqn:E; [right; eauto|left; reflexivity].
Qed.

(** The COUNT of [create]: the rows holding the value in the column. *)
Lemma count_holding (d : database) (table : string) (t : Sql.table) (c : string)
    (v : value) :
  tables d !! table = Some t ->
  has_column t c = true ->
  is_undefined v = false ->
  is_Some (bind_value v) ->
  count_rows d table [Atom (Eq c "value")] (<["value" := v]> ∅)
  = Return (Z.of_nat (length (List.filter (holds_value t c v) (t_rows t)))).
Proof.
  intros Ht Hc Hu [lit Hlit]. unfold count_rows, lookup_table. rewrite Ht.
  cbn [mbind outcome_bind compile_where compile_cond]. unfold compile_atom.
  cbn [atom_param atom_col atom_op].
  rewrite (parameter_present _ _ v (lookup_insert_eq _ _ _) Hu), Hlit, Hc.
  cbn. do 3 f_equal. apply List.filter_ext. intros r.
  unfold holds_value. rewrite Hlit. apply andb_true_r.
Qed.

(** The COUNT of [update]: the rows holding the value in the column whose
    primary key is known to differ from [id]. *)
Lemma count_holding_others (d : database) (table : string) (t : Sql.table)
    (c pk : string) (v id : value) (idlit : sqlval) :
  tables d !! table = Some t ->
  has_column t c = true ->
  is_undefined v = false ->
  is_Some (bind_value v) ->
  has_column t pk = true ->
  is_undefined id = false ->
  bind_value id = Some idlit ->
  count_rows d table [Atom (Eq c "value"); Atom (NotEq pk "id")]
             (<["value" := v]> {["id" := id]})
  = Return (Z.of_nat (length (List.filter
              (fun r => holds_value t c v r
                        && bool_decide (sql_not (sql_eq t pk (cell r pk) idlit) = Some true))
              (t_rows t)))).
Proof.
  intros Ht Hc Hu [lit Hlit] Hpk Hid Hidlit. unfold count_rows, lookup_table. rewrite Ht.
  cbn [mbind outcome_bind compile_where compile_cond]. unfold compile_atom.
  cbn [atom_param atom_col atom_op].
  rewrite (parameter_present _ _ v (lookup_insert_eq _ _ _) Hu), Hlit, Hc.
  cbn [mbind outcome_bind].
  rewrite (parameter_present _ "id" id); [|
    rewrite lookup_insert_ne by discriminate; apply lookup_singleton_eq|exact Hid].
  rewrite Hidlit, Hpk. cbn. do 3 f_equal. apply List.filter_ext. intros r.
  unfold holds_value. rewrite Hlit. rewrite andb_true_r. reflexivity.
Qed.

Lemma obj_get_In (o : object) (k : string) :
  is_undefined (obj_get o k) = false ->
  In k (keys o) /\ In (obj_get o k) (values o).
Proof.
  induction o as [|[k' v] o IH]; cbn; [discriminate|].
  destruct (String.eqb_spec k' k) as [->|_]; [auto|].
  intros H. destruct (IH H). auto.
Qed.

Lemma supplied_value_defined (v : value) :
  supplied_value v = true -> is_undefined v = false.
Proof. destruct v; cbn; congruence. Qed.

(** The loop over the unique columns, for a COUNT that reads the rows
    [rows]: it stops at the first column that conflicts on them. *)
Lemma unique_loop_first (st : state) (table : string) (t : Sql.table) (data : object)
    (others : list cond) (repl : gmap string value) (rows : list row)
    (before after : list string) (c : string) :
  (forall c0, supplied_value (obj_get data c0) = true ->
              count_rows (db st) table (Atom (Eq c0 "value") :: others)
                         (<["value" := obj_get data c0]> repl)
              = Return (Z.of_nat (length (List.filter (holds_value t c0 (obj_get data c0))
                                                      rows)))) ->
  Forall (fun c0 => ~ conflicts t data rows c0) before ->
  conflicts t data rows c ->
  run (for_of (before ++ c :: after) (GenericService.checkUnique table data others repl)) st
  = (Throw (conflict_error c (obj_get data c)), st).
Proof.
  intros Hcount Hbefore [Hsup Hrow].
  induction before as [|c0 before IH]; cbn [app]; rewrite run_for_of_cons, checkUnique_run.
  - rewrite Hsup, (Hcount c Hsup).
    destruct (List.filter (holds_value t c (obj_get data c)) rows) as [|r rs] eqn:Ef;
      [|reflexivity].
    exfalso. apply Exists_exists in Hrow. destruct Hrow as (r & Hin & Hr).
    assert (Hf : In r (List.filter (holds_value t c (obj_get data c)) rows))
      by (apply List.filter_In; split; [apply list_elem_of_In, Hin|exact Hr]).
    rewrite Ef in Hf. contradiction.
  - inversion Hbefore as [|? ? Hc0 Hrest]; subst.
    destruct (supplied_value (obj_get data c0)) eqn:Hs0; [|apply IH, Hrest].
    rewrite (Hcount c0 Hs0).
    destruct (List.filter (holds_value t c0 (obj_get data c0)) rows) as [|r rs] eqn:Ef.
    + cbn. apply IH, Hrest.
    + exfalso. apply Hc0. split; [exact Hs0|].
      apply Exists_exists. exists r.
      assert (Hf : In r (List.filter (holds_value t c0 (obj_get data c0)) rows))
        by (rewrite Ef; left; reflexivity).
      apply List.filter_In in Hf. destruct Hf as [Hin Hr].
      split; [apply list_elem_of_In, Hin|exact Hr].
Qed.

(** The loop completes when no column conflicts on the rows read. *)
Lemma unique_loop_none (st : state) (table : string) (t : Sql.table) (data : object)
    (others : list cond) (repl : gmap string value) (rows : list row)
    (columns : list string) :
  (forall c0, supplied_value (obj_get data c0) = true ->
              count_rows (db st) table (Atom (Eq c0 "value") :: others)
                         (<["value" := obj_get data c0]> repl)
              = Return (Z.of_nat (length (List.filter (holds_value t c0 (obj_get data c0))
                                                      rows)))) ->
  Forall (fun c0 => ~ conflicts t data rows c0) columns ->
  run (for_of columns (GenericService.checkUnique table data others repl)) st
  = (Return tt, st).
Proof.
  intros Hcount Hnone. induction columns as [|c0 columns IH]; [reflexivity|].
  rewrite run_for_of_cons, checkUnique_run.
  inversion Hnone as [|? ? Hc0 Hrest]; subst.
  destruct (supplied_value (obj_get data c0)) eqn:Hs0; [|apply IH, Hrest].
  rewrite (Hcount c0 Hs0).
  destruct (List.filter (holds_value t c0 (obj_get data c0)) rows) as [|r rs] eqn:Ef.
  - cbn. apply IH, Hrest.
  - exfalso. apply Hc0. split; [exact Hs0|].
    apply Exists_exists. exists r.
    assert (Hf : In r (List.filter (holds_value t c0 (obj_get data c0)) rows))
      by (rewrite Ef; left; reflexivity).
    apply List.filter_In in Hf. destruct Hf as [Hin Hr].
    split; [apply list_elem_of_In, Hin|exact Hr].
Qed.

Lemma filter_filter {A : Type} (f g : A -> bool) (l : list A) :
  List.filter f (List.filter g l) = List.filter (fun x => f x && g x) l.
Proof.
  induction l as [|x l IH]; [reflexivity|]. cbn.
  destruct (g x); cbn; [destruct (f x); cbn; rewrite IH; reflexivity|].
  rewrite andb_false_r. exact IH.
Qed.

(** The COUNT of [create], for a writable record. *)
Lemma count_create (st : state) (table : string) (t : Sql.table) (data : object) :
  tables (db st) !! table = Some t ->
  writable t data ->
  forall c0, supplied_value (obj_get data c0) = true ->
             count_rows (db st) table [Atom (Eq c0 "value")]
                        (<["value" := obj_get data c0]> ∅)
             = Return (Z.of_nat (length (List.filter (holds_value t c0 (obj_get data c0))
                                                     (t_rows t)))).
Proof.
  intros Ht [Hkeys Hvals] c0 Hsup.
  pose proof (supplied_value_defined _ Hsup) as Hu.
  destruct (obj_get_In data c0 Hu) as [Hk Hv].
  apply count_holding; auto.
Qed.

(** The COUNT of [update], for a writable record: the rows other than
    those identified by [id]. *)
Lemma count_update (st : state) (table : string) (t : Sql.table) (data : object)
    (pk : string) (id : value) :
  tables (db st) !! table = Some t ->
  writable t data ->
  has_column t pk = true ->
  is_undefined id = false ->
  is_Some (bind_value id) ->
  forall c0, supplied_value (obj_get data c0) = true ->
             count_rows (db st) table [Atom (Eq c0 "value"); Atom (NotEq pk "id")]
                        (<["value" := obj_get data c0]> {["id" := id]})
             = Return (Z.of_nat (length (List.filter (holds_value t c0 (obj_get data c0))
                                                     (other_rows t pk id)))).
Proof.
  intros Ht [Hkeys Hvals] Hpk Hid [idlit Hidlit] c0 Hsup.
  pose proof (supplied_value_defined _ Hsup) as Hu.
  destruct (obj_get_In data c0 Hu) as [Hk Hv].
  rewrite (count_holding_others _ _ t c0 pk _ id idlit Ht (Hkeys _ Hk) Hu (Hvals _ Hv)
             Hpk Hid Hidlit).
  unfold other_rows. rewrite filter_filter. do 3 f_equal.
  apply List.filter_ext. intros r. unfold differs. rewrite Hidlit. reflexivity.
Qed.

(** A row identified by [id] is none of the other rows. *)
Lemma own_row_excluded (t : Sql.table) (pk : string) (id : value) (r : row) :
  holds_value t pk id r = true -> ~ In r (other_rows t pk id).
Proof.
  unfold holds_value, other_rows, differs. intros H Hin.
  apply List.filter_In in Hin. destruct Hin as [_ Hd].
  destruct (bind_value id) as [lit|]; [|discriminate].
  apply bool_decide_eq_true in H. rewrite H in Hd. discriminate.
Qed.

Lemma check_columns_total (t : Sql.table) (cols : list string) (clause : string) :
  (forall k, In k cols -> has_column t k = true) ->
  check_columns t cols clause = Return tt.
Proof.
  intros H. unfold check_columns.
  destruct (List.find (fun c => negb (has_column t c)) cols) as [c|] eqn:E; [|reflexivity].
  apply List.find_some in E. destruct E as [Hin Hc].
  rewrite (H c Hin) in Hc. discriminate.
Qed.

(** [update] on a table that exists, step by step. *)
Lemma update_run (st : state) (table : string) (t : Sql.table) (id : value)
    (data : object) :
  tables (db st) !! table = Some t ->
  exists md st1,
    run (getTableMetadata table) st = (Return md, st1)
    /\ db st1 = db st
    /\ metadataCache st1 !! table = Some md
    /\ (reads_catalog st table -> md = buildMetadata table (t_columns t))
    /\ run (GenericService.update table id data) st =
       match run (GenericService.uniqueConstraints table data
                    [Atom (NotEq (md_primaryKey md) "id")] {["id" := id]}) st1 with
       | (Throw e, s) => (Throw e, s)
       | (Return _, s) =>
           match run (execute (fun d =>
                        d' ← update_rows d table (keys data) (values data)
                               (md_primaryKey md) id;
                        Return (tt, d'))) s with
           | (Throw e, s') => (Throw e, s')
           | (Return _, s') => run (GenericService.get table id) s'
           end
       end.
Proof.
  intros Ht. destruct (getTableMetadata_present st table t Ht)
    as (md & st1 & Hmd & Hdb & Hcache & Hco).
  exists md, st1. split; [exact Hmd|]. split; [exact Hdb|]. split; [exact Hcache|].
  split; [exact Hco|].
  unfold GenericService.update. rewrite run_bind, requireTable_run, Ht.
  rewrite run_bind, Hmd. rewrite run_bind.
  destruct (run (GenericService.uniqueConstraints table data
                   [Atom (NotEq (md_primaryKey md) "id")] {["id" := id]}) st1)
    as [[[]|e] s]; [|reflexivity].
  rewrite run_bind.
  destruct (run (execute (fun d =>
                   d' ← update_rows d table (keys data) (values data)
                          (md_primaryKey md) id;
                   Return (tt, d'))) s) as [[[]|e] s']; reflexivity.
Qed.

(** C1, as the code has it. On a table that exists and whose metadata is
    read from the catalog, for a record whose keys are columns of the
    table and whose values have literals, the configured unique columns
    being checked in their order and a row holding a value when the
    engine finds it equal:
    - [create] of a record that passes the column validation throws the
      conflict error of the first configured column that is supplied with
      a value some row holds, and writes nothing;
    - in [update] a row identified by [id] is none of the rows counted;
      the call throws the conflict error of the first configured column
      supplied with a value that some other row holds, and writes
      nothing; and when no configured column is supplied with a value
      that another row holds, the uniqueness check passes and the call
      goes on to its UPDATE and its SELECT, whose outcome is the outcome
      of the call. *)
Theorem unique_conflict_and_self_exclusion :
  (forall (st : state) (table : string) (t : Sql.table) (data : object)
          (before after : list string) (c : string),
      reads_catalog st table ->
      tables (db st) !! table = Some t ->
      Forall (fun col => ~ missing_required data col /\ ~ too_long data col)
             (List.map mapColumn (t_columns t)) ->
      writable t data ->
      unique_columns (db st) table = before ++ c :: after ->
      Forall (fun c0 => ~ conflicts t data (t_rows t) c0) before ->
      conflicts t data (t_rows t) c ->
      exists st',
        run (GenericService.create table data) st
        = (Throw (conflict_error c (obj_get data c)), st')
        /\ is_conflict (conflict_error c (obj_get data c)) = true
        /\ db st' = db st)
  /\ (forall (st : state) (table : string) (t : Sql.table) (id : value) (data : object),
        reads_catalog st table ->
        tables (db st) !! table = Some t ->
        has_column t (primary_key t) = true ->
        is_undefined id = false ->
        is_Some (bind_value id) ->
        writable t data ->
        (forall r, holds_value t (primary_key t) id r = true ->
                   ~ In r (other_rows t (primary_key t) id))
        /\ (forall (before after : list string) (c : string),
              unique_columns (db st) table = before ++ c :: after ->
              Forall (fun c0 => ~ conflicts t data (other_rows t (primary_key t) id) c0)
                     before ->
              conflicts t data (other_rows t (primary_key t) id) c ->
              exists st',
                run (GenericService.update table id data) st
                = (Throw (conflict_error c (obj_get data c)), st')
                /\ db st' = db st)
        /\ (Forall (fun c0 => ~ conflicts t data (other_rows t (primary_key t) id) c0)
                   (unique_columns (db st) table) ->
            exists st1,
              db st1 = db st
              /\ run (GenericService.uniqueConstraints table data
                        [Atom (NotEq (primary_key t) "id")] {["id" := id]}) st1
                 = (Return tt, st1)
              /\ run (GenericService.update table id data) st
                 = run (_ ← execute (fun d =>
                              d' ← update_rows d table (keys data) (values data)
                                     (primary_key t) id;
                              Return (tt, d'));
                        GenericService.get table id) st1)).
Proof.
  split.
  - intros st table t data before after c Hco Ht Hvalid Hw Hcols Hbefore Hc.
    destruct (create_run st table t data Ht) as (md & st1 & _ & Hdb & Hmd & ->).
    rewrite (Hmd Hco). cbn [md_columns buildMetadata].
    rewrite (validate_passes data _ st1 Hvalid).
    assert (Hrun : run (GenericService.uniqueConstraints table data [] ∅) st1
                   = (Throw (conflict_error c (obj_get data c)), st1)).
    { rewrite uniqueConstraints_run, Hdb, Hcols.
      rewrite (unique_loop_first st1 table t data [] ∅ (t_rows t) before after c);
        [|apply count_create; [rewrite Hdb; exact Ht|exact Hw]|exact Hbefore|exact Hc].
      cbn [fst]. rewrite conflict_error_is_conflict. reflexivity. }
    rewrite Hrun. exists st1. split; [reflexivity|].
    split; [apply conflict_error_is_conflict|exact Hdb].
  - intros st table t id data Hco Ht Hpk Hid Hbind Hw.
    split; [intros r; apply own_row_excluded|].
    destruct (update_run st table t id data Ht)
      as (md & st1 & _ & Hdb & Hcache & Hmd & Hupdate).
    rewrite (Hmd Hco) in *. cbn [md_primaryKey buildMetadata] in *.
    fold (primary_key t) in *.
    assert (Ht1 : tables (db st1) !! table = Some t) by (rewrite Hdb; exact Ht).
    split.
    + intros before after c Hcols Hbefore Hc.
      assert (Hrun : run (GenericService.uniqueConstraints table data
                            [Atom (NotEq (primary_key t) "id")] {["id" := id]}) st1
                     = (Throw (conflict_error c (obj_get data c)), st1)).
      { rewrite uniqueConstraints_run, Hdb, Hcols.
        rewrite (unique_loop_first st1 table t data _ _ (other_rows t (primary_key t) id)
                   before after c);
          [|apply count_update; assumption|exact Hbefore|exact Hc].
        cbn [fst]. rewrite conflict_error_is_conflict. reflexivity. }
      rewrite Hupdate, Hrun. exists st1. split; [reflexivity|exact Hdb].
    + intros Hnone.
      assert (Hrun : run (GenericService.uniqueConstraints table data
                            [Atom (NotEq (primary_key t) "id")] {["id" := id]}) st1
                     = (Return tt, st1)).
      { rewrite uniqueConstraints_run, Hdb.
        rewrite (unique_loop_none st1 table t data _ _ (other_rows t (primary_key t) id));
          [reflexivity|apply count_update; assumption|exact Hnone]. }
      exists st1. split; [exact Hdb|]. split; [exact Hrun|].
      rewrite Hupdate, Hrun. rewrite run_bind.
      destruct (run (execute (fun d =>
                       d' ← update_rows d table (keys data) (values data)
                              (primary_key t) id;
                       Return (tt, d'))) st1) as [[[]|e] s']; reflexivity.
Qed.

(** On the seeded database with [code] configured unique: creating a second
    country with the code USA conflicts; updating country 1 to its own
    code USA passes the check; and when a second row holds USA, the same
    update conflicts. *)
Lemma unique_conflict_and_self_exclusion_witness :
  (exists st',
      run (GenericService.create "countries"
             [("name", JStr "Atlantis"); ("code", JStr "USA")]) Scenario.fresh
      = (Throw (conflict_error "code" (JStr "USA")), st')
      /\ db st' = db Scenario.fresh)
  /\ (exists st1,
        db st1 = db Scenario.fresh
        /\ run (GenericService.uniqueConstraints "countries" [("code", JStr "USA")]
                  [Atom (NotEq "id" "id")] {["id" := JNum (Fin 1)]}) st1
           = (Return tt, st1))
  /\ (exists st',
        run (GenericService.update "countries" (JNum (Fin 1)) [("code", JStr "USA")])
            Scenario.fresh_twice
        = (Throw (conflict_error "code" (JStr "USA")), st')
        /\ db st' = db Scenario.fresh_twice).
Proof.
  assert (Hw : writable Scenario.countries [("code", JStr "USA")]).
  { split; [intros k [<-|[]]; reflexivity|intros v [<-|[]]; cbn; eauto]. }
  split; [|split].
  - destruct (proj1 unique_conflict_and_self_exclusion Scenario.fresh "countries"
                Scenario.countries [("name", JStr "Atlantis"); ("code", JStr "USA")]
                [] [] "code")
      as (st' & Hrun & _ & Hdb).
    + left. apply cache_coherent_fresh.
    + reflexivity.
    + repeat constructor;
        try (intros (Hn & Ha & Hu); discriminate);
        intros (m & Hm & _ & _ & Hlt); try discriminate;
        injection Hm as <-; vm_compute in Hlt; discriminate.
    + split.
      * intros k [<-|[<-|[]]]; reflexivity.
      * intros v [<-|[<-|[]]]; cbn; eauto.
    + reflexivity.
    + constructor.
    + split; [reflexivity|]. apply Exists_cons_hd. reflexivity.
    + exists st'. split; assumption.
  - destruct (proj2 unique_conflict_and_self_exclusion Scenario.fresh "countries"
                Scenario.countries (JNum (Fin 1)) [("code", JStr "USA")])
      as (_ & _ & Hpass).
    + left. apply cache_coherent_fresh.
    + reflexivity.
    + reflexivity.
    + reflexivity.
    + cbn. eauto.
    + exact Hw.
    + destruct Hpass as (st1 & Hdb & Hcheck & _).
      * constructor; [|constructor]. intros [_ Hex].
        apply Exists_exists in Hex. destruct Hex as (r & Hin & Hr).
        apply list_elem_of_In in Hin. vm_compute in Hin.
        destruct Hin as [<-|[<-|[]]]; vm_compute in Hr; discriminate.
      * exists st1. split; [exact Hdb|exact Hcheck].
  - destruct (proj2 unique_conflict_and_self_exclusion Scenario.fresh_twice "countries"
                Scenario.countries_twice (JNum (Fin 1)) [("code", JStr "USA")])
      as (_ & Hconflict & _).
    + left. intros name md H. vm_compute in H. discriminate.
    + reflexivity.
    + reflexivity.
    + reflexivity.
    + cbn. eauto.
    + exact Hw.
    + apply (Hconflict [] [] "code").
      * reflexivity.
      * constructor.
      * split; [reflexivity|]. vm_compute. apply Exists_cons_tl, Exists_cons_hd. reflexivity.
Defined.

(** C1 fails as stated. [code] is configured unique and USA is held by a
    row of the table; yet [create] of a record with that code and no name
    fails with the validation error, not with a conflict; and when a
    second row holds USA, [update] of row 1 to its own code USA fails with
    a conflict. *)
Lemma unique_conflict_counterexample :
  In "code" (unique_columns (db Scenario.fresh) "countries")
  /\ holds_value Scenario.countries "code" (JStr "USA")
       (Scenario.country 1 "United States" "USA") = true
  /\ fst (run (GenericService.create "countries" [("code", JStr "USA")]) Scenario.fresh)
     = Throw {| message := "Column 'name' is required" |}
  /\ is_conflict {| message := "Column 'name' is required" |} = false
  /\ holds_value Scenario.countries_twice "id" (JNum (Fin 1))
       (Scenario.country 1 "United States" "USA") = true
  /\ fst (run (GenericService.update "countries" (JNum (Fin 1)) [("code", JStr "USA")])
              Scenario.fresh_twice)
     = Throw (conflict_error "code" (JStr "USA")).
Proof. repeat split; try reflexivity. left. reflexivity. Qed.

(* ===================================================================== *)
(** * Errors of [create] and [update], and their HTTP status *)
(* ===================================================================== *)

Lemma requireTable_absent (st : state) (table : string) :
  tables (db st) !! table = None ->
  run (GenericService.requireTable table) st
  = (Throw {| message := "Invalid table" |}, st).
Proof. intros H. rewrite requireTable_run, H. reflexivity. Qed.

(** Every error [create] throws is the invalid-table error, a validation
    error, an error whose message contains 'already exists', or the error
    of the INSERT statement, as the driver raised it. *)
Lemma create_errors (st st' : state) (table : string) (data : object) (e : Error) :
  run (GenericService.create table data) st = (Throw e, st') ->
  e = {| message := "Invalid table" |}
  \/ (exists columns, validation_error columns e)
  \/ is_conflict e = true
  \/ insert_row (db st) table (keys data) (values data) = Throw e.
Proof.
  destruct (tables (db st) !! table) as [t|] eqn:Ht.
  - destruct (create_run st table t data Ht) as (md & st1 & _ & Hdb & _ & ->).
    destruct (validate_outcome data (md_columns md) st1)
      as [(_ & ->)|(_ & e' & He' & ->)].
    + destruct (uniqueConstraints_outcome table data [] ∅ st1)
        as [->|(e' & He' & ->)].
      * cbn [execute run]. rewrite Hdb.
        destruct (insert_row (db st) table (keys data) (values data)) as [[id d']|e'];
          [discriminate|].
        intros [= <- <-]. auto.
      * intros [= <- <-]. auto.
    + intros [= <- <-]. right. left. eauto.
  - unfold GenericService.create. rewrite run_bind, (requireTable_absent _ _ Ht).
    intros [= <- <-]. auto.
Qed.

(** The same for [update]: no validation error, and after the UPDATE
    statement the error of the SELECT of [get]. *)
Lemma update_errors (st st' : state) (table : string) (id : value) (data : object)
    (e : Error) :
  run (GenericService.update table id data) st = (Throw e, st') ->
  e = {| message := "Invalid table" |}
  \/ is_conflict e = true
  \/ (exists pk, update_rows (db st) table (keys data) (values data) pk id = Throw e)
  \/ (exists d pk, select_rows d table [Atom (Eq pk "id")] None false {["id" := id]}
                   = Throw e).
Proof.
  destruct (tables (db st) !! table) as [t|] eqn:Ht.
  - destruct (update_run st table t id data Ht)
      as (md & st1 & _ & Hdb & Hcache & _ & ->).
    destruct (uniqueConstraints_outcome table data
                [Atom (NotEq (md_primaryKey md) "id")] {["id" := id]} st1)
      as [->|(e' & He' & ->)]; [|intros [= <- <-]; auto].
    cbn [execute run]. rewrite Hdb.
    destruct (update_rows (db st) table (keys data) (values data) (md_primaryKey md) id)
      as [d'|e'] eqn:Hupd; cbn [mbind outcome_bind];
      [|intros [= <- <-]; right; right; left; eauto].
    unfold GenericService.get. rewrite run_bind, requireTable_run.
    destruct (tables (db {| db := d'; metadataCache := metadataCache st1 |}) !! table)
      as [t'|]; [|intros [= <- <-]; auto].
    rewrite run_bind, (getTableMetadata_hit _ _ md) by exact Hcache.
    rewrite run_bind. cbn [query run db].
    destruct (select_rows d' table [Atom (Eq (md_primaryKey md) "id")] None false
                          {["id" := id]}) as [rows|e'] eqn:Hsel; [discriminate|].
    intros [= <- <-]. right. right. right. eauto.
  - unfold GenericService.update. rewrite run_bind, (requireTable_absent _ _ Ht).
    intros [= <- <-]. auto.
Qed.

Lemma controller_create_run (req : GenericController.request) (st : state) :
  run (GenericController.create req) st =
  match run (GenericService.create (GenericController.params_table req)
                                   (GenericController.body_ req)) st with
  | (Return result, st') =>
      (Return (status_json 201 [("success", JBool true); ("data", result)]), st')
  | (Throw error, st') => (Return (failure 400 error), st')
  end.
Proof.
  unfold GenericController.create, handle, try_catch. cbn [run]. rewrite run_bind.
  destruct (run (GenericService.create (GenericController.params_table req)
                                       (GenericController.body_ req)) st)
    as [[result|error] st']; reflexivity.
Qed.

Lemma controller_update_run (req : GenericController.request) (st : state) :
  run (GenericController.update req) st =
  match run (GenericService.update (GenericController.params_table req)
                                   (JStr (GenericController.params_id req))
                                   (GenericController.body_ req)) st with
  | (Return result, st') =>
      (Return (json [("success", JBool true); ("data", result)]), st')
  | (Throw error, st') => (Return (failure 400 error), st')
  end.
Proof.
  unfold GenericController.update, handle, try_catch. cbn [run]. rewrite run_bind.
  destruct (run (GenericService.update (GenericController.params_table req)
                                       (JStr (GenericController.params_id req))
                                       (GenericController.body_ req)) st)
    as [[result|error] st']; reflexivity.
Qed.

(** C4, as the code has it. In [create] and [update]:
    - an error raised while the configuration is looked up or the rows are
      counted is dropped, unless its message contains 'already exists':
      the uniqueness block completes normally or throws such an error,
      and completes normally when the configuration relation cannot be
      queried;
    - the errors thrown are the invalid-table error, the validation errors
      (in [create]), the errors containing 'already exists', and the
      error of the INSERT, UPDATE or final SELECT statement, unwrapped;
    - the HTTP handlers answer 201 (create) or 200 (update) on success and
      400, with the message of the error, on every failure. *)
Theorem write_errors_and_status :
  (forall table data others repl st,
      run (GenericService.uniqueConstraints table data others repl) st = (Return tt, st)
      \/ exists e, is_conflict e = true
                   /\ run (GenericService.uniqueConstraints table data others repl) st
                      = (Throw e, st))
  /\ (forall table data others repl st,
        configurations (db st) = None ->
        config_select_active (db st) table = Throw (no_such_table "table_configurations")
        /\ run (GenericService.uniqueConstraints table data others repl) st
           = (Return tt, st))
  /\ (forall st st' table data e,
        run (GenericService.create table data) st = (Throw e, st') ->
        e = {| message := "Invalid table" |}
        \/ (exists columns, validation_error columns e)
        \/ is_conflict e = true
        \/ insert_row (db st) table (keys data) (values data) = Throw e)
  /\ (forall st st' table id data e,
        run (GenericService.update table id data) st = (Throw e, st') ->
        e = {| message := "Invalid table" |}
        \/ is_conflict e = true
        \/ (exists pk, update_rows (db st) table (keys data) (values data) pk id = Throw e)
        \/ (exists d pk, select_rows d table [Atom (Eq pk "id")] None false
                                     {["id" := id]} = Throw e))
  /\ (forall req st response st',
        run (GenericController.create req) st = (Return response, st') ->
        (status response = 201
         /\ exists result,
              run (GenericService.create (GenericController.params_table req)
                                         (GenericController.body_ req)) st
              = (Return result, st'))
        \/ (exists error,
              run (GenericService.create (GenericController.params_table req)
                                         (GenericController.body_ req)) st
              = (Throw error, st')
              /\ response = failure 400 error))
  /\ (forall req st response st',
        run (GenericController.update req) st = (Return response, st') ->
        (status response = 200
         /\ exists result,
              run (GenericService.update (GenericController.params_table req)
                                         (JStr (GenericController.params_id req))
                                         (GenericController.body_ req)) st
              = (Return result, st'))
        \/ (exists error,
              run (GenericService.update (GenericController.params_table req)
                                         (JStr (GenericController.params_id req))
                                         (GenericController.body_ req)) st
              = (Throw error, st')
              /\ response = failure 400 error)).
Proof.
  split; [intros; apply uniqueConstraints_outcome|].
  split.
  { intros table data others repl st H. split.
    - unfold config_select_active, config_relation. rewrite H. reflexivity.
    - rewrite uniqueConstraints_run. unfold unique_columns. rewrite H. reflexivity. }
  split; [intros st st' table data e; apply create_errors|].
  split; [intros st st' table id data e; apply update_errors|].
  split.
  - intros req st response st'. rewrite controller_create_run.
    destruct (run (GenericService.create (GenericController.params_table req)
                                         (GenericController.body_ req)) st)
      as [[result|error] s]; intros [= <- <-]; [left|right]; eauto.
  - intros req st response st'. rewrite controller_update_run.
    destruct (run (GenericService.update (GenericController.params_table req)
                                         (JStr (GenericController.params_id req))
                                         (GenericController.body_ req)) st)
      as [[result|error] s]; intros [= <- <-]; [left|right]; eauto.
Qed.

(** When [table_configurations] cannot be queried the uniqueness block
    completes normally. *)
Lemma write_errors_and_status_witness :
  configurations (db Scenario.unconfigured) = None
  /\ run (GenericService.uniqueConstraints "countries" [("code", JStr "USA")] [] ∅)
         Scenario.unconfigured
     = (Return tt, Scenario.unconfigured)
  /\ status (failure 400 (unknown_column "bogus" "field list")) = 400.
Proof.
  split; [reflexivity|]. split; [|reflexivity].
  apply (proj1 (proj2 write_errors_and_status) "countries" [("code", JStr "USA")] [] ∅
           Scenario.unconfigured).
  reflexivity.
Defined.

(** C4 fails as stated: the driver error of the configuration lookup is
    not propagated, [create] goes on and inserts; and the driver error of
    an INSERT naming an unknown column is answered with status 400. *)
Lemma write_errors_counterexample :
  config_select_active (db Scenario.unconfigured) "countries"
  = Throw (no_such_table "table_configurations")
  /\ fst (run (GenericService.create "countries"
                 [("name", JStr "Atlantis"); ("code", JStr "USA")]) Scenario.unconfigured)
     = Return (JNum (Fin 4))
  /\ insert_row (db Scenario.plain) "countries"
                (keys (GenericController.body_ Scenario.bogus_request))
                (values (GenericController.body_ Scenario.bogus_request))
     = Throw (unknown_column "bogus" "field list")
  /\ fst (run (GenericController.create Scenario.bogus_request) Scenario.plain)
     = Return {| status := 400;
                 body := JObj [("success", JBool false);
                               ("message", JStr "Unknown column 'bogus' in 'field list'")] |}.
Proof. repeat split; reflexivity. Qed.

(* ===================================================================== *)
(** * Every operation keeps the cache coherent *)
(* ===================================================================== *)

Lemma same_schema_refl (d : database) : same_schema d d.
Proof. intros name. reflexivity. Qed.

Lemma same_schema_with_table (d : database) (name : string) (t t' : Sql.table) :
  tables d !! name = Some t ->
  t_columns t' = t_columns t ->
  same_schema d (with_table d name t').
Proof.
  intros Ht Hc name'. cbn. destruct (decide (name = name')) as [<-|Hne].
  - rewrite lookup_insert_eq, Ht. cbn. rewrite Hc. reflexivity.
  - rewrite lookup_insert_ne by exact Hne. reflexivity.
Qed.

Lemma cache_coherent_same_schema (st : state) (d : database) :
  cache_coherent st ->
  same_schema (db st) d ->
  cache_coherent {| db := d; metadataCache := metadataCache st |}.
Proof.
  intros Hco Hs name md H. cbn in *.
  destruct (Hco name md H) as (t & Ht & ->).
  pose proof (Hs name) as Hn. rewrite Ht in Hn. cbn in Hn.
  destruct (tables d !! name) as [t'|]; [|discriminate].
  injection Hn as Hn. exists t'. split; [reflexivity|]. rewrite Hn. reflexivity.
Qed.

Lemma insert_row_schema (d d' : database) (name : string) (cols : list string)
    (vals : list value) (id : Z) :
  insert_row d name cols vals = Return (id, d') -> same_schema d d'.
Proof.
  unfold insert_row. destruct (bind_values vals) as [lits|]; [|discriminate].
  cbn [mbind outcome_bind]. unfold lookup_table.
  destruct (tables d !! name) as [t|] eqn:Ht; [|discriminate].
  cbn [mbind outcome_bind].
  destruct (check_columns t cols "field list"); [|discriminate].
  cbn [mbind outcome_bind]. intros [= _ <-].
  apply (same_schema_with_table d name t); [exact Ht|reflexivity].
Qed.

Lemma update_rows_schema (d d' : database) (name : string) (cols : list string)
    (vals : list value) (pk : string) (id : value) :
  update_rows d name cols vals pk id = Return d' -> same_schema d d'.
Proof.
  unfold update_rows. destruct (bind_values vals) as [lits|]; [|discriminate].
  cbn [mbind outcome_bind]. destruct (bind_value id); [|discriminate].
  cbn [mbind outcome_bind]. destruct (bool_decide (cols = [])); [discriminate|].
  cbn [mbind outcome_bind]. unfold lookup_table.
  destruct (tables d !! name) as [t|] eqn:Ht; [|discriminate].
  cbn [mbind outcome_bind].
  destruct (check_columns t cols "field list"); [|discriminate].
  cbn [mbind outcome_bind].
  destruct (check_columns t [pk] "where clause"); [|discriminate].
  cbn [mbind outcome_bind]. intros [= <-].
  apply (same_schema_with_table d name t); [exact Ht|reflexivity].
Qed.

Lemma delete_rows_schema (d d' : database) (name : string) (cs : list cond)
    (repl : gmap string value) :
  delete_rows d name cs repl = Return d' -> same_schema d d'.
Proof.
  unfold delete_rows, lookup_table.
  destruct (tables d !! name) as [t|] eqn:Ht; [|discriminate].
  cbn [mbind outcome_bind].
  destruct (compile_where t repl cs); [|discriminate].
  cbn [mbind outcome_bind]. intros [= <-].
  apply (same_schema_with_table d name t); [exact Ht|reflexivity].
Qed.

Lemma preserves_ret {A : Type} (a : A) : preserves_coherence (mret a).
Proof. intros st H. exact H. Qed.

Lemma preserves_throw {A : Type} (e : Error) : preserves_coherence (@throw A e).
Proof. intros st H. exact H. Qed.

Lemma preserves_bind {A B : Type} (m : M A) (f : A -> M B) :
  preserves_coherence m ->
  (forall a, preserves_coherence (f a)) ->
  preserves_coherence (m ≫= f).
Proof.
  intros Hm Hf st H. rewrite run_bind. specialize (Hm st H).
  destruct (run m st) as [[a|e] st1]; cbn in Hm; [apply Hf, Hm|exact Hm].
Qed.

Lemma preserves_try_catch {A : Type} (body : M A) (handler : Error -> M A) :
  preserves_coherence body ->
  (forall e, preserves_coherence (handler e)) ->
  preserves_coherence (try_catch body handler).
Proof.
  intros Hb Hh st H. unfold try_catch. cbn [run]. specialize (Hb st H).
  destruct (run body st) as [[a|e] st1]; cbn in Hb; [exact Hb|apply Hh, Hb].
Qed.

Lemma preserves_for_of {A : Type} (l : list A) (body : A -> M unit) :
  (forall x, preserves_coherence (body x)) ->
  preserves_coherence (for_of l body).
Proof.
  intros Hb. induction l as [|x l IH]; [apply preserves_ret|].
  apply preserves_bind; [apply Hb|intros _; exact IH].
Qed.

Lemma preserves_query {A : Type} (q : database -> outcome A) :
  preserves_coherence (query q).
Proof. intros st H. exact H. Qed.

Lemma preserves_lift {A : Type} (o : outcome A) :
  preserves_coherence (GenericService.lift o).
Proof. intros st H. exact H. Qed.

Lemma preserves_execute {A : Type} (q : database -> outcome (A * database)) :
  (forall d a d', q d = Return (a, d') -> same_schema d d') ->
  preserves_coherence (execute q).
Proof.
  intros Hq st H. unfold execute. cbn [run].
  destruct (q (db st)) as [[a d']|e] eqn:E; [|exact H].
  cbn. apply cache_coherent_same_schema; [exact H|]. eapply Hq, E.
Qed.

Lemma preserves_getTableMetadata (name : string) :
  preserves_coherence (getTableMetadata name).
Proof. intros st H. apply cache_coherent_getTableMetadata, H. Qed.

Lemma preserves_requireTable (name : string) :
  preserves_coherence (GenericService.requireTable name).
Proof. intros st H. rewrite requireTable_run. exact H. Qed.

Lemma preserves_uniqueConstraints (table : string) (data : object)
    (others : list cond) (repl : gmap string value) :
  preserves_coherence (GenericService.uniqueConstraints table data others repl).
Proof. intros st H. rewrite uniqueConstraints_run. exact H. Qed.

(** The five operations of the record service keep the cache coherent:
    they change rows, never columns. *)
Lemma service_preserves_coherence :
  (forall table page limit filters sortBy sortOrder,
      preserves_coherence (GenericService.list_ table page limit filters sortBy sortOrder))
  /\ (forall table id, preserves_coherence (GenericService.get table id))
  /\ (forall table data, preserves_coherence (GenericService.create table data))
  /\ (forall table id data, preserves_coherence (GenericService.update table id data))
  /\ (forall table id, preserves_coherence (GenericService.delete_ table id)).
Proof.
  assert (Hget : forall table id, preserves_coherence (GenericService.get table id)).
  { intros table id. unfold GenericService.get.
    apply preserves_bind; [apply preserves_requireTable|intros _].
    apply preserves_bind; [apply preserves_getTableMetadata|intros md].
    apply preserves_bind; [apply preserves_query|intros rows]. apply preserves_ret. }
  split.
  { intros table page limit filters sortBy sortOrder. unfold GenericService.list_.
    apply preserves_bind; [apply preserves_requireTable|intros _].
    apply preserves_bind; [apply preserves_lift|intros [cs repl]].
    apply preserves_bind; [apply preserves_lift|intros ord].
    apply preserves_bind; [apply preserves_query|intros rows].
    apply preserves_bind; [apply preserves_query|intros n]. apply preserves_ret. }
  split; [exact Hget|]. split.
  { intros table data. unfold GenericService.create.
    apply preserves_bind; [apply preserves_requireTable|intros _].
    apply preserves_bind; [apply preserves_getTableMetadata|intros md].
    apply preserves_bind.
    { apply preserves_for_of. intros col st H.
      destruct (validateColumn_cases data col st)
        as [(_ & _ & ->)|[(_ & ->)|(m & _ & _ & ->)]]; exact H. }
    intros _.
    apply preserves_bind; [apply preserves_uniqueConstraints|intros _].
    apply preserves_bind; [|intros id; apply preserves_ret].
    apply preserves_execute. intros d a d'. apply insert_row_schema. }
  split.
  { intros table id data. unfold GenericService.update.
    apply preserves_bind; [apply preserves_requireTable|intros _].
    apply preserves_bind; [apply preserves_getTableMetadata|intros md].
    apply preserves_bind; [apply preserves_uniqueConstraints|intros _].
    apply preserves_bind; [|intros _; apply Hget].
    apply preserves_execute. intros d a d'.
    destruct (update_rows d table (keys data) (values data) (md_primaryKey md) id)
      as [d1|e] eqn:E; [|discriminate].
    cbn. intros [= _ <-]. eapply update_rows_schema, E. }
  { intros table id. unfold GenericService.delete_.
    apply preserves_bind; [apply preserves_requireTable|intros _].
    apply preserves_bind; [apply preserves_getTableMetadata|intros md].
    apply preserves_execute. intros d a d'.
    destruct (delete_rows d table [Atom (Eq (md_primaryKey md) "id")] {["id" := id]})
      as [d1|e] eqn:E; [|discriminate].
    cbn. intros [= _ <-]. eapply delete_rows_schema, E. }
Qed.

Lemma config_write_schema (d d' : database) (rows : list config_row) :
  d' = with_configurations d rows -> same_schema d d'.
Proof. intros -> name. reflexivity. Qed.

(** So do the handlers of the configuration store, which write
    [table_configurations] only. *)
Lemma config_store_preserves_coherence :
  (forall b, preserves_coherence (TableConfigController.saveConfig b))
  /\ (forall table, preserves_coherence (TableConfigController.deleteConfig table))
  /\ (forall table, preserves_coherence (TableConfigController.getConfig table))
  /\ preserves_coherence TableConfigController.listConfiguredTables.
Proof.
  assert (Hupd : forall name b,
             preserves_coherence
               (execute (fun d => fields ← TableConfigController.replacements b;
                                  d' ← config_update d name fields;
                                  Return (tt, d')))).
  { intros name b. apply preserves_execute. intros d a d'.
    destruct (TableConfigController.replacements b) as [f|e]; [|discriminate].
    cbn [mbind outcome_bind]. unfold config_update, config_relation.
    destruct (configurations d); [|discriminate]. cbn. intros [= _ <-].
    eapply config_write_schema. reflexivity. }
  assert (Hins : forall name b,
             preserves_coherence
               (execute (fun d => fields ← TableConfigController.replacements b;
                                  d' ← config_insert d name fields;
                                  Return (tt, d')))).
  { intros name b. apply preserves_execute. intros d a d'.
    destruct (TableConfigController.replacements b) as [f|e]; [|discriminate].
    cbn [mbind outcome_bind]. unfold config_insert, config_relation.
    destruct (configurations d); [|discriminate]. cbn. intros [= _ <-].
    eapply config_write_schema. reflexivity. }
  split.
  { intros b. unfold TableConfigController.saveConfig, handle.
    apply preserves_try_catch; [|intros e; apply preserves_ret].
    destruct (TableConfigController.table_name b) as [[|ch name]|];
      try apply preserves_ret.
    apply preserves_bind; [apply preserves_query|intros existing].
    apply preserves_bind; [|intros _; apply preserves_ret].
    destruct existing; [apply Hins|apply Hupd]. }
  split.
  { intros table. unfold TableConfigController.deleteConfig, handle.
    apply preserves_try_catch; [|intros e; apply preserves_ret].
    apply preserves_bind; [|intros _; apply preserves_ret].
    apply preserves_execute. intros d a d'.
    unfold config_soft_delete, config_relation.
    destruct (configurations d); [|discriminate]. cbn. intros [= _ <-].
    eapply config_write_schema. reflexivity. }
  split.
  { intros table. unfold TableConfigController.getConfig, handle.
    apply preserves_try_catch; [|intros e; apply preserves_ret].
    apply preserves_bind; [apply preserves_query|intros rows].
    destruct rows; apply preserves_ret. }
  unfold TableConfigController.listConfiguredTables, handle.
  apply preserves_try_catch; [|intros e; apply preserves_ret].
  apply preserves_bind; [apply preserves_query|intros rows]. apply preserves_ret.
Qed.

(* ===================================================================== *)
(** * [list] returns on well-formed requests *)
(* ===================================================================== *)

Lemma compile_any_total (t : Sql.table) (repl : gmap string value) (l : list atom)
    (pat : string) :
  (forall a, In a l -> repl !! atom_param a = Some (JStr pat)) ->
  (forall a, In a l -> has_column t (atom_col a) = true) ->
  exists g, compile_any t repl l = Return g.
Proof.
  induction l as [|a l IH]; intros Hb Hc; [cbn; eauto|].
  cbn [compile_any]. unfold compile_atom.
  rewrite (parameter_present repl _ (JStr pat) (Hb a (or_introl eq_refl)) eq_refl).
  cbn [bind_value mbind outcome_bind]. rewrite (Hc a (or_introl eq_refl)).
  cbn [mbind outcome_bind].
  destruct IH as [g ->];
    [intros a' Ha'; apply Hb; right; exact Ha'
    |intros a' Ha'; apply Hc; right; exact Ha'|].
  cbn. eauto.
Qed.

Lemma searchClauses_prefix (cols : list value) (idx : nat) (a : atom) :
  In a (GenericService.searchClauses cols idx) ->
  String.prefix "search_" (atom_param a) = true.
Proof.
  revert idx. induction cols as [|col cols IH]; intros idx []; [|eapply IH; eassumption].
  subst a. apply paramName_prefix.
Qed.

Lemma compile_conjunct_total (t : Sql.table) (repl : gmap string value) (f : object)
    (k : string) (c : cond) :
  consistent f repl ->
  (forall a, In a (atoms c) -> is_Some (repl !! atom_param a)) ->
  conjunct k (obj_get f k) = Some c ->
  filter_runs t k (obj_get f k) ->
  exists g, compile_cond t repl c = Return g.
Proof.
  intros Hco Hb Hc Hrun. unfold filter_runs in Hrun. rewrite Hc in Hrun.
  destruct c as [a|l].
  - destruct Hrun as [Hcol [lit Hlit]].
    apply conjunct_atom in Hc. destruct Hc as [-> Hp].
    destruct (Hb _ (or_introl eq_refl)) as [v Hv]. cbn in Hv.
    destruct (proj1 (Hco _ _ Hv) k eq_refl) as [-> _].
    cbn [compile_cond]. unfold compile_atom. cbn [atom_param atom_col atom_op].
    rewrite (parameter_present repl _ _ Hv), Hlit, Hcol; [cbn; eauto|].
    unfold present in Hp. destruct (is_undefined (obj_get f k)); [discriminate|reflexivity].
  - pose proof Hc as Hc'. apply conjunct_any in Hc'.
    destruct Hc' as (-> & cols & q & Hs & ->). cbn [compile_cond].
    apply (compile_any_total t repl _ (search_pattern q)); [|exact Hrun].
    intros a Ha. destruct (Hb a Ha) as [v Hv].
    destruct (proj2 (Hco _ _ Hv) (searchClauses_prefix _ _ _ Ha)) as (cols' & q' & Hs' & ->).
    rewrite Hs in Hs'. injection Hs' as <- <-. exact Hv.
Qed.

Lemma compile_where_total (t : Sql.table) (repl : gmap string value) (f : object)
    (ks : list string) :
  consistent f repl ->
  (forall k c a, In k ks -> conjunct k (obj_get f k) = Some c -> In a (atoms c) ->
                 is_Some (repl !! atom_param a)) ->
  (forall k, In k ks -> filter_runs t k (obj_get f k)) ->
  exists keep, compile_where t repl (omap (fun k => conjunct k (obj_get f k)) ks)
               = Return keep.
Proof.
  intros Hco. induction ks as [|k ks IH]; intros Hb Hrun; [cbn; eauto|].
  destruct IH as [keep Hkeep];
    [intros k' c a Hin; apply Hb; right; exact Hin
    |intros k' Hin; apply Hrun; right; exact Hin|].
  cbn [omap list_omap].
  destruct (conjunct k (obj_get f k)) as [c|] eqn:Hc; [|eauto].
  cbn [compile_where].
  destruct (compile_conjunct_total t repl f k c Hco) as [g ->].
  - intros a Ha. apply (Hb k c a); [left; reflexivity|exact Hc|exact Ha].
  - exact Hc.
  - apply Hrun. left. reflexivity.
  - cbn [mbind outcome_bind]. rewrite Hkeep. cbn. eauto.
Qed.

(** On a table that exists, with a page of at least 1, a limit of at least
    0, filters the engine accepts and sort parameters it accepts, [list]
    returns and leaves the state as it is. *)
Lemma list_returns (st : state) (table : string) (t : Sql.table) (page limit : Z)
    (filters : object) (sortBy sortOrder : value) :
  tables (db st) !! table = Some t ->
  1 <= page ->
  0 <= limit ->
  (forall k, In k (keys filters) ->
             (k <> "_search" \/ is_Some (search_of (obj_get filters k)))
             /\ filter_runs t k (obj_get filters k)) ->
  sort_runs t sortBy sortOrder ->
  exists r,
    run (GenericService.list_ table (Fin page) (Fin limit) filters sortBy sortOrder) st
    = (Return r, st).
Proof.
  intros Ht Hpage Hlimit Hf Hsort.
  unfold GenericService.list_. rewrite run_bind, requireTable_run, Ht.
  rewrite run_bind. cbn [GenericService.lift run].
  destruct (whereLoop_no_throw filters (keys filters)
              ([], <["limit" := JNum (Fin limit)]>
                     (<["offset" := JNum (GenericService.pageOffset (Fin page) (Fin limit))]> ∅)))
    as [[cs repl] Hloop]; [intros k Hk; apply Hf, Hk|].
  fold (GenericService.buildWhere filters (Fin limit)
          (GenericService.pageOffset (Fin page) (Fin limit))) in Hloop.
  rewrite Hloop.
  destruct (buildWhere_spec _ _ _ _ _ Hloop) as (-> & Hco & Hb).
  destruct (buildWhere_window _ _ _ _ _ Hloop) as [Hlim Hoff].
  destruct (compile_where_total t repl filters (keys filters) Hco Hb) as [keep Hkeep];
    [intros k Hk; apply Hf, Hk|].
  rewrite run_bind. cbn [GenericService.lift run].
  assert (Hwin : forall l, exists rows, windowed true repl l = Return rows).
  { intros l. unfold windowed, row_count. rewrite Hlim, Hoff, pageOffset_fin.
    destruct (Z.leb_spec 0 limit); [|lia].
    destruct (Z.leb_spec 0 ((page - 1) * limit)); [|nia].
    cbn. eauto. }
  assert (Hsel : exists ord rows,
             GenericService.orderBy sortBy sortOrder = Return ord
             /\ select_rows (db st) table
                  (omap (fun k => conjunct k (obj_get filters k)) (keys filters))
                  ord true repl = Return rows).
  { unfold select_rows, lookup_table. rewrite Ht. cbn [mbind outcome_bind].
    rewrite Hkeep. cbn [mbind outcome_bind].
    unfold GenericService.orderBy. destruct Hsort as [->|(Hs & Hi & Hc)].
    - destruct (Hwin (List.filter keep (t_rows t))) as [rows Hrows]. eauto.
    - destruct (truthy sortBy && truthy sortOrder).
      + destruct sortOrder as [| | | |s| |]; try discriminate.
        exists (Some (ToString sortBy,
                      if String.eqb (toUpperCase s) "DESC" then "DESC" else "ASC")).
        cbn beta iota. rewrite (read_sort_identifier _ Hi). unfold order_by. rewrite Hc.
        cbn [mbind outcome_bind].
        match goal with
        | |- exists rows, _ /\ windowed true repl ?l = Return rows =>
            destruct (Hwin l) as [rows Hrows]; exists rows; split; [reflexivity|exact Hrows]
        end.
      + destruct (Hwin (List.filter keep (t_rows t))) as [rows Hrows]. eauto. }
  destruct Hsel as (ord & rows & -> & Hrows).
  rewrite run_bind. cbn [query run]. rewrite Hrows.
  rewrite run_bind. cbn [query run].
  unfold count_rows, lookup_table. rewrite Ht. cbn [mbind outcome_bind].
  rewrite Hkeep. cbn. eauto.
Qed.

(* ===================================================================== *)
(** * Labels, widgets and the list of tables (introspection.ts) *)
(* ===================================================================== *)

Lemma append_cons (c : ascii) (a b : string) : String c a +:+ b = String c (a +:+ b).
Proof. reflexivity. Qed.

Lemma append_nil_r (s : string) : s +:+ "" = s.
Proof.
  induction s as [|c s IH]; [reflexivity|]. rewrite append_cons. f_equal. exact IH.
Qed.

Lemma append_assoc (a b c : string) : (a +:+ b) +:+ c = a +:+ (b +:+ c).
Proof.
  induction a as [|x a IH]; [reflexivity|]. rewrite !append_cons. cbn. f_equal. exact IH.
Qed.

Lemma split_aux_nonempty (sep : ascii) (s cur : string) : split_aux sep s cur <> [].
Proof.
  revert cur. induction s as [|c s IH]; intros cur; cbn; [discriminate|].
  destruct (Ascii.eqb c sep); [discriminate|apply IH].
Qed.

Lemma join_cons (sep x : string) (l : list string) :
  l <> [] -> join sep (x :: l) = x +:+ sep +:+ join sep l.
Proof. destruct l; [congruence|reflexivity]. Qed.

(** [split] then [map] then [join], with the word being read in [cur]. *)
Lemma formatLabel_from (s cur : string) :
  join " " (List.map capitalize (split_aux "_" s cur))
  = match cur with
    | EmptyString => label_from true s
    | String _ _ => capitalize cur +:+ label_from false s
    end.
Proof.
  revert cur. induction s as [|c s IH]; intros cur.
  - cbn. destruct cur; [reflexivity|]. symmetry. apply append_nil_r.
  - cbn [split_aux label_from]. destruct (Ascii.eqb c "_") eqn:E.
    + cbn [List.map]. rewrite join_cons.
      2:{ intros H. apply map_eq_nil in H. exact (split_aux_nonempty _ _ _ H). }
      rewrite (IH ""). destruct cur; reflexivity.
    + rewrite IH. destruct cur as [|a cur]; [reflexivity|].
      rewrite (append_cons a cur). cbn [capitalize label_from]. rewrite ?E, !append_cons.
      f_equal. rewrite append_assoc. reflexivity.
Qed.

Lemma label_from_length (start : bool) (s : string) :
  String.length (label_from start s) = String.length s.
Proof.
  revert start. induction s as [|c s IH]; intros start; cbn; [reflexivity|].
  destruct (Ascii.eqb c "_"); cbn; f_equal; apply IH.
Qed.

Lemma upper_char_not_underscore (c : ascii) :
  Ascii.eqb c "_" = false -> Ascii.eqb (upper_char c) "_" = false.
Proof. destruct c as [[] [] [] [] [] [] [] []]; vm_compute; congruence. Qed.

Lemma upper_char_idem (c : ascii) : upper_char (upper_char c) = upper_char c.
Proof. destruct c as [[] [] [] [] [] [] [] []]; reflexivity. Qed.

Lemma lower_upper_char (c : ascii) : lower_char (upper_char c) = lower_char c.
Proof. destruct c as [[] [] [] [] [] [] [] []]; reflexivity. Qed.

Lemma lower_lower_char (c : ascii) : lower_char (lower_char c) = lower_char c.
Proof. destruct c as [[] [] [] [] [] [] [] []]; reflexivity. Qed.

Lemma label_from_no_underscore (start : bool) (s : string) :
  ~ In "_"%char (list_ascii_of_string (label_from start s)).
Proof.
  revert start. induction s as [|c s IH]; intros start; cbn; [tauto|].
  destruct (Ascii.eqb c "_") eqn:E; cbn.
  - intros [H|H]; [discriminate|exact (IH _ H)].
  - intros [H|H]; [|exact (IH _ H)].
    destruct start.
    + apply upper_char_not_underscore in E. rewrite H in E. discriminate.
    + rewrite H in E. discriminate.
Qed.

Lemma label_from_settled (start : bool) (s : string) :
  label_from false (label_from start s) = label_from start s.
Proof.
  revert start. induction s as [|c s IH]; intros start; cbn; [reflexivity|].
  destruct (Ascii.eqb c "_") eqn:E; cbn.
  - f_equal. apply IH.
  - assert (Hx : Ascii.eqb (if start then upper_char c else c) "_" = false).
    { destruct start; [apply upper_char_not_underscore|]; exact E. }
    rewrite Hx. f_equal. apply IH.
Qed.

Lemma label_from_lower (start : bool) (s : string) :
  toLowerCase (label_from start s)
  = map_chars (fun c => if Ascii.eqb c "_" then " "%char else lower_char c) s.
Proof.
  revert start. induction s as [|c s IH]; intros start; cbn; [reflexivity|].
  destruct (Ascii.eqb c "_"); cbn; [f_equal; apply IH|].
  f_equal; [|apply IH]. destruct start; [apply lower_upper_char|reflexivity].
Qed.

(** X1. [formatLabel] reads a name of ASCII characters one by one: every
    underscore becomes a space, the first character and every character
    after an underscore are upper-cased, and nothing else changes. The
    label therefore has the length of the name, holds no underscore, is
    the name itself up to the case of letters and the underscores, and
    formatting a label again changes nothing. *)
Theorem formatLabel_shape (name : string) :
  is_ascii name = true ->
  formatLabel name = label_from true name
  /\ String.length (formatLabel name) = String.length name
  /\ ~ In "_"%char (list_ascii_of_string (formatLabel name))
  /\ toLowerCase (formatLabel name)
     = map_chars (fun c => if Ascii.eqb c "_" then " "%char else lower_char c) name
  /\ formatLabel (formatLabel name) = formatLabel name.
Proof.
  intros _.
  assert (H : forall s, formatLabel s = label_from true s).
  { intros s. unfold formatLabel, split. apply (formatLabel_from s ""). }
  split; [apply H|]. rewrite !H.
  split; [apply label_from_length|].
  split; [apply label_from_no_underscore|].
  split.
  - apply label_from_lower.
  - destruct name as [|c s]; cbn; [reflexivity|].
    destruct (Ascii.eqb c "_") eqn:E; cbn.
    + f_equal. apply label_from_settled.
    + rewrite (upper_char_not_underscore _ E), upper_char_idem. f_equal.
      apply label_from_settled.
Qed.

(** The label of the column [created_at]. *)
Lemma formatLabel_shape_witness :
  is_ascii "created_at" = true
  /\ formatLabel "created_at" = "Created At"
  /\ formatLabel "Created At" = "Created At".
Proof.
  split; [reflexivity|].
  destruct (formatLabel_shape "created_at" eq_refl) as (H & _ & _ & _ & Hidem).
  split; [rewrite H; reflexivity|].
  assert (E : formatLabel "created_at" = "Created At") by (rewrite H; reflexivity).
  rewrite <- E. exact Hidem.
Defined.

Lemma toLowerCase_toUpperCase (s : string) : toLowerCase (toUpperCase s) = toLowerCase s.
Proof.
  induction s as [|c s IH]; cbn; [reflexivity|]. f_equal; [apply lower_upper_char|exact IH].
Qed.

Lemma toLowerCase_idem (s : string) : toLowerCase (toLowerCase s) = toLowerCase s.
Proof.
  induction s as [|c s IH]; cbn; [reflexivity|]. f_equal; [apply lower_lower_char|exact IH].
Qed.

(** X2. [mapTypeToWidget] always answers with one of the five widgets;
    the answer does not depend on the case of the letters of the data
    type; a type naming [tinyint] or [boolean] is a switch although it
    also names [int]; and every other type naming [int] is a number. *)
Theorem mapTypeToWidget_classifies (dataType : string) :
  In (mapTypeToWidget dataType) widgets
  /\ mapTypeToWidget (toUpperCase dataType) = mapTypeToWidget dataType
  /\ mapTypeToWidget (toLowerCase dataType) = mapTypeToWidget dataType
  /\ (includes (toLowerCase dataType) "tinyint" = true ->
      mapTypeToWidget dataType = "switch")
  /\ (includes (toLowerCase dataType) "int" = true ->
      mapTypeToWidget dataType = "switch" \/ mapTypeToWidget dataType = "number").
Proof.
  unfold mapTypeToWidget. rewrite toLowerCase_toUpperCase, toLowerCase_idem.
  set (type := toLowerCase dataType).
  split; [|split; [reflexivity|split; [reflexivity|split]]].
  - unfold widgets.
    destruct (includes type "tinyint" || includes type "boolean"); [cbn; tauto|].
    destruct (includes type "int" || includes type "decimal"
              || includes type "float" || includes type "double"); [cbn; tauto|].
    destruct (includes type "text" || includes type "json"); [cbn; tauto|].
    destruct (includes type "date" || includes type "timestamp"
              || includes type "time"); cbn; tauto.
  - intros ->. reflexivity.
  - intros ->. destruct (includes type "tinyint" || includes type "boolean"); auto.
Qed.

(** [TINYINT(1)] is a switch, in capitals too. *)
Lemma mapTypeToWidget_classifies_witness :
  mapTypeToWidget "TINYINT(1)" = "switch" /\ mapTypeToWidget "BIGINT" = "number".
Proof.
  split.
  - apply (proj1 (proj2 (proj2 (proj2 (mapTypeToWidget_classifies "TINYINT(1)"))))).
    reflexivity.
  - destruct (proj2 (proj2 (proj2 (proj2 (mapTypeToWidget_classifies "BIGINT")))))
      as [H|H]; [reflexivity|discriminate H|exact H].
Defined.


(** X4. Refreshing heals a stale cache: after the handler of
    [POST /meta/refresh], whatever the cache held, the handler of
    [GET /meta/table/:table], for a table name that is not the name of a
    member of [Object.prototype], describes the table from the columns
    the catalog has now, and answers 400 for a table the catalog does not
    have; the cache it leaves agrees with the catalog. *)
Theorem refresh_then_describe (st : state) (req req' : GenericController.request) :
  inherited (GenericController.params_table req) = false ->
  exists st1,
    run (GenericController.refreshMetadata req') st
    = (Return (json [("success", JBool true);
                     ("message", JStr "Metadata cache cleared")]), st1)
    /\ db st1 = db st
    /\ match tables (db st) !! GenericController.params_table req with
       | Some t =>
           exists st2,
             run (GenericController.getTableMetadata req) st1
             = (Return (json (("success", JBool true)
                              :: GenericController.metadata_object
                                   (buildMetadata (GenericController.params_table req)
                                                  (t_columns t)))), st2)
             /\ db st2 = db st
             /\ cache_coherent st2
       | None =>
           run (GenericController.getTableMetadata req) st1
           = (Return (failure 400
                        {| message := "Table '" +:+ GenericController.params_table req
                                      +:+ "' does not exist" |}), st1)
       end.
Proof.
  intros _. eexists. split; [reflexivity|]. split; [reflexivity|].
  set (st1 := {| db := db st; metadataCache := ∅ |}).
  assert (Hmiss : metadataCache st1 !! GenericController.params_table req = None)
    by apply lookup_empty.
  destruct (tables (db st) !! GenericController.params_table req) as [t|] eqn:Ht.
  - eexists. unfold GenericController.getTableMetadata, handle, try_catch. cbn [run].
    rewrite run_bind, (getTableMetadata_miss_present _ st1 t Hmiss Ht).
    split; [reflexivity|]. split; [reflexivity|].
    pose proof (cache_coherent_getTableMetadata st1 (GenericController.params_table req)
                  (cache_coherent_fresh (db st))) as Hco.
    rewrite (getTableMetadata_miss_present _ st1 t Hmiss Ht) in Hco. exact Hco.
  - unfold GenericController.getTableMetadata, handle, try_catch. cbn [run].
    rewrite run_bind, (getTableMetadata_miss_absent _ st1 Hmiss Ht). reflexivity.
Qed.

(** After a refresh, the process that had described [countries] before
    the table was dropped answers 400 for it. *)
Lemma refresh_then_describe_witness :
  inherited "countries" = false
  /\ exists st1,
       run (GenericController.refreshMetadata (request_for "" "" [] [])) Scenario.stale
       = (Return (json [("success", JBool true);
                        ("message", JStr "Metadata cache cleared")]), st1)
       /\ run (GenericController.getTableMetadata (request_for "countries" "" [] [])) st1
          = (Return (failure 400 {| message := "Table 'countries' does not exist" |}), st1).
Proof.
  split; [reflexivity|].
  destruct (refresh_then_describe Scenario.stale (request_for "countries" "" [] [])
              (request_for "" "" [] []) eq_refl) as (st1 & Hrefresh & _ & Hdescribe).
  exists st1. split; [exact Hrefresh|exact Hdescribe].
Defined.

(* ===================================================================== *)
(** * What the operations do to the database *)
(* ===================================================================== *)

Section Keeps.

Variable R : database -> database -> Prop.
Hypothesis R_refl : forall d, R d d.
Hypothesis R_trans : forall a b c, R a b -> R b c -> R a c.

Lemma keeps_ret {A : Type} (a : A) : keeps R (mret a).
Proof. intros st. apply R_refl. Qed.

Lemma keeps_throw {A : Type} (e : Error) : keeps R (@throw A e).
Proof. intros st. apply R_refl. Qed.

Lemma keeps_bind {A B : Type} (m : M A) (f : A -> M B) :
  keeps R m -> (forall a, keeps R (f a)) -> keeps R (m ≫= f).
Proof.
  intros Hm Hf st. rewrite run_bind. specialize (Hm st).
  destruct (run m st) as [[a|e] st1]; cbn [snd] in *; [|exact Hm].
  eapply R_trans; [exact Hm|apply Hf].
Qed.

Lemma keeps_try_catch {A : Type} (body : M A) (handler : Error -> M A) :
  keeps R body -> (forall e, keeps R (handler e)) -> keeps R (try_catch body handler).
Proof.
  intros Hb Hh st. unfold try_catch. cbn [run]. specialize (Hb st).
  destruct (run body st) as [[a|e] st1]; cbn [snd] in *; [exact Hb|].
  eapply R_trans; [exact Hb|apply Hh].
Qed.

Lemma keeps_query {A : Type} (q : database -> outcome A) : keeps R (query q).
Proof. intros st. apply R_refl. Qed.

Lemma keeps_lift {A : Type} (o : outcome A) : keeps R (GenericService.lift o).
Proof. intros st. apply R_refl. Qed.

Lemma keeps_handle (code : Z) (handler : M response) :
  keeps R handler -> keeps R (handle code handler).
Proof. intros H. apply keeps_try_catch; [exact H|intros e; apply keeps_ret]. Qed.

Lemma keeps_clearMetadataCache : keeps R clearMetadataCache.
Proof. intros st. apply R_refl. Qed.

Lemma keeps_checkTableExists (name : string) : keeps R (checkTableExists name).
Proof. apply keeps_bind; [apply keeps_query|intros a; apply keeps_ret]. Qed.

Lemma keeps_getTableMetadata (name : string) : keeps R (getTableMetadata name).
Proof.
  apply keeps_bind; [intros st; apply R_refl|]. intros [md|]; [apply keeps_ret|].
  apply keeps_bind; [apply keeps_checkTableExists|]. intros b.
  destruct (negb b); [apply keeps_throw|].
  apply keeps_bind; [apply keeps_query|]. intros cols.
  apply keeps_bind; [intros st; apply R_refl|]. intros _. apply keeps_ret.
Qed.

Lemma keeps_requireTable (name : string) : keeps R (GenericService.requireTable name).
Proof.
  apply keeps_bind; [apply keeps_checkTableExists|]. intros b.
  destruct (negb b); [apply keeps_throw|apply keeps_ret].
Qed.

Lemma keeps_get (table : string) (id : value) : keeps R (GenericService.get table id).
Proof.
  apply keeps_bind; [apply keeps_requireTable|]. intros _.
  apply keeps_bind; [apply keeps_getTableMetadata|]. intros md.
  apply keeps_bind; [apply keeps_query|]. intros rows. apply keeps_ret.
Qed.

Lemma keeps_list (table : string) (page limit : number) (filters : object)
    (sortBy sortOrder : value) :
  keeps R (GenericService.list_ table page limit filters sortBy sortOrder).
Proof.
  apply keeps_bind; [apply keeps_requireTable|]. intros _.
  apply keeps_bind; [apply keeps_lift|]. intros [cs repl].
  apply keeps_bind; [apply keeps_lift|]. intros ord.
  apply keeps_bind; [apply keeps_query|]. intros rows.
  apply keeps_bind; [apply keeps_query|]. intros n. apply keeps_ret.
Qed.

Lemma keeps_loadSearch (table : string) (p : GenericController.parsed) :
  keeps R (GenericController.loadSearch table p).
Proof.
  unfold GenericController.loadSearch.
  destruct (truthy (GenericController.searchQuery p)); [|apply keeps_ret].
  apply keeps_try_catch; [|intros e; apply keeps_ret].
  apply keeps_bind; [apply keeps_query|]. intros [|config rest]; [apply keeps_ret|].
  destruct (cfg_searchable_columns config) as [l|]; [|apply keeps_ret].
  destruct (0 <? length l)%nat; apply keeps_ret.
Qed.

End Keeps.

(** X5. No handler of a GET route writes: listing the tables, describing
    a table, listing or reading records, and reading the configurations
    leave the database as it was, whatever the request and whether it
    succeeds or fails; so does the cache refresh. The service functions
    [list] and [get] they call are read-only as well. *)
Theorem reads_never_write :
  (forall req, read_only (GenericController.getTables req))
  /\ (forall req, read_only (GenericController.getTableMetadata req))
  /\ (forall req, read_only (GenericController.refreshMetadata req))
  /\ (forall req, read_only (GenericController.list_ req))
  /\ (forall req, read_only (GenericController.get req))
  /\ read_only TableConfigController.listConfiguredTables
  /\ (forall table, read_only (TableConfigController.getConfig table))
  /\ (forall table page limit filters sortBy sortOrder,
        read_only (GenericService.list_ table page limit filters sortBy sortOrder))
  /\ (forall table id, read_only (GenericService.get table id)).
Proof.
  assert (Hr : forall d : database, d = d) by reflexivity.
  assert (Htr : forall a b c : database, b = a -> c = b -> c = a) by congruence.
  unfold read_only. repeat match goal with |- _ /\ _ => split end; intros.
  - apply keeps_handle; [assumption..|].
    apply keeps_bind; [assumption|apply keeps_query; assumption|].
    intros l. apply keeps_ret; assumption.
  - apply keeps_handle; [assumption..|].
    apply keeps_bind; [assumption|apply keeps_getTableMetadata; assumption|].
    intros md. apply keeps_ret; assumption.
  - apply keeps_handle; [assumption..|].
    apply keeps_bind; [assumption|apply keeps_clearMetadataCache; assumption|].
    intros _. apply keeps_ret; assumption.
  - apply keeps_handle; [assumption..|]. cbv zeta.
    destruct (GenericController.pagination (GenericController.query_ req)) as [page limit].
    apply keeps_bind; [assumption|apply keeps_loadSearch; assumption|]. intros f.
    apply keeps_bind; [assumption|apply keeps_list; assumption|].
    intros res. apply keeps_ret; assumption.
  - apply keeps_handle; [assumption..|].
    apply keeps_bind; [assumption|apply keeps_get; assumption|]. intros v.
    destruct (negb (truthy v)); apply keeps_ret; assumption.
  - apply keeps_handle; [assumption..|].
    apply keeps_bind; [assumption|apply keeps_query; assumption|].
    intros l. apply keeps_ret; assumption.
  - apply keeps_handle; [assumption..|].
    apply keeps_bind; [assumption|apply keeps_query; assumption|].
    intros [|c l]; apply keeps_ret; assumption.
  - apply keeps_list; assumption.
  - apply keeps_get; assumption.
Qed.

(* ===================================================================== *)
(** * Tables that do not exist *)
(* ===================================================================== *)

(** [loadSearch] never fails and never changes the state: it adds the
    [_search] filter when there is a search query and the table has
    searchable columns configured, and hands the filters back otherwise. *)
Lemma loadSearch_result (table : string) (p : GenericController.parsed) (st : state) :
  run (GenericController.loadSearch table p) st
  = (Return (search_filters (db st) table p), st).
Proof.
  unfold GenericController.loadSearch, search_filters, searchable_columns_of.
  destruct (truthy (GenericController.searchQuery p)); [|reflexivity].
  unfold try_catch. cbn [run]. rewrite run_bind. cbn [query run].
  unfold config_select_active, config_relation.
  destruct (configurations (db st)) as [rows|]; [|reflexivity].
  cbn [mbind outcome_bind].
  destruct (List.filter (fun c => named table c && active c) rows) as [|config rest];
    [reflexivity|].
  destruct (cfg_searchable_columns config) as [[|col cols]|]; reflexivity.
Qed.

Lemma controller_list_run (req : GenericController.request) (st : state) :
  run (GenericController.list_ req) st
  = match run (GenericService.list_ (GenericController.params_table req)
                 (fst (GenericController.pagination (GenericController.query_ req)))
                 (snd (GenericController.pagination (GenericController.query_ req)))
                 (search_filters (db st) (GenericController.params_table req)
                    (GenericController.parseFilters (GenericController.query_ req)))
                 (obj_get (GenericController.query_ req) "sortBy")
                 (obj_get (GenericController.query_ req) "sortOrder")) st with
    | (Return result, st') => (Return (listed result), st')
    | (Throw e, st') => (Return (failure 400 e), st')
    end.
Proof.
  unfold GenericController.list_, handle, try_catch. cbn [run]. cbv zeta.
  destruct (GenericController.pagination (GenericController.query_ req)) as [page limit].
  rewrite run_bind, loadSearch_result. rewrite run_bind. cbn [fst snd].
  destruct (run (GenericService.list_ _ _ _ _ _ _) st) as [[result|e] st']; reflexivity.
Qed.

Lemma controller_get_run (req : GenericController.request) (st : state) :
  run (GenericController.get req) st
  = match run (GenericService.get (GenericController.params_table req)
                 (JStr (GenericController.params_id req))) st with
    | (Return result, st') =>
        (Return (if truthy result
                 then json [("success", JBool true); ("data", result)]
                 else status_json 404 [("success", JBool false);
                                       ("message", JStr "Not found")]), st')
    | (Throw e, st') => (Return (failure 400 e), st')
    end.
Proof.
  unfold GenericController.get, handle, try_catch. cbn [run]. rewrite run_bind.
  destruct (run (GenericService.get _ _) st) as [[result|e] st']; [|reflexivity].
  destruct (truthy result); reflexivity.
Qed.

Lemma controller_delete_run (req : GenericController.request) (st : state) :
  run (GenericController.delete_ req) st
  = match run (GenericService.delete_ (GenericController.params_table req)
                 (JStr (GenericController.params_id req))) st with
    | (Return _, st') =>
        (Return (json [("success", JBool true);
                       ("message", JStr "Deleted successfully")]), st')
    | (Throw e, st') => (Return (failure 400 e), st')
    end.
Proof.
  unfold GenericController.delete_, handle, try_catch. cbn [run]. rewrite run_bind.
  destruct (run (GenericService.delete_ _ _) st) as [[[]|e] st']; reflexivity.
Qed.

(** X7. A table the catalog does not have is rejected before anything
    else happens: each of the five operations of the record service fails
    with 'Invalid table' and leaves the state as it was, even when the
    cache still holds metadata for that name, and each of the five record
    handlers answers 400 with that message. *)
Theorem unknown_table_is_rejected (st : state) (req : GenericController.request) :
  tables (db st) !! GenericController.params_table req = None ->
  (forall page limit filters sortBy sortOrder,
      run (GenericService.list_ (GenericController.params_table req) page limit filters
             sortBy sortOrder) st
      = (Throw {| message := "Invalid table" |}, st))
  /\ (forall id,
        run (GenericService.get (GenericController.params_table req) id) st
        = (Throw {| message := "Invalid table" |}, st))
  /\ (forall data,
        run (GenericService.create (GenericController.params_table req) data) st
        = (Throw {| message := "Invalid table" |}, st))
  /\ (forall id data,
        run (GenericService.update (GenericController.params_table req) id data) st
        = (Throw {| message := "Invalid table" |}, st))
  /\ (forall id,
        run (GenericService.delete_ (GenericController.params_table req) id) st
        = (Throw {| message := "Invalid table" |}, st))
  /\ run (GenericController.list_ req) st = (Return (rejected "Invalid table"), st)
  /\ run (GenericController.get req) st = (Return (rejected "Invalid table"), st)
  /\ run (GenericController.create req) st = (Return (rejected "Invalid table"), st)
  /\ run (GenericController.update req) st = (Return (rejected "Invalid table"), st)
  /\ run (GenericController.delete_ req) st = (Return (rejected "Invalid table"), st).
Proof.
  intros Ht.
  assert (Hlist : forall page limit filters sortBy sortOrder,
             run (GenericService.list_ (GenericController.params_table req) page limit
                    filters sortBy sortOrder) st
             = (Throw {| message := "Invalid table" |}, st)).
  { intros. unfold GenericService.list_.
    rewrite run_bind, (requireTable_absent _ _ Ht). reflexivity. }
  assert (Hget : forall id,
             run (GenericService.get (GenericController.params_table req) id) st
             = (Throw {| message := "Invalid table" |}, st)).
  { intros. unfold GenericService.get.
    rewrite run_bind, (requireTable_absent _ _ Ht). reflexivity. }
  assert (Hcreate : forall data,
             run (GenericService.create (GenericController.params_table req) data) st
             = (Throw {| message := "Invalid table" |}, st)).
  { intros. unfold GenericService.create.
    rewrite run_bind, (requireTable_absent _ _ Ht). reflexivity. }
  assert (Hupdate : forall id data,
             run (GenericService.update (GenericController.params_table req) id data) st
             = (Throw {| message := "Invalid table" |}, st)).
  { intros. unfold GenericService.update.
    rewrite run_bind, (requireTable_absent _ _ Ht). reflexivity. }
  assert (Hdelete : forall id,
             run (GenericService.delete_ (GenericController.params_table req) id) st
             = (Throw {| message := "Invalid table" |}, st)).
  { intros. unfold GenericService.delete_.
    rewrite run_bind, (requireTable_absent _ _ Ht). reflexivity. }
  repeat match goal with |- _ /\ _ => split end; try assumption.
  - rewrite controller_list_run, Hlist. reflexivity.
  - rewrite controller_get_run, Hget. reflexivity.
  - rewrite controller_create_run, Hcreate. reflexivity.
  - rewrite controller_update_run, Hupdate. reflexivity.
  - rewrite controller_delete_run, Hdelete. reflexivity.
Qed.

(** On the process that described [countries] before the table was
    dropped, the cache still answers for the name, and reading the record
    1 is rejected all the same. *)
Lemma unknown_table_is_rejected_witness :
  is_Some (metadataCache Scenario.stale !! "countries")
  /\ run (GenericController.get (request_for "countries" "1" [] [])) Scenario.stale
     = (Return (rejected "Invalid table"), Scenario.stale).
Proof.
  split; [vm_compute; eauto|].
  apply (unknown_table_is_rejected Scenario.stale (request_for "countries" "1" [] [])).
  reflexivity.
Defined.

(* ===================================================================== *)
(** * Records addressed by their primary key (genericService.ts) *)
(* ===================================================================== *)

Lemma reads_catalog_faithful (st : state) (table : string) (t : Sql.table) :
  reads_catalog st table ->
  tables (db st) !! table = Some t ->
  forall md, metadataCache st !! table = Some md ->
             md = buildMetadata table (t_columns t).
Proof.
  intros [Hco|Hmiss] Ht md Hmd; [|congruence].
  destruct (Hco _ _ Hmd) as (t' & Ht' & ->). congruence.
Qed.

(** Describing a table that exists, when the cache holds nothing else for
    its name than its metadata. *)
Lemma describe_run (st : state) (table : string) (t : Sql.table) :
  tables (db st) !! table = Some t ->
  (forall md, metadataCache st !! table = Some md ->
              md = buildMetadata table (t_columns t)) ->
  run (getTableMetadata table) st
  = (Return (buildMetadata table (t_columns t)), described st table t).
Proof.
  intros Ht Hf. destruct (metadataCache st !! table) as [md|] eqn:Hc.
  - rewrite (getTableMetadata_hit _ _ _ Hc), (Hf md eq_refl). f_equal.
    unfold described. destruct st as [d c]. cbn in *. f_equal.
    symmetry. apply stdpp.fin_maps.insert_id. rewrite <- (Hf md eq_refl). exact Hc.
  - apply getTableMetadata_miss_present; assumption.
Qed.

(** The WHERE clause [pk = :id] selects the rows holding [id] in [pk]. *)
Lemma where_key (t : Sql.table) (pk : string) (id : value) :
  has_column t pk = true ->
  is_undefined id = false ->
  is_Some (bind_value id) ->
  exists keep,
    compile_where t {["id" := id]} [Atom (Eq pk "id")] = Return keep
    /\ forall r, keep r = holds_value t pk id r.
Proof.
  intros Hpk Hu [lit Hlit]. cbn [compile_where compile_cond]. unfold compile_atom.
  cbn [atom_param atom_col atom_op].
  rewrite (parameter_present _ "id" id (lookup_singleton_eq _ _) Hu), Hlit, Hpk.
  cbn [mbind outcome_bind]. eexists. split; [reflexivity|].
  intros r. unfold holds_value. rewrite Hlit. apply andb_true_r.
Qed.

Lemma select_key (d : database) (table : string) (t : Sql.table) (pk : string)
    (id : value) :
  tables d !! table = Some t ->
  has_column t pk = true ->
  is_undefined id = false ->
  is_Some (bind_value id) ->
  select_rows d table [Atom (Eq pk "id")] None false {["id" := id]}
  = Return (List.filter (holds_value t pk id) (t_rows t)).
Proof.
  intros Ht Hpk Hu Hid. unfold select_rows, lookup_table. rewrite Ht.
  cbn [mbind outcome_bind].
  destruct (where_key t pk id Hpk Hu Hid) as (keep & -> & Hkeep).
  cbn. f_equal. apply List.filter_ext. exact Hkeep.
Qed.

Lemma delete_key (d : database) (table : string) (t : Sql.table) (pk : string)
    (id : value) :
  tables d !! table = Some t ->
  has_column t pk = true ->
  is_undefined id = false ->
  is_Some (bind_value id) ->
  delete_rows d table [Atom (Eq pk "id")] {["id" := id]}
  = Return (with_table d table
              (with_rows t (List.filter (fun r => negb (holds_value t pk id r)) (t_rows t)))).
Proof.
  intros Ht Hpk Hu Hid. unfold delete_rows, lookup_table. rewrite Ht.
  cbn [mbind outcome_bind].
  destruct (where_key t pk id Hpk Hu Hid) as (keep & -> & Hkeep).
  cbn. unfold with_rows. do 3 f_equal. apply List.filter_ext.
  intros r. rewrite Hkeep. reflexivity.
Qed.

(** [get], on a table that exists and is described from the catalog. *)
Lemma get_run (st : state) (table : string) (t : Sql.table) (id : value) :
  tables (db st) !! table = Some t ->
  (forall md, metadataCache st !! table = Some md ->
              md = buildMetadata table (t_columns t)) ->
  has_column t (primary_key t) = true ->
  is_undefined id = false ->
  is_Some (bind_value id) ->
  run (GenericService.get table id) st
  = (Return (match List.filter (holds_value t (primary_key t) id) (t_rows t) with
             | r :: _ => js_of_row r
             | [] => JUndefined
             end), described st table t).
Proof.
  intros Ht Hf Hpk Hu Hid. unfold GenericService.get.
  rewrite run_bind, requireTable_run, Ht.
  rewrite run_bind, (describe_run _ _ _ Ht Hf).
  cbn [md_primaryKey buildMetadata]. rewrite run_bind. cbn [query run].
  change (db (described st table t)) with (db st).
  fold (primary_key t). rewrite (select_key _ _ t _ _ Ht Hpk Hu Hid).
  reflexivity.
Qed.

(** [delete], under the same conditions. *)
Lemma delete_run (st : state) (table : string) (t : Sql.table) (id : value) :
  tables (db st) !! table = Some t ->
  (forall md, metadataCache st !! table = Some md ->
              md = buildMetadata table (t_columns t)) ->
  has_column t (primary_key t) = true ->
  is_undefined id = false ->
  is_Some (bind_value id) ->
  run (GenericService.delete_ table id) st
  = (Return tt,
     {| db := with_table (db st) table
                (with_rows t (List.filter (fun r => negb (holds_value t (primary_key t) id r))
                                          (t_rows t)));
        metadataCache := metadataCache (described st table t) |}).
Proof.
  intros Ht Hf Hpk Hu Hid. unfold GenericService.delete_.
  rewrite run_bind, requireTable_run, Ht.
  rewrite run_bind, (describe_run _ _ _ Ht Hf).
  cbn [md_primaryKey buildMetadata]. unfold execute. cbn [run].
  change (db (described st table t)) with (db st).
  fold (primary_key t). rewrite (delete_key _ _ t _ _ Ht Hpk Hu Hid).
  reflexivity.
Qed.

Lemma with_table_same (d : database) (table : string) (t : Sql.table) :
  tables d !! table = Some t ->
  with_table d table (with_rows t (t_rows t)) = d.
Proof.
  intros Ht. destruct d as [ts cs n], t as [cols rows ai]. unfold with_table, with_rows.
  cbn in *. f_equal. apply stdpp.fin_maps.insert_id. exact Ht.
Qed.

Lemma filter_none {A : Type} (f : A -> bool) (l : list A) :
  (forall x, In x l -> f x = false) -> List.filter f l = [].
Proof.
  induction l as [|x l IH]; intros H; [reflexivity|]. cbn.
  rewrite (H x (or_introl eq_refl)). apply IH. intros y Hy. apply H. right. exact Hy.
Qed.

Lemma filter_all {A : Type} (f : A -> bool) (l : list A) :
  (forall x, In x l -> f x = true) -> List.filter f l = l.
Proof.
  induction l as [|x l IH]; intros H; [reflexivity|]. cbn.
  rewrite (H x (or_introl eq_refl)). f_equal. apply IH. intros y Hy. apply H. right. exact Hy.
Qed.

Lemma filter_first {A : Type} (f : A -> bool) (before after : list A) (x : A) :
  (forall y, In y before -> f y = false) ->
  f x = true ->
  List.filter f (before ++ x :: after) = x :: List.filter f after.
Proof.
  intros Hb Hx. rewrite List.filter_app, (filter_none f before Hb). cbn.
  rewrite Hx. reflexivity.
Qed.

(** X8. [get] reads the row the engine finds [id] in, by the primary key
    column: on a table that exists, described from the catalog, whose
    primary key is one of its columns, when one row and no other holds
    [id] it returns that row and the handler answers 200 with it; when no
    row holds [id] it returns [undefined], which is not an error, and the
    handler answers 404 'Not found'. Either way the database is left as
    it was. *)
Theorem get_returns_the_identified_row (st : state) (table : string) (t : Sql.table)
    (id : value) :
  reads_catalog st table ->
  tables (db st) !! table = Some t ->
  has_column t (primary_key t) = true ->
  is_undefined id = false ->
  is_Some (bind_value id) ->
  exists st',
    db st' = db st
    /\ ((forall r, In r (t_rows t) -> holds_value t (primary_key t) id r = false) ->
        run (GenericService.get table id) st = (Return JUndefined, st')
        /\ forall req,
             GenericController.params_table req = table ->
             JStr (GenericController.params_id req) = id ->
             run (GenericController.get req) st
             = (Return (status_json 404 [("success", JBool false);
                                         ("message", JStr "Not found")]), st'))
    /\ (forall before r after,
          t_rows t = before ++ r :: after ->
          (forall r', In r' before \/ In r' after ->
                      holds_value t (primary_key t) id r' = false) ->
          holds_value t (primary_key t) id r = true ->
          run (GenericService.get table id) st = (Return (js_of_row r), st')
          /\ forall req,
               GenericController.params_table req = table ->
               JStr (GenericController.params_id req) = id ->
               run (GenericController.get req) st
               = (Return (json [("success", JBool true); ("data", js_of_row r)]), st')).
Proof.
  intros Hrc Ht Hpk Hu Hid. exists (described st table t).
  pose proof (get_run st table t id Ht (reads_catalog_faithful _ _ _ Hrc Ht) Hpk Hu Hid)
    as Hrun.
  split; [reflexivity|]. split.
  - intros Hnone. rewrite (filter_none _ _ Hnone) in Hrun. split; [exact Hrun|].
    intros req <- <-. rewrite controller_get_run, Hrun. reflexivity.
  - intros before r after Hrows Hb Hr.
    rewrite Hrows, (filter_first _ _ _ _ (fun r' H => Hb r' (or_introl H)) Hr) in Hrun.
    split; [exact Hrun|].
    intros req <- <-. rewrite controller_get_run, Hrun. reflexivity.
Qed.

(** On the seeded database, the record 2 of [countries] is India, and
    there is no record 7. *)
Lemma get_returns_the_identified_row_witness :
  fst (run (GenericService.get "countries" (JNum (Fin 2))) Scenario.fresh)
  = Return (js_of_row (Scenario.country 2 "India" "IND"))
  /\ fst (run (GenericService.get "countries" (JNum (Fin 7))) Scenario.fresh)
     = Return JUndefined.
Proof.
  destruct (get_returns_the_identified_row Scenario.fresh "countries" Scenario.countries
              (JNum (Fin 2))) as (st' & _ & _ & Hsome);
    [left; apply cache_coherent_fresh|reflexivity|reflexivity|reflexivity|cbn; eauto|].
  destruct (get_returns_the_identified_row Scenario.fresh "countries" Scenario.countries
              (JNum (Fin 7))) as (st'' & _ & Hnone & _);
    [left; apply cache_coherent_fresh|reflexivity|reflexivity|reflexivity|cbn; eauto|].
  split.
  - destruct (Hsome [Scenario.country 1 "United States" "USA"]
                    (Scenario.country 2 "India" "IND")
                    [Scenario.country 3 "Germany" "DEU"]) as [-> _];
      [reflexivity|intros r' [[<-|[]]|[<-|[]]]; reflexivity|reflexivity|reflexivity].
  - destruct Hnone as [-> _]; [|reflexivity].
    intros r [<-|[<-|[<-|[]]]]; reflexivity.
Defined.

(** [delete] of an id that no row holds, on a table already described,
    changes nothing at all. *)
Lemma delete_nothing (st : state) (table : string) (t : Sql.table) (id : value) :
  tables (db st) !! table = Some t ->
  metadataCache st !! table = Some (buildMetadata table (t_columns t)) ->
  has_column t (primary_key t) = true ->
  is_undefined id = false ->
  is_Some (bind_value id) ->
  (forall r, In r (t_rows t) -> holds_value t (primary_key t) id r = false) ->
  run (GenericService.delete_ table id) st = (Return tt, st).
Proof.
  intros Ht Hc Hpk Hu Hid Hnone.
  rewrite (delete_run st table t id Ht); try assumption.
  2:{ intros md Hmd. congruence. }
  f_equal. rewrite filter_all.
  2:{ intros r Hr. rewrite (Hnone r Hr). reflexivity. }
  rewrite (with_table_same _ _ _ Ht). destruct st as [d c]. cbn in *. f_equal.
  apply stdpp.fin_maps.insert_id. exact Hc.
Qed.

(** X9. [delete] removes exactly the rows the engine finds [id] in, by
    the primary key column: the rows that stay are the others, and the
    columns of the table are untouched. Deleting an id that no row holds
    succeeds as well and leaves the database as it was. *)
Theorem delete_removes_identified_rows (st : state) (table : string) (t : Sql.table)
    (id : value) :
  reads_catalog st table ->
  tables (db st) !! table = Some t ->
  has_column t (primary_key t) = true ->
  is_undefined id = false ->
  is_Some (bind_value id) ->
  exists st' t',
    run (GenericService.delete_ table id) st = (Return tt, st')
    /\ tables (db st') !! table = Some t'
    /\ t_columns t' = t_columns t
    /\ t_rows t'
       = List.filter (fun r => negb (holds_value t (primary_key t) id r)) (t_rows t)
    /\ (forall r, In r (t_rows t') <->
                  In r (t_rows t) /\ holds_value t (primary_key t) id r = false)
    /\ ((forall r, In r (t_rows t) -> holds_value t (primary_key t) id r = false) ->
        db st' = db st)
    /\ forall req,
         GenericController.params_table req = table ->
         JStr (GenericController.params_id req) = id ->
         run (GenericController.delete_ req) st
         = (Return (json [("success", JBool true);
                          ("message", JStr "Deleted successfully")]), st').
Proof.
  intros Hrc Ht Hpk Hu Hid. eexists _, _.
  split; [apply (delete_run st table t id Ht (reads_catalog_faithful _ _ _ Hrc Ht) Hpk Hu Hid)|].
  split; [cbn; apply lookup_insert_eq|].
  split; [reflexivity|]. split; [reflexivity|]. split; [|split].
  - intros r. cbn [with_rows t_rows]. rewrite List.filter_In, negb_true_iff. reflexivity.
  - intros Hnone. cbn [db]. rewrite filter_all.
    + apply with_table_same, Ht.
    + intros r Hr. rewrite (Hnone r Hr). reflexivity.
  - intros req <- <-. rewrite controller_delete_run.
    rewrite (delete_run st _ t _ Ht (reads_catalog_faithful _ _ _ Hrc Ht) Hpk Hu Hid).
    reflexivity.
Qed.

(** Deleting the record 2 of [countries] leaves the records 1 and 3. *)
Lemma delete_removes_identified_rows_witness :
  exists st' t',
    run (GenericService.delete_ "countries" (JNum (Fin 2))) Scenario.fresh = (Return tt, st')
    /\ tables (db st') !! "countries" = Some t'
    /\ t_rows t' = [Scenario.country 1 "United States" "USA";
                    Scenario.country 3 "Germany" "DEU"].
Proof.
  destruct (delete_removes_identified_rows Scenario.fresh "countries" Scenario.countries
              (JNum (Fin 2))) as (st' & t' & Hrun & Ht' & _ & Hrows & _);
    [left; apply cache_coherent_fresh|reflexivity|reflexivity|reflexivity|cbn; eauto|].
  exists st', t'. split; [exact Hrun|]. split; [exact Ht'|]. rewrite Hrows. reflexivity.
Defined.

(** X10. After [delete] the record is gone and the deletion is not
    repeated: [get] of the same id then returns [undefined] (404 from the
    handler), and a second [delete] of the same id succeeds without
    changing anything. *)
Theorem delete_then_get_and_delete (st : state) (table : string) (t : Sql.table)
    (id : value) :
  reads_catalog st table ->
  tables (db st) !! table = Some t ->
  has_column t (primary_key t) = true ->
  is_undefined id = false ->
  is_Some (bind_value id) ->
  exists st',
    run (GenericService.delete_ table id) st = (Return tt, st')
    /\ run (GenericService.get table id) st' = (Return JUndefined, st')
    /\ run (GenericService.delete_ table id) st' = (Return tt, st')
    /\ forall req,
         GenericController.params_table req = table ->
         JStr (GenericController.params_id req) = id ->
         run (GenericController.get req) st'
         = (Return (status_json 404 [("success", JBool false);
                                     ("message", JStr "Not found")]), st').
Proof.
  intros Hrc Ht Hpk Hu Hid.
  pose proof (delete_run st table t id Ht (reads_catalog_faithful _ _ _ Hrc Ht) Hpk Hu Hid)
    as Hrun.
  set (t' := with_rows t (List.filter (fun r => negb (holds_value t (primary_key t) id r))
                                      (t_rows t))) in *.
  set (st' := {| db := with_table (db st) table t';
                 metadataCache := metadataCache (described st table t) |}) in *.
  assert (Ht' : tables (db st') !! table = Some t') by apply lookup_insert_eq.
  assert (Hc' : metadataCache st' !! table = Some (buildMetadata table (t_columns t')))
    by apply lookup_insert_eq.
  assert (Hnone : forall r, In r (t_rows t') -> holds_value t' (primary_key t') id r = false).
  { intros r Hr. apply List.filter_In in Hr.
    change (holds_value t (primary_key t) id r = false). apply negb_true_iff, Hr. }
  assert (Hget : run (GenericService.get table id) st' = (Return JUndefined, st')).
  { rewrite (get_run st' table t' id Ht'); try assumption.
    - rewrite (filter_none _ _ Hnone). f_equal.
      unfold described. destruct st' as [d c]. cbn in *. f_equal.
      apply stdpp.fin_maps.insert_id. exact Hc'.
    - intros md Hmd. congruence. }
  exists st'. split; [exact Hrun|]. split; [exact Hget|]. split.
  - apply (delete_nothing st' table t' id); assumption.
  - intros req <- <-. rewrite controller_get_run, Hget. reflexivity.
Qed.

(** Deleting the record 2 of [countries] twice, and reading it in between. *)
Lemma delete_then_get_and_delete_witness :
  exists st',
    run (GenericService.delete_ "countries" (JNum (Fin 2))) Scenario.fresh = (Return tt, st')
    /\ run (GenericService.get "countries" (JNum (Fin 2))) st' = (Return JUndefined, st')
    /\ run (GenericService.delete_ "countries" (JNum (Fin 2))) st' = (Return tt, st').
Proof.
  destruct (delete_then_get_and_delete Scenario.fresh "countries" Scenario.countries
              (JNum (Fin 2))) as (st' & H1 & H2 & H3 & _);
    [left; apply cache_coherent_fresh|reflexivity|reflexivity|reflexivity|cbn; eauto|].
  exists st'. repeat split; assumption.
Defined.

Lemma where_key_unknown (t : Sql.table) (pk : string) (id : value) :
  has_column t pk = false ->
  is_undefined id = false ->
  is_Some (bind_value id) ->
  compile_where t {["id" := id]} [Atom (Eq pk "id")]
  = Throw (unknown_column pk "where clause").
Proof.
  intros Hpk Hu [lit Hlit]. cbn [compile_where compile_cond]. unfold compile_atom.
  cbn [atom_param atom_col atom_op].
  rewrite (parameter_present _ "id" id (lookup_singleton_eq _ _) Hu), Hlit, Hpk.
  reflexivity.
Qed.

(** X11. The fallback primary key: a table with no column flagged PRI is
    addressed through the column [id]; when it has no such column either,
    [get] and [delete] fail with the engine's unknown-column error, [update]
    fails whatever the record, nothing is written, and the handlers answer
    400. *)
Theorem keyless_table_cannot_be_addressed (st : state) (table : string)
    (t : Sql.table) (id : value) :
  reads_catalog st table ->
  tables (db st) !! table = Some t ->
  Forall (fun c => ~ flagged_primary c) (t_columns t) ->
  has_column t "id" = false ->
  is_undefined id = false ->
  is_Some (bind_value id) ->
  primary_key t = "id"
  /\ run (GenericService.get table id) st
     = (Throw (unknown_column "id" "where clause"), described st table t)
  /\ run (GenericService.delete_ table id) st
     = (Throw (unknown_column "id" "where clause"), described st table t)
  /\ (forall data, exists e,
        run (GenericService.update table id data) st = (Throw e, described st table t))
  /\ forall req,
       GenericController.params_table req = table ->
       JStr (GenericController.params_id req) = id ->
       run (GenericController.get req) st
       = (Return (rejected "Unknown column 'id' in 'where clause'"), described st table t)
       /\ run (GenericController.delete_ req) st
          = (Return (rejected "Unknown column 'id' in 'where clause'"),
             described st table t).
Proof.
  intros Hrc Ht Hnone Hcol Hu Hid.
  pose proof (detectPrimaryKey_none _ Hnone) as Hpk. fold (primary_key t) in Hpk.
  pose proof (reads_catalog_faithful _ _ _ Hrc Ht) as Hf.
  assert (Hget : run (GenericService.get table id) st
                 = (Throw (unknown_column "id" "where clause"), described st table t)).
  { unfold GenericService.get. rewrite run_bind, requireTable_run, Ht.
    rewrite run_bind, (describe_run _ _ _ Ht Hf).
    cbn [md_primaryKey buildMetadata]. fold (primary_key t). rewrite Hpk.
    rewrite run_bind. cbn [query run]. change (db (described st table t)) with (db st).
    unfold select_rows, lookup_table. rewrite Ht. cbn [mbind outcome_bind].
    rewrite (where_key_unknown t "id" id Hcol Hu Hid). reflexivity. }
  assert (Hdel : run (GenericService.delete_ table id) st
                 = (Throw (unknown_column "id" "where clause"), described st table t)).
  { unfold GenericService.delete_. rewrite run_bind, requireTable_run, Ht.
    rewrite run_bind, (describe_run _ _ _ Ht Hf).
    cbn [md_primaryKey buildMetadata]. fold (primary_key t). rewrite Hpk.
    unfold execute. cbn [run]. change (db (described st table t)) with (db st).
    unfold delete_rows, lookup_table. rewrite Ht. cbn [mbind outcome_bind].
    rewrite (where_key_unknown t "id" id Hcol Hu Hid). reflexivity. }
  split; [exact Hpk|]. split; [exact Hget|]. split; [exact Hdel|]. split.
  - intros data. unfold GenericService.update. rewrite run_bind, requireTable_run, Ht.
    rewrite run_bind, (describe_run _ _ _ Ht Hf).
    cbn [md_primaryKey buildMetadata]. fold (primary_key t). rewrite Hpk.
    rewrite run_bind.
    destruct (uniqueConstraints_outcome table data [Atom (NotEq "id" "id")]
                {["id" := id]} (described st table t)) as [->|(e & _ & ->)]; [|eauto].
    rewrite run_bind. unfold execute. cbn [run].
    change (db (described st table t)) with (db st).
    unfold update_rows. destruct (bind_values (values data)) as [lits|e]; [|cbn; eauto].
    cbn [mbind outcome_bind]. destruct Hid as [lit ->]. cbn [mbind outcome_bind].
    destruct (bool_decide (keys data = [])); [cbn; eauto|].
    cbn [mbind outcome_bind]. unfold lookup_table. rewrite Ht. cbn [mbind outcome_bind].
    destruct (check_columns t (keys data) "field list") as [[]|e]; [|cbn; eauto].
    cbn [mbind outcome_bind]. unfold check_columns. cbn [List.find]. rewrite Hcol.
    cbn. eauto.
  - intros req <- <-. rewrite controller_get_run, controller_delete_run, Hget, Hdel.
    split; reflexivity.
Qed.

(** The table of enrolments has no primary key and no column [id]: its
    pairs cannot be read by id. *)
Lemma keyless_table_cannot_be_addressed_witness :
  fst (run (GenericController.get (request_for "enrolments" "1" [] [])) enrolments)
  = Return (rejected "Unknown column 'id' in 'where clause'").
Proof.
  destruct (keyless_table_cannot_be_addressed enrolments "enrolments" enrolments_table
              (JStr "1")) as (_ & _ & _ & _ & H).
  - left. apply cache_coherent_fresh.
  - reflexivity.
  - repeat constructor; discriminate.
  - reflexivity.
  - reflexivity.
  - cbn. eauto.
  - destruct (H (request_for "enrolments" "1" [] []) eq_refl eq_refl) as [-> _].
    reflexivity.
Defined.

(* ===================================================================== *)
(** * What [update] writes *)
(* ===================================================================== *)

Lemma bind_values_literals (data : object) :
  (forall v, In v (values data) -> is_Some (bind_value v)) ->
  bind_values (values data) = Return (literals data).
Proof.
  unfold literals, values. induction data as [|[k v] data IH]; intros H; [reflexivity|].
  cbn in *. destruct (H v (or_introl eq_refl)) as [lit ->].
  rewrite IH; [reflexivity|]. intros w Hw. apply H. right. exact Hw.
Qed.

(** The UPDATE statement of [update], on a writable record. *)
Lemma update_key (d : database) (table : string) (t : Sql.table) (data : object)
    (pk : string) (id : value) :
  tables d !! table = Some t ->
  writable t data ->
  keys data <> [] ->
  has_column t pk = true ->
  is_Some (bind_value id) ->
  update_rows d table (keys data) (values data) pk id
  = Return (with_table d table
              (with_rows t (List.map (fun r => if holds_value t pk id r
                                               then assigned data r else r) (t_rows t)))).
Proof.
  intros Ht [Hkeys Hvals] Hne Hpk [idlit Hid]. unfold update_rows.
  rewrite (bind_values_literals data Hvals). cbn [mbind outcome_bind].
  rewrite Hid. cbn [mbind outcome_bind].
  rewrite bool_decide_eq_false_2 by exact Hne. cbn [mbind outcome_bind].
  unfold lookup_table. rewrite Ht. cbn [mbind outcome_bind].
  rewrite (check_columns_total t _ _ Hkeys). cbn [mbind outcome_bind].
  rewrite (check_columns_total t [pk]); [|intros k [<-|[]]; exact Hpk].
  cbn [mbind outcome_bind]. unfold with_rows. do 3 f_equal.
  apply List.map_ext. intros r. unfold holds_value. rewrite Hid. reflexivity.
Qed.

(** [update], when the uniqueness check lets the record through: the
    UPDATE statement, then [get] on the database it leaves. *)
Lemma update_then_get (st : state) (table : string) (t : Sql.table) (id : value)
    (data : object) :
  reads_catalog st table ->
  tables (db st) !! table = Some t ->
  has_column t (primary_key t) = true ->
  is_undefined id = false ->
  is_Some (bind_value id) ->
  writable t data ->
  keys data <> [] ->
  Forall (fun c => ~ conflicts t data (other_rows t (primary_key t) id) c)
         (unique_columns (db st) table) ->
  run (GenericService.update table id data) st
  = run (GenericService.get table id)
        {| db := with_table (db st) table
                   (with_rows t (List.map (fun r => if holds_value t (primary_key t) id r
                                                    then assigned data r else r)
                                          (t_rows t)));
           metadataCache := metadataCache (described st table t) |}.
Proof.
  intros Hrc Ht Hpk Hu Hid Hw Hne Hown.
  unfold GenericService.update. rewrite run_bind, requireTable_run, Ht.
  rewrite run_bind, (describe_run _ _ _ Ht (reads_catalog_faithful _ _ _ Hrc Ht)).
  cbn [md_primaryKey buildMetadata]. fold (primary_key t).
  rewrite run_bind, uniqueConstraints_run.
  rewrite (unique_loop_none (described st table t) table t data _ _
             (other_rows t (primary_key t) id));
    [|apply count_update; assumption|exact Hown].
  cbn [fst]. rewrite run_bind. unfold execute at 1. cbn [run].
  change (db (described st table t)) with (db st).
  rewrite (update_key _ _ t data _ _ Ht Hw Hne Hpk Hid). reflexivity.
Qed.

(** X12. [update] of an id that the engine finds in no row is not an
    error: when the uniqueness check passes, nothing is written, the
    service returns [undefined], and the handler answers 200 with a
    success flag and no record, not 404. *)
Theorem update_of_missing_id_succeeds (st : state) (table : string) (t : Sql.table)
    (id : value) (data : object) :
  reads_catalog st table ->
  tables (db st) !! table = Some t ->
  has_column t (primary_key t) = true ->
  is_undefined id = false ->
  is_Some (bind_value id) ->
  writable t data ->
  keys data <> [] ->
  Forall (fun c => ~ conflicts t data (other_rows t (primary_key t) id) c)
         (unique_columns (db st) table) ->
  (forall r, In r (t_rows t) -> holds_value t (primary_key t) id r = false) ->
  exists st',
    run (GenericService.update table id data) st = (Return JUndefined, st')
    /\ db st' = db st
    /\ forall req,
         GenericController.params_table req = table ->
         JStr (GenericController.params_id req) = id ->
         GenericController.body_ req = data ->
         run (GenericController.update req) st
         = (Return (json [("success", JBool true); ("data", JUndefined)]), st').
Proof.
  intros Hrc Ht Hpk Hu Hid Hw Hne Hown Hnone.
  pose proof (update_then_get st table t id data Hrc Ht Hpk Hu Hid Hw Hne Hown) as Hrun.
  assert (Hrows : List.map (fun r => if holds_value t (primary_key t) id r
                                     then assigned data r else r) (t_rows t)
                  = t_rows t).
  { rewrite <- (List.map_id (t_rows t)) at 2. apply List.map_ext_in.
    intros r Hr. rewrite (Hnone r Hr). reflexivity. }
  rewrite Hrows, (with_table_same _ _ _ Ht) in Hrun.
  rewrite (get_run _ table t id) in Hrun; try assumption.
  2:{ intros md. cbn. rewrite lookup_insert_eq. congruence. }
  rewrite (filter_none _ _ Hnone) in Hrun.
  eexists. split; [exact Hrun|]. split; [reflexivity|].
  intros req <- <- <-. rewrite controller_update_run, Hrun. reflexivity.
Qed.

(** Updating the record 7 of [countries], which does not exist. *)
Lemma update_of_missing_id_succeeds_witness :
  exists st',
    run (GenericService.update "countries" (JNum (Fin 7)) [("name", JStr "Atlantis")])
        Scenario.fresh
    = (Return JUndefined, st')
    /\ db st' = db Scenario.fresh.
Proof.
  destruct (update_of_missing_id_succeeds Scenario.fresh "countries" Scenario.countries
              (JNum (Fin 7)) [("name", JStr "Atlantis")]) as (st' & Hrun & Hdb & _).
  - left. apply cache_coherent_fresh.
  - reflexivity.
  - reflexivity.
  - reflexivity.
  - cbn. eauto.
  - split.
    + intros k [<-|[]]; reflexivity.
    + intros v [<-|[]]; cbn; eauto.
  - discriminate.
  - constructor; [|constructor]. intros [H _]. discriminate.
  - intros r [<-|[<-|[<-|[]]]]; reflexivity.
  - exists st'. split; assumption.
Defined.

(* ===================================================================== *)
(** * The filters of a list request (genericController.ts) *)
(* ===================================================================== *)

Lemma strip_prefix_append (p s : string) : GenericController.strip_prefix p (p +:+ s) = Some s.
Proof.
  induction p as [|c p IH]; [destruct s; reflexivity|].
  rewrite append_cons. cbn. rewrite Ascii.eqb_refl. exact IH.
Qed.

Lemma strip_prefix_Some (p s r : string) :
  GenericController.strip_prefix p s = Some r -> s = p +:+ r.
Proof.
  revert s. induction p as [|c p IH]; intros s H.
  - destruct s; injection H as <-; reflexivity.
  - destruct s as [|d s]; [discriminate|]. cbn in H.
    destruct (Ascii.eqb c d) eqn:E; [|discriminate].
    apply Ascii.eqb_eq in E. subst d. rewrite append_cons. f_equal. apply IH, H.
Qed.

(** The closing bracket after a string is part of no line terminator. *)
Lemma starts_line_terminator_bracket (c : ascii) (f : string) :
  GenericController.starts_line_terminator (String c (f +:+ "]"))
  = GenericController.starts_line_terminator (String c f).
Proof.
  unfold GenericController.starts_line_terminator. f_equal. f_equal.
  destruct f as [|d [|e f]]; [reflexivity| |reflexivity].
  cbn. apply andb_false_r.
Qed.

Lemma bracketed_cons (c : ascii) (s : string) :
  s <> "" ->
  GenericController.bracketed (String c s)
  = if GenericController.starts_line_terminator (String c s) then None
    else inner ← GenericController.bracketed s; Some (String c inner).
Proof. destruct s; [contradiction|reflexivity]. Qed.

Lemma bracketed_append (f : string) :
  one_line f = true -> GenericController.bracketed (f +:+ "]") = Some f.
Proof.
  induction f as [|c f IH]; intros H; [reflexivity|].
  cbn [one_line] in H. apply andb_true_iff in H. destruct H as [Hc Hf].
  rewrite append_cons, bracketed_cons by (destruct f; discriminate).
  rewrite starts_line_terminator_bracket.
  apply negb_true_iff in Hc. rewrite Hc, (IH Hf). reflexivity.
Qed.

Lemma bracketed_Some (s f : string) :
  GenericController.bracketed s = Some f -> s = f +:+ "]" /\ one_line f = true.
Proof.
  revert f. induction s as [|c s IH]; intros f H; [discriminate|].
  cbn [GenericController.bracketed] in H. destruct s as [|d s].
  - destruct (Ascii.eqb c "]") eqn:E; [|discriminate].
    injection H as <-. apply Ascii.eqb_eq in E. subst c. split; reflexivity.
  - destruct (GenericController.starts_line_terminator (String c (String d s))) eqn:Hc;
      [discriminate|].
    destruct (GenericController.bracketed (String d s)) as [inner|] eqn:Hi; [|discriminate].
    cbn in H. injection H as <-. destruct (IH inner eq_refl) as [Hs Hl].
    split.
    + rewrite append_cons. f_equal. exact Hs.
    + cbn [one_line]. rewrite Hs, starts_line_terminator_bracket in Hc.
      rewrite Hc. exact Hl.
Qed.

Lemma legacyMatch_iff (key field : string) :
  GenericController.legacyMatch key = Some field
  <-> key = legacy_key field /\ one_line field = true.
Proof.
  unfold GenericController.legacyMatch, legacy_key. split.
  - destruct (GenericController.strip_prefix "filter[" key) as [rest|] eqn:E; [|discriminate].
    cbn. intros H. apply strip_prefix_Some in E. apply bracketed_Some in H.
    destruct H as [-> Hl]. split; assumption.
  - intros [-> Hl]. rewrite strip_prefix_append. cbn. apply bracketed_append, Hl.
Qed.

Lemma span_append (f : ascii -> bool) (a b : string) :
  all_chars f a = true ->
  match b with EmptyString => True | String c _ => f c = false end ->
  GenericController.span f (a +:+ b) = (a, b).
Proof.
  intros Ha Hb. induction a as [|c a IH].
  - destruct b as [|d b]; [reflexivity|].
    change ("" +:+ String d b) with (String d b). cbn. rewrite Hb. reflexivity.
  - cbn in Ha. apply andb_true_iff in Ha. destruct Ha as [Hc Ha].
    rewrite append_cons. cbn. rewrite Hc, (IH Ha). reflexivity.
Qed.

Lemma span_Some (f : ascii -> bool) (s a b : string) :
  GenericController.span f s = (a, b) -> s = a +:+ b /\ all_chars f a = true.
Proof.
  revert a b. induction s as [|c s IH]; intros a b H.
  - injection H as <- <-. split; reflexivity.
  - cbn in H. destruct (f c) eqn:Hc.
    + destruct (GenericController.span f s) as [a' b'] eqn:E. injection H as <- <-.
      destruct (IH a' b' eq_refl) as [-> Ha]. split; [reflexivity|].
      cbn. rewrite Hc. exact Ha.
    + injection H as <- <-. split; reflexivity.
Qed.

Lemma arrayMatch_iff (key index prop : string) :
  GenericController.arrayMatch key = Some (index, prop)
  <-> key = array_key index prop
      /\ index <> "" /\ all_chars is_digit index = true
      /\ prop <> "" /\ all_chars GenericController.is_word prop = true.
Proof.
  unfold GenericController.arrayMatch, array_key. split.
  - destruct (GenericController.strip_prefix "filters[" key) as [rest|] eqn:E; [|discriminate].
    cbn [mbind option_bind]. apply strip_prefix_Some in E.
    destruct (GenericController.span is_digit rest) as [i rest1] eqn:E1.
    apply span_Some in E1. destruct E1 as [-> Hi].
    destruct (String.eqb i "") eqn:Hne; [discriminate|].
    destruct (GenericController.strip_prefix "][" rest1) as [rest2|] eqn:E2; [|discriminate].
    cbn [mbind option_bind]. apply strip_prefix_Some in E2.
    destruct (GenericController.span GenericController.is_word rest2) as [p rest3] eqn:E3.
    apply span_Some in E3. destruct E3 as [-> Hp].
    destruct (String.eqb p "") eqn:Hnp; [discriminate|].
    destruct (String.eqb rest3 "]") eqn:H3; [|discriminate].
    intros [= <- <-]. apply String.eqb_eq in H3. apply String.eqb_neq in Hne, Hnp.
    subst. repeat split; assumption.
  - intros (-> & Hne & Hi & Hnp & Hp). rewrite strip_prefix_append.
    cbn [mbind option_bind]. rewrite (span_append is_digit index); [|exact Hi|reflexivity].
    rewrite (proj2 (String.eqb_neq _ _) Hne), strip_prefix_append.
    cbn [mbind option_bind].
    rewrite (span_append GenericController.is_word prop); [|exact Hp|reflexivity].
    rewrite (proj2 (String.eqb_neq _ _) Hnp). reflexivity.
Qed.

Lemma arrayMatch_not_legacy (key : string) :
  is_Some (GenericController.arrayMatch key) -> GenericController.legacyMatch key = None.
Proof.
  intros [[index prop] H]. apply arrayMatch_iff in H. destruct H as [-> _]. reflexivity.
Qed.

(** X16. The two key formats of the filters. A key is read as a legacy
    filter exactly when it is [filter[FIELD]] for a FIELD without line
    terminator, and FIELD is what is extracted; it is read as an array
    filter exactly when it is [filters[INDEX][PROP]] for a non-empty run of
    digits INDEX and a non-empty run of word characters PROP; and no key is
    read both ways. *)
Theorem filter_key_formats :
  (forall key field,
      GenericController.legacyMatch key = Some field
      <-> key = legacy_key field /\ one_line field = true)
  /\ (forall key index prop,
        GenericController.arrayMatch key = Some (index, prop)
        <-> key = array_key index prop
            /\ index <> "" /\ all_chars is_digit index = true
            /\ prop <> "" /\ all_chars GenericController.is_word prop = true)
  /\ (forall key, is_Some (GenericController.arrayMatch key) ->
                  GenericController.legacyMatch key = None).
Proof.
  split; [exact legacyMatch_iff|]. split; [exact arrayMatch_iff|].
  exact arrayMatch_not_legacy.
Qed.

(** [filter[name]] is a legacy key for [name], and not an array key. *)
Lemma filter_key_formats_witness :
  GenericController.legacyMatch "filter[name]" = Some "name"
  /\ GenericController.legacyMatch "filters[0][field]" = None.
Proof.
  split.
  - apply (proj1 filter_key_formats "filter[name]" "name"). split; reflexivity.
  - apply (proj2 (proj2 filter_key_formats) "filters[0][field]"). cbn. eauto.
Defined.

Lemma obj_get_set_ne (o : object) (k k' : string) (v : value) :
  k' <> k -> obj_get (obj_set o k v) k' = obj_get o k'.
Proof.
  intros Hne. unfold obj_set. destruct (String.eqb k "__proto__"); [reflexivity|].
  induction o as [|[k0 v0] o IH]; cbn.
  - rewrite (proj2 (String.eqb_neq k k')); [reflexivity|congruence].
  - destruct (String.eqb k0 k) eqn:E; cbn.
    + apply String.eqb_eq in E. subst k0.
      rewrite (proj2 (String.eqb_neq k k')); [reflexivity|congruence].
    + destruct (String.eqb k0 k'); [reflexivity|exact IH].
Qed.

Lemma obj_get_not_key (o : object) (k : string) :
  existsb (String.eqb k) (keys o) = false -> obj_get o k = JUndefined.
Proof.
  unfold keys. induction o as [|[k0 v0] o IH]; [reflexivity|]. cbn.
  rewrite (String.eqb_sym k k0). destruct (String.eqb k0 k); [discriminate|exact IH].
Qed.

Lemma fold_array_none (q : object) (ks : list string) (acc : GenericController.parsed) :
  (forall k, In k ks -> GenericController.arrayMatch k = None) ->
  fold_left (GenericController.arrayStep q) ks acc = acc.
Proof.
  revert acc. induction ks as [|k ks IH]; intros acc H; [reflexivity|]. cbn.
  unfold GenericController.arrayStep at 2. rewrite (H k (or_introl eq_refl)).
  apply IH. intros k' Hk'. apply H. right. exact Hk'.
Qed.

Lemma legacy_fold_search (q : object) (ks : list string) (acc : GenericController.parsed) :
  GenericController.searchQuery (fold_left (GenericController.legacyStep q) ks acc)
  = GenericController.searchQuery acc.
Proof.
  revert acc. induction ks as [|k ks IH]; intros acc; [reflexivity|]. cbn. rewrite IH.
  unfold GenericController.legacyStep. destruct (GenericController.legacyMatch k); reflexivity.
Qed.

(** The second loop: the filter [field] ends up holding the value of the
    key [filter[field]], when that key is among those the loop visits. *)
Lemma legacy_fold (q : object) (ks : list string) (acc : GenericController.parsed)
    (field : string) :
  obj_get (GenericController.filters (fold_left (GenericController.legacyStep q) ks acc))
          field
  = if one_line field && negb (String.eqb field "__proto__")
       && existsb (String.eqb (legacy_key field)) ks
    then obj_get q (legacy_key field)
    else obj_get (GenericController.filters acc) field.
Proof.
  revert acc. induction ks as [|k ks IH]; intros acc.
  - cbn. rewrite andb_false_r. reflexivity.
  - cbn [fold_left existsb]. rewrite IH. unfold GenericController.legacyStep.
    destruct (GenericController.legacyMatch k) as [g|] eqn:Hm.
    + pose proof (proj1 (legacyMatch_iff k g) Hm) as [Hk Hg]. cbn [GenericController.filters].
      destruct (one_line field) eqn:Hl; cbn [andb].
      * destruct (String.eqb_spec field "__proto__") as [Hp|Hp]; cbn [negb andb].
        { destruct (String.eqb_spec g field) as [->|Hgf].
          - unfold obj_set. rewrite (proj2 (String.eqb_eq _ _) Hp). reflexivity.
          - apply obj_get_set_ne. congruence. }
        destruct (existsb (String.eqb (legacy_key field)) ks); [rewrite orb_true_r; reflexivity|].
        rewrite orb_false_r. destruct (String.eqb (legacy_key field) k) eqn:E.
        -- apply String.eqb_eq in E. rewrite <- E in Hm.
           rewrite (proj2 (legacyMatch_iff _ field) (conj eq_refl Hl)) in Hm.
           injection Hm as <-. rewrite obj_get_set by exact Hp. rewrite E. reflexivity.
        -- apply obj_get_set_ne. intros ->. rewrite Hk, String.eqb_refl in E. discriminate.
      * apply obj_get_set_ne. intros ->. congruence.
    + destruct (one_line field) eqn:Hl; cbn [andb]; [|reflexivity].
      destruct (negb (String.eqb field "__proto__")); cbn [andb]; [|reflexivity].
      destruct (String.eqb (legacy_key field) k) eqn:E; [|reflexivity].
      apply String.eqb_eq in E. rewrite <- E in Hm.
      rewrite (proj2 (legacyMatch_iff _ field) (conj eq_refl Hl)) in Hm. discriminate.
Qed.

(** X17. Decoding the legacy format. For a query string with no key in
    the array format and no [filter] object, each filter is the value of
    its [filter[field]] parameter: the filters hold as their own
    properties, for every field without line terminator other than
    [__proto__], exactly what the query string holds under
    [filter[field]] (nothing when that key is absent), and nothing for any
    other field: the assignment to [__proto__] creates no filter. The
    search query is the [_search] parameter when that is a non-empty
    string, and null otherwise. *)
Theorem legacy_filters_are_decoded (q : object) :
  (forall key, In key (keys q) -> GenericController.arrayMatch key = None) ->
  truthy (obj_get q "filter") && typeof_object (obj_get q "filter") = false ->
  (forall field,
      obj_get (GenericController.filters (GenericController.parseFilters q)) field
      = if one_line field && negb (String.eqb field "__proto__")
        then obj_get q (legacy_key field) else JUndefined)
  /\ GenericController.searchQuery (GenericController.parseFilters q)
     = if truthy (obj_get q "_search") && typeof_string (obj_get q "_search")
       then obj_get q "_search" else JNull.
Proof.
  intros Harr Hobj. unfold GenericController.parseFilters.
  rewrite (fold_array_none q (keys q) _ Harr), Hobj. split.
  - intros field.
    destruct (truthy (obj_get q "_search") && typeof_string (obj_get q "_search"));
      cbn [GenericController.filters]; rewrite legacy_fold; cbn [GenericController.filters obj_get].
    all: destruct (one_line field && negb (String.eqb field "__proto__"));
      cbn [andb]; [|reflexivity].
    all: destruct (existsb (String.eqb (legacy_key field)) (keys q)) eqn:E; [reflexivity|].
    all: symmetry; apply obj_get_not_key, E.
  - destruct (truthy (obj_get q "_search") && typeof_string (obj_get q "_search"));
      [reflexivity|]. apply legacy_fold_search.
Qed.

(** The query string [?filter[code]=IND&page=2] filters on [code] only. *)
Lemma legacy_filters_are_decoded_witness :
  obj_get (GenericController.filters
             (GenericController.parseFilters
                [("filter[code]", JStr "IND"); ("page", JStr "2")])) "code"
  = JStr "IND"
  /\ obj_get (GenericController.filters
                (GenericController.parseFilters
                   [("filter[code]", JStr "IND"); ("page", JStr "2")])) "page"
     = JUndefined.
Proof.
  destruct (legacy_filters_are_decoded [("filter[code]", JStr "IND"); ("page", JStr "2")])
    as [H _].
  - intros key [<-|[<-|[]]]; reflexivity.
  - reflexivity.
  - split; [rewrite (H "code")|rewrite (H "page")]; reflexivity.
Defined.

Lemma array_key_not_search (index prop : string) : array_key index prop <> "_search".
Proof. intros H. cbv in H. discriminate H. Qed.

Lemma legacy_key_not_search (field : string) : legacy_key field <> "_search".
Proof. intros H. cbv in H. discriminate H. Qed.

Lemma arrayStep_ext (q q' : object) (acc : GenericController.parsed) (key : string) :
  (forall k, k <> "_search" -> obj_get q k = obj_get q' k) ->
  GenericController.arrayStep q acc key = GenericController.arrayStep q' acc key.
Proof.
  intros H. unfold GenericController.arrayStep.
  destruct (GenericController.arrayMatch key) as [[index prop]|] eqn:Hm; [|reflexivity].
  apply arrayMatch_iff in Hm. destruct Hm as (-> & _).
  rewrite (H (array_key index prop) (array_key_not_search _ _)).
  change ("filters[" +:+ index +:+ "][value]") with (array_key index "value").
  rewrite (H (array_key index "value") (array_key_not_search _ _)). reflexivity.
Qed.

Lemma legacyStep_ext (q q' : object) (acc : GenericController.parsed) (key : string) :
  (forall k, k <> "_search" -> obj_get q k = obj_get q' k) ->
  GenericController.legacyStep q acc key = GenericController.legacyStep q' acc key.
Proof.
  intros H. unfold GenericController.legacyStep.
  destruct (GenericController.legacyMatch key) as [field|] eqn:Hm; [|reflexivity].
  apply legacyMatch_iff in Hm. destruct Hm as (-> & _).
  rewrite (H (legacy_key field) (legacy_key_not_search _)). reflexivity.
Qed.

Lemma fold_skip {A : Type} (step : A -> string -> A) (ks : list string) (acc : A) :
  (forall a, step a "_search" = a) ->
  fold_left step ks acc
  = fold_left step (List.filter (fun k => negb (String.eqb k "_search")) ks) acc.
Proof.
  intros H. revert acc. induction ks as [|k ks IH]; intros acc; [reflexivity|]. cbn.
  destruct (String.eqb k "_search") eqn:E; cbn.
  - apply String.eqb_eq in E. subst k. rewrite H. apply IH.
  - apply IH.
Qed.

Lemma fold_left_ext_all {A B : Type} (f g : A -> B -> A) (l : list B) (acc : A) :
  (forall a b, f a b = g a b) -> fold_left f l acc = fold_left g l acc.
Proof.
  intros H. revert acc. induction l as [|b l IH]; intros acc; [reflexivity|]. cbn.
  rewrite H. apply IH.
Qed.

(** The filters and the pagination do not depend on the [_search]
    parameter. *)
Lemma parseFilters_same_but_search (q q' : object) :
  same_but_search q q' ->
  GenericController.filters (GenericController.parseFilters q)
  = GenericController.filters (GenericController.parseFilters q')
  /\ GenericController.pagination q = GenericController.pagination q'
  /\ obj_get q "sortBy" = obj_get q' "sortBy"
  /\ obj_get q "sortOrder" = obj_get q' "sortOrder".
Proof.
  intros [Hget Hkeys].
  assert (Hloops : forall acc,
             fold_left (GenericController.legacyStep q) (keys q)
               (fold_left (GenericController.arrayStep q) (keys q) acc)
             = fold_left (GenericController.legacyStep q') (keys q')
                 (fold_left (GenericController.arrayStep q') (keys q') acc)).
  { intros acc.
    rewrite (fold_skip (GenericController.legacyStep q)) by reflexivity.
    rewrite (fold_skip (GenericController.arrayStep q)) by reflexivity.
    rewrite (fold_skip (GenericController.legacyStep q') (keys q')) by reflexivity.
    rewrite (fold_skip (GenericController.arrayStep q') (keys q')) by reflexivity.
    rewrite Hkeys.
    rewrite (fold_left_ext_all _ _ _ _ (fun a b => legacyStep_ext q q' a b Hget)).
    rewrite (fold_left_ext_all _ _ _ _ (fun a b => arrayStep_ext q q' a b Hget)).
    reflexivity. }
  split; [|split; [|split]].
  - unfold GenericController.parseFilters. rewrite Hloops.
    rewrite (Hget "filter") by discriminate.
    destruct (truthy (obj_get q "_search") && typeof_string (obj_get q "_search"));
      destruct (truthy (obj_get q' "_search") && typeof_string (obj_get q' "_search"));
      destruct (truthy (obj_get q' "filter") && typeof_object (obj_get q' "filter"));
      reflexivity.
  - unfold GenericController.pagination.
    rewrite (Hget "current"), (Hget "pageSize"), (Hget "_start"), (Hget "_end"),
      (Hget "page"), (Hget "per_page") by discriminate.
    reflexivity.
  - apply Hget. discriminate.
  - apply Hget. discriminate.
Qed.

(** X18. A search that cannot be served is dropped without a word.
    Loading the searchable columns never fails and never changes the
    state; and when the table has no searchable columns configured (no
    configuration row that is not deleted, none listed, or no readable
    configuration relation at all), the list handler answers a request
    exactly as it answers the same request with another search term, or
    with none. *)
Theorem search_without_columns_is_ignored :
  (forall table p st,
      exists f, run (GenericController.loadSearch table p) st = (Return f, st))
  /\ forall st req req',
       searchable_columns_of (db st) (GenericController.params_table req) = [] ->
       GenericController.params_table req' = GenericController.params_table req ->
       same_but_search (GenericController.query_ req) (GenericController.query_ req') ->
       run (GenericController.list_ req) st = run (GenericController.list_ req') st.
Proof.
  split.
  - intros tbl p st. eexists. apply loadSearch_result.
  - intros st req req' Hnone Htable Hsame.
    destruct (parseFilters_same_but_search _ _ Hsame) as (Hf & Hp & Hby & Hord).
    rewrite !controller_list_run, Htable, Hp, Hby, Hord.
    unfold search_filters. rewrite Hnone, Hf.
    destruct (truthy (GenericController.searchQuery
                        (GenericController.parseFilters (GenericController.query_ req))));
      destruct (truthy (GenericController.searchQuery
                          (GenericController.parseFilters (GenericController.query_ req'))));
      reflexivity.
Qed.

(** On the seeded database without configuration, [?_search=ind] lists
    what the plain request lists. *)
Lemma search_without_columns_is_ignored_witness :
  run (GenericController.list_ (request_for "countries" "" [("_search", JStr "ind")] []))
      Scenario.plain
  = run (GenericController.list_ (request_for "countries" "" [] [])) Scenario.plain.
Proof.
  apply (proj2 search_without_columns_is_ignored).
  - reflexivity.
  - reflexivity.
  - split; [|reflexivity]. intros k Hk. cbn [GenericController.query_ request_for obj_get].
    rewrite (proj2 (String.eqb_neq "_search" k)); [reflexivity|congruence].
Defined.

Lemma keys_set_in (o : object) (k : string) (v : value) :
  In k (keys o) -> keys (obj_set o k v) = keys o.
Proof.
  unfold obj_set. destruct (String.eqb k "__proto__"); [reflexivity|].
  unfold keys. induction o as [|[k0 v0] o IH]; intros H; [destruct H|]. cbn in *.
  destruct (String.eqb k0 k) eqn:E; cbn.
  - apply String.eqb_eq in E. subst k0. reflexivity.
  - f_equal. apply IH. destruct H as [->|H]; [|exact H].
    rewrite String.eqb_refl in E. discriminate.
Qed.

(** X19. Only the field and the value of an array-format filter are read:
    whatever a request puts under another part of a filter, such as the
    [operator] that the Refine data provider sends, changes neither the
    filters nor the search query nor the pagination. Every filter is an
    equality. *)
Theorem array_operator_is_ignored (q : object) (index prop : string) (v : value) :
  In (array_key index prop) (keys q) ->
  index <> "" ->
  all_chars is_digit index = true ->
  prop <> "" ->
  all_chars GenericController.is_word prop = true ->
  prop <> "field" ->
  prop <> "value" ->
  GenericController.parseFilters (obj_set q (array_key index prop) v)
  = GenericController.parseFilters q
  /\ GenericController.pagination (obj_set q (array_key index prop) v)
     = GenericController.pagination q.
Proof.
  intros Hin Hi Hid Hp Hpw Hnf Hnv.
  set (k := array_key index prop) in *. set (q' := obj_set q k v).
  assert (Hk : GenericController.arrayMatch k = Some (index, prop)).
  { apply arrayMatch_iff. repeat split; assumption. }
  assert (Hget : forall k', k' <> k -> obj_get q' k' = obj_get q k')
    by (intros k' Hne; apply obj_get_set_ne, Hne).
  assert (Hkeys : keys q' = keys q) by apply keys_set_in, Hin.
  assert (Hfix : forall s, String.prefix "filters[" s = false -> s <> k).
  { intros s Hs ->. unfold k, array_key in Hs. rewrite prefix_append in Hs. discriminate. }
  assert (Harr : forall acc key,
             GenericController.arrayStep q' acc key = GenericController.arrayStep q acc key).
  { intros acc key. unfold GenericController.arrayStep.
    destruct (GenericController.arrayMatch key) as [[i p]|] eqn:Hm; [|reflexivity].
    destruct (String.eqb p "field") eqn:Hf; [|reflexivity].
    apply String.eqb_eq in Hf. subst p.
    pose proof (proj1 (arrayMatch_iff _ _ _) Hm) as (-> & Hi' & Hid' & _).
    change ("filters[" +:+ i +:+ "][value]") with (array_key i "value").
    rewrite (Hget (array_key i "field")), (Hget (array_key i "value")); [reflexivity| |].
    - intros H. rewrite <- H in Hk.
      rewrite (proj2 (arrayMatch_iff _ i "value")) in Hk; [congruence|].
      repeat split; try assumption; discriminate.
    - intros H. rewrite H in Hm. congruence. }
  assert (Hleg : forall acc key,
             GenericController.legacyStep q' acc key = GenericController.legacyStep q acc key).
  { intros acc key. unfold GenericController.legacyStep.
    destruct (GenericController.legacyMatch key) as [field|] eqn:Hm; [|reflexivity].
    rewrite (Hget key); [reflexivity|]. intros ->.
    rewrite (arrayMatch_not_legacy k) in Hm; [discriminate|]. rewrite Hk. eauto. }
  split.
  - unfold GenericController.parseFilters. rewrite Hkeys.
    rewrite (fold_left_ext_all _ _ _ _ Harr), (fold_left_ext_all _ _ _ _ Hleg).
    rewrite (Hget "filter"), (Hget "_search") by (apply Hfix; reflexivity).
    reflexivity.
  - unfold GenericController.pagination.
    rewrite (Hget "current"), (Hget "pageSize"), (Hget "_start"), (Hget "_end"),
      (Hget "page"), (Hget "per_page") by (apply Hfix; reflexivity).
    reflexivity.
Qed.

(** [filters[0][operator]=contains] and [filters[0][operator]=eq] give the
    same filter on [name]. *)
Lemma array_operator_is_ignored_witness :
  GenericController.parseFilters
    [("filters[0][field]", JStr "name"); ("filters[0][operator]", JStr "eq");
     ("filters[0][value]", JStr "India")]
  = GenericController.parseFilters
      [("filters[0][field]", JStr "name"); ("filters[0][operator]", JStr "contains");
       ("filters[0][value]", JStr "India")]
  /\ GenericController.filters
       (GenericController.parseFilters
          [("filters[0][field]", JStr "name"); ("filters[0][operator]", JStr "contains");
           ("filters[0][value]", JStr "India")])
     = [("name", JStr "India")].
Proof.
  split; [|reflexivity].
  apply (array_operator_is_ignored
           [("filters[0][field]", JStr "name"); ("filters[0][operator]", JStr "contains");
            ("filters[0][value]", JStr "India")] "0" "operator" (JStr "eq"));
    try reflexivity; try discriminate.
  right. left. reflexivity.
Defined.

(* ===================================================================== *)
(** * The window and the order of a list *)
(* ===================================================================== *)

(** X20. The [_start]/[_end] format is served in whole pages: with
    [0 <= start < end], the limit is [end - start] and the offset of the
    query is [start] rounded down to a multiple of the limit, so that the
    rows from [start] on are returned exactly when [start] is a multiple
    of [end - start]. *)
Theorem start_end_window_is_aligned (q : object) (start end_ : Z) :
  dialect_of q = StartEnd ->
  num_or (parseInt (obj_get q "_start")) (Fin 0) = Fin start ->
  num_or (parseInt (obj_get q "_end")) (Fin 30) = Fin end_ ->
  0 <= start < end_ ->
  snd (GenericController.pagination q) = Fin (end_ - start)
  /\ GenericService.pageOffset (fst (GenericController.pagination q))
                               (snd (GenericController.pagination q))
     = Fin (start - start mod (end_ - start))
  /\ (GenericService.pageOffset (fst (GenericController.pagination q))
                                (snd (GenericController.pagination q))
      = Fin start
      <-> (end_ - start | start)).
Proof.
  intros Hd Hs He Hrange. rewrite (pagination_start_end q Hd). cbv zeta.
  rewrite Hs, He. cbn [fst snd num_sub num_neg num_add floor_div].
  replace (end_ + - start) with (end_ - start) by lia.
  destruct (Z.eqb_spec (end_ - start) 0) as [H0|H0]; [lia|].
  cbn [num_add]. rewrite pageOffset_fin.
  assert (Hoff : (start / (end_ - start) + 1 - 1) * (end_ - start)
                 = start - start mod (end_ - start)).
  { pose proof (Z.div_mod start (end_ - start) H0). lia. }
  rewrite Hoff. split; [reflexivity|]. split; [reflexivity|].
  rewrite <- (Z.mod_divide start (end_ - start)) by exact H0. split.
  - intros [= H]. lia.
  - intros ->. f_equal. lia.
Qed.

(** [?_start=10&_end=25] asks for the rows 10 to 24 and is served the rows
    0 to 14. *)
Lemma start_end_window_is_aligned_witness :
  GenericController.pagination [("_start", JStr "10"); ("_end", JStr "25")]
  = (Fin 1, Fin 15)
  /\ GenericService.pageOffset (Fin 1) (Fin 15) = Fin 0.
Proof.
  destruct (start_end_window_is_aligned [("_start", JStr "10"); ("_end", JStr "25")] 10 25)
    as (_ & H & _); try reflexivity; [lia|].
  split; [reflexivity|]. exact H.
Defined.

Lemma sql_leb_total (t : Sql.table) (c : string) (a b : sqlval) :
  total_order t c -> sql_leb t c a b = false -> sql_leb t c b a = true.
Proof.
  intros Htot. destruct a as [|x|x], b as [|y|y]; cbn; try congruence; apply Htot.
Qed.

Lemma row_leb_total (t : Sql.table) (col dir : string) (a b : row) :
  total_order t col -> row_leb t col dir a b = false -> row_leb t col dir b a = true.
Proof.
  intros Htot. unfold row_leb. destruct (String.eqb dir "DESC"); apply sql_leb_total, Htot.
Qed.

Lemma ordered_cons {A : Type} (R : A -> A -> bool) (a : A) (l : list A) :
  ordered R (a :: l) = match l with
                       | b :: _ => R a b && ordered R l
                       | [] => true
                       end.
Proof. reflexivity. Qed.

Lemma ordered_tail {A : Type} (R : A -> A -> bool) (a : A) (l : list A) :
  ordered R (a :: l) = true -> ordered R l = true.
Proof.
  rewrite ordered_cons. destruct l as [|b l]; [reflexivity|].
  intros H. apply andb_true_iff in H. apply H.
Qed.

Lemma insert_sorted_ordered (leb : row -> row -> bool) (r : row) (l : list row) :
  (forall a b, leb a b = false -> leb b a = true) ->
  ordered leb l = true ->
  ordered leb (insert_sorted leb r l) = true.
Proof.
  intros Htot. induction l as [|x l IH]; intros Hl; [reflexivity|].
  cbn [insert_sorted]. destruct (leb r x) eqn:E.
  - rewrite ordered_cons, E, Hl. reflexivity.
  - specialize (IH (ordered_tail _ _ _ Hl)). rewrite ordered_cons.
    destruct l as [|y l]; cbn [insert_sorted] in *.
    + rewrite (Htot _ _ E). reflexivity.
    + rewrite ordered_cons in Hl. apply andb_true_iff in Hl. destruct Hl as [Hxy Hl].
      destruct (leb r y); [rewrite (Htot _ _ E)|rewrite Hxy]; exact IH.
Qed.

Lemma sort_rows_ordered (leb : row -> row -> bool) (l : list row) :
  (forall a b, leb a b = false -> leb b a = true) ->
  ordered leb (sort_rows leb l) = true.
Proof.
  intros Htot. induction l as [|x l IH]; [reflexivity|].
  cbn. apply insert_sorted_ordered; assumption.
Qed.

Lemma ordered_drop {A : Type} (R : A -> A -> bool) (n : nat) (l : list A) :
  ordered R l = true -> ordered R (drop n l) = true.
Proof.
  revert l. induction n as [|n IH]; intros l H; [rewrite drop_0; exact H|].
  destruct l as [|a l]; [reflexivity|]. cbn. apply IH. eapply ordered_tail, H.
Qed.

Lemma ordered_take {A : Type} (R : A -> A -> bool) (n : nat) (l : list A) :
  ordered R l = true -> ordered R (take n l) = true.
Proof.
  revert l. induction n as [|n IH]; intros l H; [reflexivity|].
  destruct l as [|a l]; [reflexivity|]. cbn [take]. rewrite ordered_cons.
  pose proof (IH l (ordered_tail _ _ _ H)) as Ht.
  destruct l as [|b l]; [destruct n; reflexivity|].
  rewrite ordered_cons in H. apply andb_true_iff in H. destruct H as [Hab _].
  destruct n as [|n]; [reflexivity|]. cbn [take] in *. rewrite Hab. exact Ht.
Qed.

(** X21. The rows of a list come in the order asked for. When the request
    names a sort column by an identifier and gives a sort order in ASCII
    characters, each row returned is followed by a row that the engine's
    ordering of that column, whatever total ordering it is, does not put
    before it: in descending order when the sort order is [desc] in any
    letter case, and in ascending order for every other word. *)
Theorem list_is_ordered (table : string) (t : Sql.table) (page limit : number)
    (filters : object) (sortBy : value) (s : string) (st st' : state)
    (r : GenericService.list_result) :
  tables (db st) !! table = Some t ->
  total_order t (ToString sortBy) ->
  truthy sortBy = true ->
  is_identifier (ToString sortBy) = true ->
  is_ascii s = true ->
  s <> "" ->
  run (GenericService.list_ table page limit filters sortBy (JStr s)) st = (Return r, st') ->
  exists rows,
    GenericService.data r = List.map js_of_row rows
    /\ (toUpperCase s = "DESC" ->
        ordered (fun a b => sql_leb t (ToString sortBy) (cell b (ToString sortBy))
                                    (cell a (ToString sortBy)))
                rows = true)
    /\ (toUpperCase s <> "DESC" ->
        ordered (fun a b => sql_leb t (ToString sortBy) (cell a (ToString sortBy))
                                    (cell b (ToString sortBy)))
                rows = true).
Proof.
  intros Ht Htot Hby Hident _ Hs.
  unfold GenericService.list_. rewrite run_bind, requireTable_run, Ht.
  rewrite run_bind. cbn [GenericService.lift run].
  destruct (GenericService.buildWhere filters limit (GenericService.pageOffset page limit))
    as [[cs repl]|e] eqn:Eb; [|discriminate].
  rewrite run_bind. cbn [GenericService.lift run].
  unfold GenericService.orderBy. rewrite Hby. cbn [truthy andb].
  rewrite (proj2 (String.eqb_neq s "") Hs). cbn [negb].
  rewrite run_bind. cbn [query run].
  unfold select_rows, lookup_table. rewrite Ht. cbn [mbind outcome_bind].
  destruct (compile_where t repl cs) as [keep|e]; [|discriminate].
  cbn [mbind outcome_bind]. rewrite (read_sort_identifier _ Hident).
  unfold order_by. destruct (has_column t (ToString sortBy)); [|discriminate].
  cbn [mbind outcome_bind].
  match goal with
  | |- context [windowed true repl (sort_rows ?leb ?l)] =>
      pose proof (sort_rows_ordered leb l) as Hord;
      destruct (windowed true repl (sort_rows leb l)) as [rows|e] eqn:Ew; [|discriminate]
  end.
  apply windowed_Return in Ew. destruct Ew as (l & o & _ & _ & ->).
  rewrite run_bind. cbn [query run].
  destruct (count_rows (db st) table cs repl) as [n|e]; [|discriminate].
  cbn. intros [= <- <-]. eexists. split; [reflexivity|].
  destruct (String.eqb (toUpperCase s) "DESC") eqn:Hd.
  - apply String.eqb_eq in Hd. split; [intros _|congruence].
    apply ordered_take, ordered_drop, Hord.
    intros a b. apply (row_leb_total t (ToString sortBy) "DESC" a b Htot).
  - apply String.eqb_neq in Hd. split; [congruence|intros _].
    apply ordered_take, ordered_drop, Hord.
    intros a b. apply (row_leb_total t (ToString sortBy) "ASC" a b Htot).
Qed.

(** The countries by name, in descending order. *)
Lemma list_is_ordered_witness :
  total_order Scenario.countries "name"
  /\ exists r rows,
       run (GenericService.list_ "countries" (Fin 1) (Fin 30) []
              (JStr "name") (JStr "desc")) Scenario.fresh
       = (Return r, Scenario.fresh)
       /\ GenericService.data r = List.map js_of_row rows
       /\ ordered (fun a b => sql_leb Scenario.countries "name" (cell b "name") (cell a "name"))
                  rows = true.
Proof.
  assert (Htot : total_order Scenario.countries "name").
  { intros a b. destruct a as [|x|x], b as [|y|y]; cbn; try congruence.
    - intros H. apply Z.leb_gt in H. apply Z.leb_le. lia.
    - intros H. destruct (String.leb_total x y) as [H'|H']; congruence. }
  split; [exact Htot|].
  eexists.
  match goal with
  | |- exists rows, ?run = (Return ?r, _) /\ _ =>
      assert (Hrun : run = (Return r, Scenario.fresh)) by (vm_compute; reflexivity)
  end.
  destruct (list_is_ordered "countries" Scenario.countries (Fin 1) (Fin 30) []
              (JStr "name") "desc" Scenario.fresh Scenario.fresh _
              eq_refl Htot eq_refl eq_refl eq_refl ltac:(discriminate) Hrun)
    as (rows & Hdata & Hdesc & _).
  exists rows. split; [exact Hrun|]. split; [exact Hdata|]. apply Hdesc. reflexivity.
Defined.

(* ===================================================================== *)
(** * The configuration store (tableConfigController.ts) *)
(* ===================================================================== *)

Lemma getConfig_run (st : state) (rows : list config_row) (t : string) :
  configurations (db st) = Some rows ->
  run (TableConfigController.getConfig t) st
  = (Return (config_answer (List.filter (fun c => named t c && active c) rows)), st).
Proof.
  intros H. unfold TableConfigController.getConfig, handle, try_catch.
  cbn. unfold config_select_active, config_relation. rewrite H. cbn.
  destruct (List.filter (fun c => named t c && active c) rows); reflexivity.
Qed.

Lemma listConfiguredTables_run (st : state) (rows : list config_row) :
  configurations (db st) = Some rows ->
  run TableConfigController.listConfiguredTables st
  = (Return (json [("success", JBool true);
                   ("data", names_value
                              (fold_right insert_name []
                                 (cfg_table_name <$> List.filter active rows)))]), st).
Proof.
  intros H. unfold TableConfigController.listConfiguredTables, handle, try_catch.
  cbn. unfold config_select_names, config_relation. rewrite H. reflexivity.
Qed.

Lemma saveConfig_insert_run (st : state) (rows : list config_row) (t : string)
    (b : TableConfigController.save_body) (f : config_fields) :
  configurations (db st) = Some rows ->
  TableConfigController.table_name b = Some t ->
  t <> "" ->
  List.filter (named t) rows = [] ->
  supplies b f ->
  run (TableConfigController.saveConfig b) st
  = (Return saved,
     {| db := with_configurations (db st) (rows ++ [inserted_config (db st) rows t f]);
        metadataCache := metadataCache st |}).
Proof.
  intros H Hb Ht Hnone Hf. unfold TableConfigController.saveConfig, handle, try_catch.
  rewrite Hb. destruct t as [|ch t']; [contradiction|].
  cbn. unfold config_select_named, config_relation. rewrite H. cbn.
  rewrite Hnone. cbn. rewrite Hf. cbn. unfold config_insert, config_relation.
  rewrite H. reflexivity.
Qed.

Lemma saveConfig_nameless_run (st : state) (b : TableConfigController.save_body) :
  TableConfigController.table_name b = None
  \/ TableConfigController.table_name b = Some "" ->
  run (TableConfigController.saveConfig b) st
  = (Return (rejected "table_name is required"), st).
Proof.
  intros [H|H]; unfold TableConfigController.saveConfig; rewrite H; reflexivity.
Qed.

Lemma saveConfig_unavailable_run (st : state) (b : TableConfigController.save_body)
    (t : string) :
  configurations (db st) = None ->
  TableConfigController.table_name b = Some t ->
  t <> "" ->
  run (TableConfigController.saveConfig b) st
  = (Return (failure 500 (no_such_table "table_configurations")), st).
Proof.
  intros H Hb Ht. unfold TableConfigController.saveConfig, handle, try_catch.
  rewrite Hb. destruct t as [|ch t']; [contradiction|].
  cbn. unfold config_select_named, config_relation. rewrite H. reflexivity.
Qed.

Lemma deleteConfig_unavailable_run (st : state) (t : string) :
  configurations (db st) = None ->
  run (TableConfigController.deleteConfig t) st
  = (Return (failure 500 (no_such_table "table_configurations")), st).
Proof.
  intros H. unfold TableConfigController.deleteConfig, handle, try_catch. cbn.
  unfold config_soft_delete, config_relation. rewrite H. reflexivity.
Qed.

(** X23. When the relation [table_configurations] cannot be queried, the
    four configuration handlers answer 500 with the error of the engine
    and change nothing; a [saveConfig] without a table name is answered
    400 before the database is consulted, whatever its state. *)
Theorem config_store_unavailable :
  (forall st b,
      TableConfigController.table_name b = None
      \/ TableConfigController.table_name b = Some "" ->
      run (TableConfigController.saveConfig b) st
      = (Return (rejected "table_name is required"), st))
  /\ forall st,
       configurations (db st) = None ->
       run TableConfigController.listConfiguredTables st
       = (Return (failure 500 (no_such_table "table_configurations")), st)
       /\ (forall t,
             run (TableConfigController.getConfig t) st
             = (Return (failure 500 (no_such_table "table_configurations")), st))
       /\ (forall t,
             run (TableConfigController.deleteConfig t) st
             = (Return (failure 500 (no_such_table "table_configurations")), st))
       /\ (forall b t,
             TableConfigController.table_name b = Some t ->
             t <> "" ->
             run (TableConfigController.saveConfig b) st
             = (Return (failure 500 (no_such_table "table_configurations")), st)).
Proof.
  split.
  - intros st b. apply saveConfig_nameless_run.
  - intros st H. repeat match goal with |- _ /\ _ => split end.
    + unfold TableConfigController.listConfiguredTables, handle, try_catch. cbn.
      unfold config_select_names, config_relation. rewrite H. reflexivity.
    + intros t. unfold TableConfigController.getConfig, handle, try_catch. cbn.
      unfold config_select_active, config_relation. rewrite H. reflexivity.
    + intros t. apply deleteConfig_unavailable_run, H.
    + intros b t. apply saveConfig_unavailable_run, H.
Qed.

(** On the database without [table_configurations], saving and reading a
    configuration both fail with 500. *)
Lemma config_store_unavailable_witness :
  run (TableConfigController.saveConfig Scenario.save_countries) Scenario.unconfigured
  = (Return (failure 500 (no_such_table "table_configurations")), Scenario.unconfigured)
  /\ run (TableConfigController.getConfig "countries") Scenario.unconfigured
     = (Return (failure 500 (no_such_table "table_configurations")), Scenario.unconfigured).
Proof.
  destruct (proj2 config_store_unavailable Scenario.unconfigured eq_refl)
    as (_ & Hget & _ & Hsave).
  split; [|apply Hget].
  apply (Hsave Scenario.save_countries "countries"); [reflexivity|discriminate].
Defined.

Lemma filter_map_fixed {A : Type} (p : A -> bool) (g : A -> A) (l : list A) :
  (forall x, p (g x) = p x) ->
  (forall x, p x = true -> g x = x) ->
  List.filter p (List.map g l) = List.filter p l.
Proof.
  intros Hp Hg. induction l as [|x l IH]; [reflexivity|]. cbn. rewrite Hp.
  destruct (p x) eqn:E; [rewrite (Hg x E)|]; rewrite IH; reflexivity.
Qed.

Lemma named_neq (t t' : string) (c : config_row) :
  t' <> t -> named t c = true -> named t' c = false.
Proof.
  unfold named. intros Hne H. apply String.eqb_eq in H. apply String.eqb_neq. congruence.
Qed.

(** Rewriting the rows of table [t] leaves the selection for any other
    table as it was. *)
Lemma other_selection (t t' : string) (g : config_row -> config_row)
    (rows : list config_row) :
  t' <> t ->
  (forall c, cfg_table_name (g c) = cfg_table_name c) ->
  List.filter (fun c => named t' c && active c)
    (List.map (fun c => if named t c then g c else c) rows)
  = List.filter (fun c => named t' c && active c) rows.
Proof.
  intros Hne Hg. apply filter_map_fixed.
  - intros c. destruct (named t c) eqn:E; [|reflexivity].
    assert (Hn : named t' (g c) = false).
    { apply (named_neq t); [exact Hne|]. unfold named in *. rewrite Hg. exact E. }
    rewrite Hn, (named_neq t t' c Hne E). reflexivity.
  - intros c H. destruct (named t c) eqn:E; [|reflexivity].
    rewrite (named_neq t t' c Hne E) in H. discriminate.
Qed.

Lemma filter_active_named (t : string) (rows : list config_row) :
  Forall (fun c => cfg_table_name c = t -> cfg_deleted_at c = None) rows ->
  List.filter (fun c => named t c && active c) rows = List.filter (named t) rows.
Proof.
  intros H. apply List.filter_ext_in. intros c Hc.
  rewrite Forall_forall in H. destruct (named t c) eqn:E; [|reflexivity].
  unfold active. rewrite (H c); [reflexivity|apply list_elem_of_In, Hc|].
  apply String.eqb_eq, E.
Qed.

(** X24. Round trip of a configuration. When no row of the table is
    soft-deleted, [saveConfig] with a body that supplies the five fields,
    followed by [getConfig] for the same table, answers with a row that
    holds the five lists just saved, bears the table's name and is not
    deleted, whether the row was inserted or overwritten; and the answers
    for every other table are what they were. With a field left out of
    the body, [saveConfig] answers 500 and writes nothing. *)
Theorem save_then_get_config (st : state) (rows : list config_row) (t : string)
    (b : TableConfigController.save_body) :
  configurations (db st) = Some rows ->
  TableConfigController.table_name b = Some t ->
  t <> "" ->
  Forall (fun c => cfg_table_name c = t -> cfg_deleted_at c = None) rows ->
  (forall f,
      supplies b f ->
      exists st' c,
        run (TableConfigController.saveConfig b) st = (Return saved, st')
        /\ run (TableConfigController.getConfig t) st'
           = (Return (json [("success", JBool true);
                            ("data", TableConfigController.config_value c)]), st')
        /\ cfg_table_name c = t
        /\ cfg_deleted_at c = None
        /\ row_fields c = f
        /\ cfg_updated_at c = now (db st)
        /\ forall t', t' <> t ->
             fst (run (TableConfigController.getConfig t') st')
             = fst (run (TableConfigController.getConfig t') st))
  /\ ((forall f, ~ supplies b f) ->
      exists e, run (TableConfigController.saveConfig b) st = (Return (failure 500 e), st)).
Proof.
  intros H Hb Ht Hactive. split.
  2:{ intros Hnone. destruct (replacements_cases b) as [[f Hf]|[e He]];
        [destruct (Hnone f Hf)|].
      exists e. apply (saveConfig_omitted_run st rows t b e H Hb Ht He). }
  intros f Hf.
  destruct (List.filter (named t) rows) as [|c0 rest] eqn:Hnamed.
  - eexists _, (inserted_config (db st) rows t f).
    split; [apply (saveConfig_insert_run st rows t b f H Hb Ht Hnamed Hf)|].
    assert (Hnew : named t (inserted_config (db st) rows t f) = true)
      by apply String.eqb_refl.
    split; [|split; [reflexivity|split; [reflexivity|split; [|split; [reflexivity|]]]]].
    + rewrite (getConfig_run _ (rows ++ [inserted_config (db st) rows t f]))
        by reflexivity.
      rewrite List.filter_app, (filter_active_named t rows Hactive), Hnamed.
      cbn [List.filter app]. rewrite Hnew. reflexivity.
    + destruct f; reflexivity.
    + intros t' Hne.
      rewrite (getConfig_run _ (rows ++ [inserted_config (db st) rows t f]))
        by reflexivity.
      rewrite (getConfig_run st rows t' H). cbn [fst]. do 2 f_equal.
      rewrite List.filter_app. cbn [List.filter].
      rewrite (named_neq t t' _ Hne Hnew). cbn. apply app_nil_r.
  - set (g := set_fields f (now (db st))).
    assert (Hsel : List.filter (fun c => named t c && active c)
                     (List.map (fun c => if named t c then g c else c) rows)
                   = List.map g (List.filter (named t) rows)).
    { rewrite <- (filter_active_named t rows Hactive). clear.
      induction rows as [|c rows IH]; [reflexivity|]. cbn [List.map List.filter].
      destruct (named t c) eqn:E.
      - change (named t (g c)) with (named t c). change (active (g c)) with (active c).
        rewrite E. cbn [andb]. destruct (active c); cbn [List.map]; rewrite IH; reflexivity.
      - rewrite E. cbn [andb]. exact IH. }
    eexists _, (g c0).
    split; [apply (saveConfig_update_run st rows t b f H Hb Ht); [|exact Hf];
            rewrite Hnamed; discriminate|].
    assert (Hc0 : In c0 (List.filter (named t) rows)) by (rewrite Hnamed; left; reflexivity).
    apply List.filter_In in Hc0. destruct Hc0 as [Hin Hname].
    apply String.eqb_eq in Hname.
    split; [|split; [exact Hname|split; [|split; [|split; [reflexivity|]]]]].
    + rewrite (getConfig_run _ (List.map (fun c => if named t c then g c else c) rows))
        by reflexivity.
      rewrite Hsel, Hnamed. reflexivity.
    + rewrite Forall_forall in Hactive. apply (Hactive c0); [apply list_elem_of_In, Hin|].
      exact Hname.
    + destruct f; reflexivity.
    + intros t' Hne.
      rewrite (getConfig_run _ (List.map (fun c => if named t c then g c else c) rows))
        by reflexivity.
      rewrite (getConfig_run st rows t' H). cbn [fst]. do 2 f_equal.
      apply other_selection; [exact Hne|reflexivity].
Qed.

(** Saving a configuration for [countries] on the seeded database, where
    one exists, and reading it back; the same body without its
    [searchable_columns] is answered 500. *)
Lemma save_then_get_config_witness :
  (exists st' c,
      run (TableConfigController.saveConfig Scenario.save_countries) Scenario.fresh
      = (Return saved, st')
      /\ run (TableConfigController.getConfig "countries") st'
         = (Return (json [("success", JBool true);
                          ("data", TableConfigController.config_value c)]), st')
      /\ cfg_searchable_columns c = Some ["name"])
  /\ exists e,
       run (TableConfigController.saveConfig Scenario.save_countries_partly) Scenario.fresh
       = (Return (failure 500 e), Scenario.fresh).
Proof.
  split.
  - destruct (save_then_get_config Scenario.fresh [Scenario.countries_config] "countries"
                Scenario.save_countries) as [Hsaved _].
    + reflexivity.
    + reflexivity.
    + discriminate.
    + repeat constructor.
    + destruct (Hsaved _ eq_refl) as (st' & c & Hsave & Hget & _ & _ & Hf & _).
      exists st', c. split; [exact Hsave|]. split; [exact Hget|].
      change (cfg_searchable_columns c) with (f_searchable_columns (row_fields c)).
      rewrite Hf. reflexivity.
  - destruct (save_then_get_config Scenario.fresh [Scenario.countries_config] "countries"
                Scenario.save_countries_partly) as [_ Hpartly].
    + reflexivity.
    + reflexivity.
    + discriminate.
    + repeat constructor.
    + apply Hpartly. intros f Hf. discriminate Hf.
Defined.

Lemma insert_name_In (x s : string) (l : list string) :
  In s (insert_name x l) <-> s = x \/ In s l.
Proof.
  induction l as [|y l IH]; cbn; [intuition|].
  destruct (String.leb x y); cbn; [intuition|]. rewrite IH. intuition.
Qed.

Lemma insert_name_length (x : string) (l : list string) :
  length (insert_name x l) = S (length l).
Proof.
  induction l as [|y l IH]; [reflexivity|]. cbn.
  destruct (String.leb x y); cbn; [reflexivity|]. rewrite IH. reflexivity.
Qed.

Lemma insert_name_ordered (x : string) (l : list string) :
  ordered String.leb l = true -> ordered String.leb (insert_name x l) = true.
Proof.
  induction l as [|y l IH]; intros Hl; [reflexivity|].
  cbn [insert_name]. destruct (String.leb x y) eqn:E.
  - rewrite ordered_cons, E, Hl. reflexivity.
  - assert (Hyx : String.leb y x = true)
      by (destruct (String.leb_total x y); congruence).
    specialize (IH (ordered_tail _ _ _ Hl)). rewrite ordered_cons.
    destruct l as [|z l]; cbn [insert_name] in *.
    + rewrite Hyx. reflexivity.
    + rewrite ordered_cons in Hl. apply andb_true_iff in Hl. destruct Hl as [Hyz Hl].
      destruct (String.leb x z); [rewrite Hyx|rewrite Hyz]; exact IH.
Qed.

Lemma sorted_names (l : list string) :
  ordered String.leb (fold_right insert_name [] l) = true
  /\ length (fold_right insert_name [] l) = length l
  /\ forall s, In s (fold_right insert_name [] l) <-> In s l.
Proof.
  induction l as [|x l (Ho & Hl & Hi)]; [repeat split; intros []|]. cbn [fold_right].
  split; [apply insert_name_ordered, Ho|]. split.
  - rewrite insert_name_length, Hl. reflexivity.
  - intros s. rewrite insert_name_In, Hi. cbn. intuition.
Qed.

Lemma selection_nonempty (t : string) (rows : list config_row) :
  List.filter (fun c => named t c && active c) rows <> []
  <-> In t (cfg_table_name <$> List.filter active rows).
Proof.
  rewrite <- list_elem_of_In, list_elem_of_fmap. split.
  - destruct (List.filter (fun c => named t c && active c) rows) as [|c l] eqn:E;
      [congruence|]. intros _.
    assert (Hc : In c (List.filter (fun c => named t c && active c) rows))
      by (rewrite E; left; reflexivity).
    apply List.filter_In in Hc. destruct Hc as [Hin Hc].
    apply andb_true_iff in Hc. destruct Hc as [Hn Ha].
    exists c. split; [symmetry; apply String.eqb_eq, Hn|].
    apply list_elem_of_In, List.filter_In. split; assumption.
  - intros (c & -> & Hc). apply list_elem_of_In, List.filter_In in Hc.
    destruct Hc as [Hin Ha]. intros Hnil.
    assert (Hc : In c (List.filter (fun c' => named (cfg_table_name c) c' && active c') rows)).
    { apply List.filter_In. split; [exact Hin|]. rewrite Ha. unfold named.
      rewrite String.eqb_refl. reflexivity. }
    rewrite Hnil in Hc. destruct Hc.
Qed.

Lemma deleted_rows_inactive (t : string) (a : Z) (rows : list config_row) :
  List.filter (fun c => named t c && active c)
    (List.map (fun c => if named t c then mark_deleted a c else c) rows) = [].
Proof.
  induction rows as [|c rows IH]; [reflexivity|]. cbn [List.map List.filter].
  destruct (named t c) eqn:E.
  - change (named t (mark_deleted a c)) with (named t c). rewrite E. cbn. exact IH.
  - rewrite E. cbn. exact IH.
Qed.

Lemma with_configurations_same (d : database) (rows : list config_row) :
  configurations d = Some rows -> with_configurations d rows = d.
Proof. destruct d as [ts cs n]. cbn. intros ->. reflexivity. Qed.

(** X26. [deleteConfig] hides the configuration of one table and nothing
    else: afterwards [getConfig] for the table answers null and the table
    is not listed; the answers for every other table are what they were;
    no row is removed from the relation; and when the table has no row,
    the call succeeds all the same and the state is what it was. *)
Theorem delete_config_hides_one_table (st : state) (rows : list config_row) (t : string) :
  configurations (db st) = Some rows ->
  exists st' rows' names,
    run (TableConfigController.deleteConfig t) st = (Return deleted, st')
    /\ configurations (db st') = Some rows'
    /\ length rows' = length rows
    /\ run (TableConfigController.getConfig t) st'
       = (Return (json [("success", JBool true); ("data", JNull)]), st')
    /\ run TableConfigController.listConfiguredTables st'
       = (Return (json [("success", JBool true); ("data", names_value names)]), st')
    /\ ~ In t names
    /\ (forall t', t' <> t ->
          fst (run (TableConfigController.getConfig t') st')
          = fst (run (TableConfigController.getConfig t') st))
    /\ (Forall (fun c => cfg_table_name c <> t) rows -> st' = st).
Proof.
  intros H.
  set (rows' := List.map (fun c => if named t c then mark_deleted (now (db st)) c else c)
                         rows).
  exists {| db := with_configurations (db st) rows'; metadataCache := metadataCache st |},
         rows', (fold_right insert_name [] (cfg_table_name <$> List.filter active rows')).
  split; [apply deleteConfig_run, H|]. split; [reflexivity|].
  split; [apply length_map|].
  split; [rewrite (getConfig_run _ rows') by reflexivity;
          unfold rows'; rewrite deleted_rows_inactive; reflexivity|].
  split; [apply listConfiguredTables_run; reflexivity|]. split; [|split].
  - intros Hin. apply (proj1 (proj2 (proj2 (sorted_names _)) t)) in Hin.
    apply selection_nonempty in Hin. apply Hin. apply deleted_rows_inactive.
  - intros t' Hne. rewrite (getConfig_run _ rows') by reflexivity.
    rewrite (getConfig_run st rows t' H). cbn [fst]. do 2 f_equal.
    apply other_selection; [exact Hne|reflexivity].
  - intros Hnone. assert (Hsame : rows' = rows).
    { unfold rows'. rewrite <- (List.map_id rows) at 2. apply List.map_ext_in.
      intros c Hc. rewrite Forall_forall in Hnone.
      destruct (named t c) eqn:E; [|reflexivity].
      apply String.eqb_eq in E. destruct (Hnone c); [apply list_elem_of_In, Hc|exact E]. }
    rewrite Hsame, (with_configurations_same _ _ H). destruct st; reflexivity.
Qed.

(** Deleting the configuration of [countries] on the seeded database. *)
Lemma delete_config_hides_one_table_witness :
  exists st',
    run (TableConfigController.deleteConfig "countries") Scenario.fresh = (Return deleted, st')
    /\ run (TableConfigController.getConfig "countries") st'
       = (Return (json [("success", JBool true); ("data", JNull)]), st').
Proof.
  destruct (delete_config_hides_one_table Scenario.fresh [Scenario.countries_config]
              "countries" eq_refl) as (st' & rows' & names & Hdel & _ & _ & Hget & _).
  exists st'. split; assumption.
Defined.

(** X27. One row for each table: when the relation holds at most one row
    for each table name, it still does after [saveConfig] and after
    [deleteConfig], whatever the request. [saveConfig] inserts a row only
    for a name that has none, and neither handler renames a row. *)
Theorem config_names_stay_unique (st : state) :
  one_row_per_table (db st) ->
  (forall b, one_row_per_table (db (snd (run (TableConfigController.saveConfig b) st))))
  /\ (forall t, one_row_per_table (db (snd (run (TableConfigController.deleteConfig t) st)))).
Proof.
  intros Hone. split.
  - intros b. destruct (configurations (db st)) as [rows|] eqn:H.
    + destruct (TableConfigController.table_name b) as [[|ch t']|] eqn:Hb;
        try (rewrite (saveConfig_nameless_run st b) by auto; exact Hone).
      set (t := String ch t') in *.
      destruct (replacements_cases b) as [[f Hsup]|[e He]].
      2:{ rewrite (saveConfig_omitted_run st rows t b e H Hb) by (try discriminate; assumption).
          exact Hone. }
      destruct (List.filter (named t) rows) as [|c0 rest] eqn:Hnamed.
      * rewrite (saveConfig_insert_run st rows t b f H Hb) by (try discriminate; assumption).
        intros rows' [= <-]. rewrite List.map_app. cbn [List.map inserted_config cfg_table_name].
        apply NoDup_app. split; [apply Hone, H|]. split; [|apply NoDup_singleton].
        intros x Hx Hxt. apply list_elem_of_singleton in Hxt. subst x.
        apply list_elem_of_In, List.in_map_iff in Hx. destruct Hx as (c & Hc & Hin).
        assert (Hf : In c (List.filter (named t) rows)).
        { apply List.filter_In. split; [exact Hin|]. apply String.eqb_eq, Hc. }
        rewrite Hnamed in Hf. destruct Hf.
      * rewrite (saveConfig_update_run st rows t b f H Hb)
          by (try discriminate; try assumption; rewrite Hnamed; discriminate).
        intros rows' [= <-]. rewrite List.map_map.
        rewrite (List.map_ext _ cfg_table_name); [apply Hone, H|].
        intros c. destruct (named t c); reflexivity.
    + destruct (TableConfigController.table_name b) as [[|ch t']|] eqn:Hb;
        try (rewrite (saveConfig_nameless_run st b) by auto; exact Hone).
      rewrite (saveConfig_unavailable_run st b (String ch t') H Hb) by discriminate.
      exact Hone.
  - intros t. destruct (configurations (db st)) as [rows|] eqn:H.
    + rewrite (deleteConfig_run st rows t H). intros rows' [= <-]. rewrite List.map_map.
      rewrite (List.map_ext _ cfg_table_name); [apply Hone, H|].
      intros c. destruct (named t c); reflexivity.
    + rewrite (deleteConfig_unavailable_run st t H). exact Hone.
Qed.

(** The seeded relation holds one row, and one row after a save. *)
Lemma config_names_stay_unique_witness :
  one_row_per_table (db Scenario.fresh)
  /\ one_row_per_table
       (db (snd (run (TableConfigController.saveConfig Scenario.save_countries)
                     Scenario.fresh))).
Proof.
  assert (H : one_row_per_table (db Scenario.fresh)).
  { intros rows [= <-]. apply NoDup_singleton. }
  split; [exact H|]. apply (config_names_stay_unique Scenario.fresh H).
Defined.

